(** * Logosaurus: the pretty-printer and the logger, embedded and checked

    The development follows the repository:

    - [JS]          the host operations the sources call ([String.prototype.split],
                    [Array.prototype.pop], [TextDecoder.decode], [JSON.parse],
                    [JSON.stringify], the colour helpers), as functions;
    - [PrettyPrint] [src/cli/pretty-print.ts]: [isLogObject],
                    [prettyPrintLogObject] and the read loop of [main];
    - [Logger]      the logger of [mod.ts], which [src/mod_test.ts] exercises.

    A JavaScript string is a sequence of UTF-16 code units; it is kept as
    the list of their numbers. *)

From Stdlib Require Import List NArith ZArith QArith Qreduction Bool Lia Ascii String.
From Stdlib.Strings Require Import Byte.
Import ListNotations.

Set Implicit Arguments.
Set Warnings "-register-all".

(* ================================================================== *)
(** ** Host operations *)
(* ================================================================== *)

Module JS.

Definition code_unit := N.
Definition js_string := list code_unit.

(** An ASCII literal of the sources as a JavaScript string. *)
Definition lit (s : string) : js_string :=
  map N_of_ascii (list_ascii_of_string s).

(** The same, with each apostrophe standing for a double quote, for the
    JSON lines of the examples. *)
Definition text (s : string) : js_string :=
  map (fun c => if N.eqb c 39 then 34%N else c) (lit s).

Arguments lit s%_string.
Arguments text s%_string.

Fixpoint str_eqb (a b : js_string) : bool :=
  match a, b with
  | [], [] => true
  | x :: a', y :: b' => N.eqb x y && str_eqb a' b'
  | _, _ => false
  end.

(** [s.split(sep)] for a separator of one code unit: the pieces between
    the occurrences of [sep]; never an empty array (the
    empty string splits to one empty piece). *)
Fixpoint split (sep : code_unit) (s : js_string) : list js_string :=
  match s with
  | [] => [[]]
  | c :: s' =>
      if N.eqb c sep then [] :: split sep s'
      else match split sep s' with
           | [] => [[c]]
           | piece :: pieces => (c :: piece) :: pieces
           end
  end.

Definition LF : code_unit := 10%N.

(** [a.pop()]: the array without its last element, and that element
    ([undefined], here [None], on an empty array). *)
Fixpoint pop {A : Type} (a : list A) : option A * list A :=
  match a with
  | [] => (None, [])
  | [x] => (Some x, [])
  | x :: a' => let (last, front) := pop a' in (last, x :: front)
  end.

(** [x ?? d] *)
Definition nullish {A : Type} (x : option A) (d : A) : A :=
  match x with Some v => v | None => d end.

(* ------------------------------------------------------------------ *)
(** *** [new TextDecoder().decode(chunk)]

    The UTF-8 decoder of the Encoding Standard, run on one chunk with no
    state kept between calls (the source passes no [stream] option): an
    ill-formed or truncated sequence becomes U+FFFD, and a leading byte
    order mark is dropped. *)

Definition REPLACEMENT : N := 65533%N.

(** A code point as UTF-16 code units. *)
Definition utf16 (cp : N) : js_string :=
  if (cp <? 65536)%N then [cp]
  else let v := (cp - 65536)%N in
       [(55296 + N.shiftr v 10)%N; (56320 + N.land v 1023)%N].

Record utf8_state := {
  u_cp : N;          (* code point so far *)
  u_needed : nat;    (* continuation bytes still expected *)
  u_lower : N;       (* bounds of the next continuation byte *)
  u_upper : N
}.

Definition utf8_idle : utf8_state :=
  {| u_cp := 0; u_needed := 0; u_lower := 128; u_upper := 191 |}.

(** A byte met when no sequence is open. *)
Definition utf8_lead (b : N) : js_string * utf8_state :=
  if (b <=? 127)%N then ([b], utf8_idle)
  else if ((194 <=? b) && (b <=? 223))%N then
    ([], {| u_cp := N.land b 31; u_needed := 1; u_lower := 128; u_upper := 191 |})
  else if ((224 <=? b) && (b <=? 239))%N then
    ([], {| u_cp := N.land b 15; u_needed := 2;
            u_lower := if (b =? 224)%N then 160 else 128;
            u_upper := if (b =? 237)%N then 159 else 191 |})
  else if ((240 <=? b) && (b <=? 244))%N then
    ([], {| u_cp := N.land b 7; u_needed := 3;
            u_lower := if (b =? 240)%N then 144 else 128;
            u_upper := if (b =? 244)%N then 143 else 191 |})
  else ([REPLACEMENT], utf8_idle).

Definition utf8_byte (st : utf8_state) (b : N) : js_string * utf8_state :=
  match u_needed st with
  | O => utf8_lead b
  | S rest =>
      if ((u_lower st <=? b) && (b <=? u_upper st))%N then
        let cp := N.lor (N.shiftl (u_cp st) 6) (N.land b 63) in
        match rest with
        | O => (utf16 cp, utf8_idle)
        | S _ => ([], {| u_cp := cp; u_needed := rest; u_lower := 128; u_upper := 191 |})
        end
      else
        (* the open sequence is ill-formed; the byte is read again *)
        let (out, st') := utf8_lead b in (REPLACEMENT :: out, st')
  end.

Fixpoint utf8_run (st : utf8_state) (bytes : list N) : js_string :=
  match bytes with
  | [] => match u_needed st with O => [] | S _ => [REPLACEMENT] end
  | b :: bytes' => let (out, st') := utf8_byte st b in out ++ utf8_run st' bytes'
  end.

Definition strip_bom (bytes : list N) : list N :=
  match bytes with
  | 239%N :: 187%N :: 191%N :: rest => rest
  | _ => bytes
  end.

Definition TextDecoder_decode (chunk : list byte) : js_string :=
  utf8_run utf8_idle (strip_bom (map Byte.to_N chunk)).

(** The bytes of an ASCII literal. *)
Definition bytes_of (s : string) : list byte := list_byte_of_string s.

Arguments bytes_of s%_string.

(* ------------------------------------------------------------------ *)
(** *** Numbers

    A Number is an IEEE 754 binary64 value: a finite non-zero one is
    [±m·2^e], with [2^52 <= m < 2^53] and [-1074 <= e <= 971], or
    [m < 2^52] and [e = -1074]. *)

Inductive number :=
| NaN
| Infinity (neg : bool)
| Zero (neg : bool)
| Finite (neg : bool) (m : positive) (e : Z).

Definition canonical (m : positive) (e : Z) : bool :=
  ((Zpos m <? 2 ^ 53) && (-1074 <=? e) && (e <=? 971)
   && ((2 ^ 52 <=? Zpos m) || (e =? -1074)))%Z.

Definition wf_number (x : number) : bool :=
  match x with Finite _ m e => canonical m e | _ => true end.

Definition number_eqb (x y : number) : bool :=
  match x, y with
  | NaN, NaN => true
  | Infinity a, Infinity b => Bool.eqb a b
  | Zero a, Zero b => Bool.eqb a b
  | Finite a m e, Finite b m' e' => Bool.eqb a b && Pos.eqb m m' && Z.eqb e e'
  | _, _ => false
  end.

(** The multiple [m·2^e] nearest to the rational [P/D > 0], ties to even,
    with [m] of at most 53 bits and [e >= -1074]: the quotient is taken
    in units of [2^-1074], its 53 leading bits are kept and the rest
    decides the rounding. *)
Definition nearest (P D : Z) : Z * Z :=
  let N0 := (P * 2 ^ 1074 / D)%Z in
  let r := ((P * 2 ^ 1074) mod D)%Z in
  let shift := Z.max 0 (Z.log2 N0 - 52) in
  let m := (N0 / 2 ^ shift)%Z in
  let low := (N0 mod 2 ^ shift)%Z in
  let against_half :=
    if (shift =? 0)%Z then (2 * r ?= D)%Z
    else match (low ?= 2 ^ (shift - 1))%Z with
         | Eq => if (r =? 0)%Z then Eq else Gt
         | c => c
         end in
  let m' := match against_half with
            | Lt => m
            | Gt => (m + 1)%Z
            | Eq => if Z.even m then m else (m + 1)%Z
            end in
  let e := (shift - 1074)%Z in
  if (m' =? 2 ^ 53)%Z then ((2 ^ 52)%Z, (e + 1)%Z) else (m', e).

(** The Number of sign [neg] for [m·2^e]: zero when nothing is left,
    infinite beyond the largest exponent. *)
Definition of_rounded (neg : bool) (me : Z * Z) : number :=
  match fst me with
  | Zpos pm => if (971 <? snd me)%Z then Infinity neg else Finite neg pm (snd me)
  | _ => Zero neg
  end.

(** The binary64 value nearest to the rational [q >= 0], with the sign
    [neg]. *)
Definition round_Q (neg : bool) (q : Q) : number :=
  let q := Qred q in
  if (Qnum q <=? 0)%Z then Zero neg
  else of_rounded neg (nearest (Qnum q) (Zpos (Qden q))).

(** [d·10^e] *)
Definition decimal (d e : Z) : Q :=
  if (0 <=? e)%Z then Qmake (d * 10 ^ e) 1
  else Qmake d (Z.to_pos (10 ^ (- e))).

(** The decimal digits of [n >= 0], most significant first. *)
Fixpoint digits_fuel (fuel : nat) (n : Z) (acc : list Z) : list Z :=
  match fuel with
  | O => n :: acc
  | S fuel' =>
      if (n <? 10)%Z then n :: acc
      else digits_fuel fuel' (n / 10)%Z ((n mod 10)%Z :: acc)
  end.

Definition digits (n : Z) : list Z := digits_fuel (Z.to_nat (Z.log2 n)) n [].

Definition undigits (ds : list Z) : Z :=
  fold_left (fun a d => (10 * a + d)%Z) ds 0%Z.

Definition digit_unit (d : Z) : code_unit := (48 + Z.to_N d)%N.

Definition digit_text (ds : list Z) : js_string := map digit_unit ds.

(** *** [Number::toString]

    The text of a finite non-zero [x] is made of the digits of [s] and the
    position [n] of the decimal point, where [s·10^(n-k)] is a decimal of
    as few digits [k] as possible that reads back as [x], and the nearest
    to [x] among those.  The search goes over the grids [10^j] from the
    coarsest down. *)

Definition magnitude (m : positive) (e : Z) : Q :=
  if (0 <=? e)%Z then Qmake (Zpos m * 2 ^ e) 1
  else Qmake (Zpos m) (Z.to_pos (2 ^ (- e))).

Definition reads_as (m : positive) (e : Z) (s j : Z) : bool :=
  number_eqb (round_Q false (decimal s j)) (Finite false m e).

(** The candidate of the grid [10^j], if one reads back as [m·2^e]. *)
Definition on_grid (m : positive) (e : Z) (j : Z) : option Z :=
  let v := magnitude m e in
  let num := if (0 <=? j)%Z then Qnum v else (Qnum v * 10 ^ (- j))%Z in
  let den := if (0 <=? j)%Z then (Zpos (Qden v) * 10 ^ j)%Z else Zpos (Qden v) in
  let low := (num / den)%Z in
  let high := (low + 1)%Z in
  let rem := (num mod den)%Z in
  let okL := (0 <? low)%Z && reads_as m e low j in
  let okH := reads_as m e high j in
  match okL, okH with
  | true, true =>
      match (2 * rem ?= den)%Z with
      | Lt => Some low
      | Gt => Some high
      | Eq => Some (if Z.even low then low else high)
      end
  | true, false => Some low
  | false, true => Some high
  | false, false => None
  end.

Fixpoint shortest (fuel : nat) (m : positive) (e : Z) (j : Z) : option (Z * Z) :=
  match fuel with
  | O => None
  | S fuel' =>
      match on_grid m e j with
      | Some s => Some (s, j)
      | None => shortest fuel' m e (j - 1)%Z
      end
  end.

(** An upper bound of the number of digits before the decimal point. *)
Definition point_bound (m : positive) (e : Z) : Z :=
  let l := (Z.log2 (Zpos m) + e + 1)%Z in
  ((if (0 <=? l)%Z then l * 30103 / 100000 else l * 30102 / 100000) + 1)%Z.

(** The exact decimal expansion of [m·2^e]. *)
Definition exact_decimal (m : positive) (e : Z) : Z * Z :=
  if (0 <=? e)%Z then ((Zpos m * 2 ^ e)%Z, 0%Z)
  else ((Zpos m * 5 ^ (- e))%Z, e).

Fixpoint strip_zeros (fuel : nat) (s j : Z) : Z * Z :=
  match fuel with
  | O => (s, j)
  | S fuel' =>
      if ((s mod 10 =? 0) && (0 <? s))%Z then strip_zeros fuel' (s / 10)%Z (j + 1)%Z
      else (s, j)
  end.

(** [(s, j)] with [m·2^e] read back from [s·10^j] and [s] not a multiple
    of ten.  Seventeen digits always suffice for a binary64 value; the
    exact expansion stands behind the search so that the function is
    total. *)
Definition shortest_decimal (m : positive) (e : Z) : Z * Z :=
  let (s, j) :=
    match shortest 20 m e (point_bound m e - 1)%Z with
    | Some r => r
    | None => exact_decimal m e
    end in
  strip_zeros (Z.to_nat (Z.log2 s)) s j.

Definition zeros (n : Z) : js_string := repeat 48%N (Z.to_nat n).

Definition unit_minus : code_unit := 45%N.
Definition unit_plus : code_unit := 43%N.
Definition unit_dot : code_unit := 46%N.
Definition unit_e : code_unit := 101%N.

(** Steps 7 to 11 of [Number::toString] for the digits [ds] of [s] and
    the position [n]. *)
Definition format_decimal (ds : list Z) (n : Z) : js_string :=
  let k := Z.of_nat (List.length ds) in
  if ((k <=? n) && (n <=? 21))%Z then
    digit_text ds ++ zeros (n - k)
  else if ((0 <? n) && (n <=? 21))%Z then
    digit_text (firstn (Z.to_nat n) ds) ++ [unit_dot] ++ digit_text (skipn (Z.to_nat n) ds)
  else if ((-6 <? n) && (n <=? 0))%Z then
    [48%N; unit_dot] ++ zeros (- n) ++ digit_text ds
  else
    let exponent :=
      [unit_e; if (0 <=? n - 1)%Z then unit_plus else unit_minus]
        ++ digit_text (digits (Z.abs (n - 1))) in
    match ds with
    | [d] => digit_text [d] ++ exponent
    | d :: ds' => digit_text [d] ++ [unit_dot] ++ digit_text ds' ++ exponent
    | [] => exponent
    end.

Definition NumberToString (x : number) : js_string :=
  match x with
  | NaN => lit "NaN"
  | Zero _ => lit "0"
  | Infinity neg => (if neg then [unit_minus] else []) ++ lit "Infinity"
  | Finite neg m e =>
      let (s, j) := shortest_decimal m e in
      let ds := digits s in
      (if neg then [unit_minus] else [])
        ++ format_decimal ds (Z.of_nat (List.length ds) + j)
  end.

(* ------------------------------------------------------------------ *)
(** *** JSON values and objects

    What [JSON.parse] returns: primitives, arrays and plain objects.  An
    object keeps its own properties in the order [OrdinaryOwnPropertyKeys]
    lists them: the array indices in ascending order, then the other keys
    in the order they were added. *)

Inductive json :=
| JNull
| JBool (b : bool)
| JNumber (x : number)
| JString (s : js_string)
| JArray (items : list json)
| JObject (props : list (js_string * json)).

Definition is_digit (c : code_unit) : bool := ((48 <=? c) && (c <=? 57))%N.

Definition digit_value (c : code_unit) : Z := Z.of_N (c - 48)%N.

(** The array index a property key spells, if it is one: a canonical
    numeral below [2^32 - 1]. *)
Definition array_index (k : js_string) : option Z :=
  match k with
  | [] => None
  | c :: rest =>
      if forallb is_digit k && (negb (N.eqb c 48) || match rest with [] => true | _ => false end)
           && (List.length k <=? 10)%nat
      then let v := undigits (map digit_value k) in
           if (v <? 2 ^ 32 - 1)%Z then Some v else None
      else None
  end.

(** Does the key [k] come before the key [k'] when both are created? *)
Definition key_before (k k' : js_string) : bool :=
  match array_index k, array_index k' with
  | Some i, Some i' => (i <? i')%Z
  | Some _, None => true
  | None, _ => false
  end.

(** [CreateDataProperty(o, k, v)] on the property list of a plain object. *)
Fixpoint define_property (k : js_string) (v : json) (props : list (js_string * json))
  : list (js_string * json) :=
  match props with
  | [] => [(k, v)]
  | (k', v') :: rest =>
      if str_eqb k k' then (k, v) :: rest
      else if key_before k k' then (k, v) :: props
      else (k', v') :: define_property k v rest
  end.

Definition object_of_entries (entries : list (js_string * json)) : list (js_string * json) :=
  fold_left (fun o kv => define_property (fst kv) (snd kv) o) entries [].

(** [o[k]] on own properties; [None] is [undefined]. *)
Fixpoint own_property (k : js_string) (props : list (js_string * json)) : option json :=
  match props with
  | [] => None
  | (k', v) :: rest => if str_eqb k k' then Some v else own_property k rest
  end.

(* ------------------------------------------------------------------ *)
(** *** [JSON.parse] *)

Definition is_ws (c : code_unit) : bool :=
  N.eqb c 9 || N.eqb c 10 || N.eqb c 13 || N.eqb c 32.

Fixpoint skip_ws (s : js_string) : js_string :=
  match s with
  | c :: s' => if is_ws c then skip_ws s' else s
  | [] => []
  end.

Definition hex_value (c : code_unit) : option N :=
  if ((48 <=? c) && (c <=? 57))%N then Some (c - 48)%N
  else if ((97 <=? c) && (c <=? 102))%N then Some (c - 87)%N
  else if ((65 <=? c) && (c <=? 70))%N then Some (c - 55)%N
  else None.

Definition hex4 (a b c d : code_unit) : option code_unit :=
  match hex_value a, hex_value b, hex_value c, hex_value d with
  | Some x, Some y, Some z, Some w => Some (((x * 16 + y) * 16 + z) * 16 + w)%N
  | _, _, _, _ => None
  end.

Definition unit_quote : code_unit := 34%N.
Definition unit_backslash : code_unit := 92%N.

Definition simple_escape (c : code_unit) : option code_unit :=
  if N.eqb c 34 then Some 34%N          (* quote *)
  else if N.eqb c 92 then Some 92%N     (* backslash *)
  else if N.eqb c 47 then Some 47%N     (* solidus *)
  else if N.eqb c 98 then Some 8%N      (* b: backspace *)
  else if N.eqb c 102 then Some 12%N    (* f: form feed *)
  else if N.eqb c 110 then Some 10%N    (* n: line feed *)
  else if N.eqb c 114 then Some 13%N    (* r: carriage return *)
  else if N.eqb c 116 then Some 9%N     (* t: tab *)
  else None.

(** The characters of a string literal after its opening quote, and what
    follows the closing quote. *)
Fixpoint parse_chars (s : js_string) : option (js_string * js_string) :=
  match s with
  | [] => None
  | c :: r =>
      if N.eqb c unit_quote then Some ([], r)
      else if N.eqb c unit_backslash then
        match r with
        | [] => None
        | x :: r' =>
            if N.eqb x 117 then
              match r' with
              | a :: b :: c' :: d :: r'' =>
                  match hex4 a b c' d, parse_chars r'' with
                  | Some u, Some (str, rest) => Some (u :: str, rest)
                  | _, _ => None
                  end
              | _ => None
              end
            else
              match simple_escape x, parse_chars r' with
              | Some u, Some (str, rest) => Some (u :: str, rest)
              | _, _ => None
              end
        end
      else if (c <? 32)%N then None
      else match parse_chars r with
           | Some (str, rest) => Some (c :: str, rest)
           | None => None
           end
  end.

(** The longest run of digits at the head of [s]. *)
Fixpoint span_digits (s : js_string) : list Z * js_string :=
  match s with
  | c :: s' =>
      if is_digit c then let (ds, rest) := span_digits s' in (digit_value c :: ds, rest)
      else ([], s)
  | [] => ([], [])
  end.

Fixpoint strip_prefix (p s : js_string) : option js_string :=
  match p, s with
  | [], _ => Some s
  | a :: p', b :: s' => if N.eqb a b then strip_prefix p' s' else None
  | _ :: _, [] => None
  end.

(** The parts of a number literal, [-? int frac? exp?]. *)
Definition parse_sign (s : js_string) : bool * js_string :=
  match s with
  | c :: r => if N.eqb c unit_minus then (true, r) else (false, s)
  | [] => (false, s)
  end.

(** [int]: a zero, or digits that do not begin with a zero. *)
Definition parse_int (s : js_string) : option (list Z * js_string) :=
  let (ds, rest) := span_digits s in
  match ds with
  | [] => None
  | d :: more =>
      if (d =? 0)%Z && negb (match more with [] => true | _ => false end) then None
      else Some (ds, rest)
  end.

(** [frac?]: a point and at least one digit, or nothing. *)
Definition parse_frac (s : js_string) : option (list Z * js_string) :=
  match s with
  | c :: r =>
      if N.eqb c unit_dot then
        let (ds, rest) := span_digits r in
        match ds with [] => None | _ :: _ => Some (ds, rest) end
      else Some ([], s)
  | [] => Some ([], s)
  end.

(** [exp?]: [e] or [E], a sign or none, and at least one digit, or nothing. *)
Definition parse_exp (s : js_string) : option (Z * js_string) :=
  match s with
  | c :: r =>
      if N.eqb c 101 || N.eqb c 69 then
        let (eneg, r1) :=
          match r with
          | c' :: r' =>
              if N.eqb c' unit_minus then (true, r')
              else if N.eqb c' unit_plus then (false, r')
              else (false, r)
          | [] => (false, r)
          end in
        let (ds, rest) := span_digits r1 in
        match ds with
        | [] => None
        | _ :: _ => Some ((if eneg then - undigits ds else undigits ds)%Z, rest)
        end
      else Some (0%Z, s)
  | [] => Some (0%Z, s)
  end.

(** A number literal, read as the nearest Number. *)
Definition parse_number (s : js_string) : option (number * js_string) :=
  let (neg, s1) := parse_sign s in
  match parse_int s1 with
  | None => None
  | Some (int_ds, s2) =>
      match parse_frac s2 with
      | None => None
      | Some (frac_ds, s3) =>
          match parse_exp s3 with
          | None => None
          | Some (ex, rest) =>
              Some (round_Q neg (decimal (undigits (int_ds ++ frac_ds))
                                         (ex - Z.of_nat (List.length frac_ds))),
                    rest)
          end
      end
  end.

(** A value at the head of [s] (no white space before it), and the rest. *)
Fixpoint parse_value (fuel : nat) (s : js_string) : option (json * js_string) :=
  match fuel with
  | O => None
  | S fuel' =>
      match s with
      | [] => None
      | c :: r =>
          if N.eqb c 123 then
            match skip_ws r with
            | c' :: r' =>
                if N.eqb c' 125 then Some (JObject [], r')
                else match parse_members fuel' (c' :: r') with
                     | Some (entries, rest) => Some (JObject (object_of_entries entries), rest)
                     | None => None
                     end
            | [] => None
            end
          else if N.eqb c 91 then
            match skip_ws r with
            | c' :: r' =>
                if N.eqb c' 93 then Some (JArray [], r')
                else match parse_elements fuel' (c' :: r') with
                     | Some (items, rest) => Some (JArray items, rest)
                     | None => None
                     end
            | [] => None
            end
          else if N.eqb c unit_quote then
            match parse_chars r with
            | Some (str, rest) => Some (JString str, rest)
            | None => None
            end
          else
            match strip_prefix (lit "true") s, strip_prefix (lit "false") s,
                  strip_prefix (lit "null") s with
            | Some rest, _, _ => Some (JBool true, rest)
            | _, Some rest, _ => Some (JBool false, rest)
            | _, _, Some rest => Some (JNull, rest)
            | _, _, _ =>
                match parse_number s with
                | Some (x, rest) => Some (JNumber x, rest)
                | None => None
                end
            end
      end
  end

with parse_elements (fuel : nat) (s : js_string) : option (list json * js_string) :=
  match fuel with
  | O => None
  | S fuel' =>
      match parse_value fuel' s with
      | Some (v, r) =>
          match skip_ws r with
          | c :: r' =>
              if N.eqb c 44 then
                match parse_elements fuel' (skip_ws r') with
                | Some (vs, rest) => Some (v :: vs, rest)
                | None => None
                end
              else if N.eqb c 93 then Some ([v], r')
              else None
          | [] => None
          end
      | None => None
      end
  end

with parse_members (fuel : nat) (s : js_string)
  : option (list (js_string * json) * js_string) :=
  match fuel with
  | O => None
  | S fuel' =>
      match s with
      | c :: r =>
          if N.eqb c unit_quote then
            match parse_chars r with
            | Some (k, r1) =>
                match skip_ws r1 with
                | c1 :: r2 =>
                    if N.eqb c1 58 then
                      match parse_value fuel' (skip_ws r2) with
                      | Some (v, r3) =>
                          match skip_ws r3 with
                          | c3 :: r4 =>
                              if N.eqb c3 44 then
                                match parse_members fuel' (skip_ws r4) with
                                | Some (ms, rest) => Some ((k, v) :: ms, rest)
                                | None => None
                                end
                              else if N.eqb c3 125 then Some ([(k, v)], r4)
                              else None
                          | [] => None
                          end
                      | None => None
                      end
                    else None
                | [] => None
                end
            | None => None
            end
          else None
      | [] => None
      end
  end.

(** [JSON.parse(text)]; [None] when it throws a [SyntaxError]. *)
Definition JSON_parse (text : js_string) : option json :=
  let s := skip_ws text in
  match parse_value (S (List.length s)) s with
  | Some (v, rest) =>
      match skip_ws rest with
      | [] => Some v
      | _ :: _ => None
      end
  | None => None
  end.

(* ------------------------------------------------------------------ *)
(** *** [JSON.stringify(value, null, space)] on the values above *)

Definition hex_digit (n : N) : code_unit :=
  if (n <? 10)%N then (48 + n)%N else (87 + n)%N.

(** [UnicodeEscape]: a backslash, [u] and four lower-case hexadecimal digits. *)
Definition unicode_escape (c : code_unit) : js_string :=
  [unit_backslash; 117%N;
   hex_digit (N.shiftr c 12 mod 16); hex_digit (N.shiftr c 8 mod 16);
   hex_digit (N.shiftr c 4 mod 16); hex_digit (c mod 16)]%N.

Definition is_high_surrogate (c : code_unit) : bool := ((55296 <=? c) && (c <=? 56319))%N.
Definition is_low_surrogate (c : code_unit) : bool := ((56320 <=? c) && (c <=? 57343))%N.

(** The two-character escapes of [QuoteJSONString]. *)
Definition short_escape (c : code_unit) : option code_unit :=
  if N.eqb c 8 then Some 98%N
  else if N.eqb c 9 then Some 116%N
  else if N.eqb c 10 then Some 110%N
  else if N.eqb c 12 then Some 102%N
  else if N.eqb c 13 then Some 114%N
  else if N.eqb c 34 then Some 34%N
  else if N.eqb c 92 then Some 92%N
  else None.

Fixpoint quote_chars (s : js_string) : js_string :=
  match s with
  | [] => []
  | c :: r =>
      match short_escape c with
      | Some x => unit_backslash :: x :: quote_chars r
      | None =>
          if (c <? 32)%N then unicode_escape c ++ quote_chars r
          else if is_high_surrogate c then
            match r with
            | c2 :: r' =>
                if is_low_surrogate c2 then c :: c2 :: quote_chars r'
                else unicode_escape c ++ quote_chars r
            | [] => unicode_escape c
            end
          else if is_low_surrogate c then unicode_escape c ++ quote_chars r
          else c :: quote_chars r
      end
  end.

Definition QuoteJSONString (s : js_string) : js_string :=
  unit_quote :: quote_chars s ++ [unit_quote].

Fixpoint join (sep : js_string) (parts : list js_string) : js_string :=
  match parts with
  | [] => []
  | [p] => p
  | p :: rest => p ++ sep ++ join sep rest
  end.

(** The text of an array or an object from the texts of its members:
    [stepback] is the indentation around it, [gap] what a level adds. *)
Definition enclose (opening closing : code_unit) (gap stepback : js_string)
    (partial : list js_string) : js_string :=
  match partial with
  | [] => [opening; closing]
  | _ :: _ =>
      match gap with
      | [] => [opening] ++ join [44%N] partial ++ [closing]
      | _ :: _ =>
          let indent := stepback ++ gap in
          [opening] ++ [LF] ++ indent ++ join ([44%N; LF] ++ indent) partial
            ++ [LF] ++ stepback ++ [closing]
      end
  end.

Fixpoint serialize (gap indent : js_string) (v : json) : js_string :=
  match v with
  | JNull => lit "null"
  | JBool true => lit "true"
  | JBool false => lit "false"
  | JNumber x =>
      match x with
      | NaN | Infinity _ => lit "null"
      | _ => NumberToString x
      end
  | JString s => QuoteJSONString s
  | JArray items =>
      enclose 91%N 93%N gap indent (map (serialize gap (indent ++ gap)) items)
  | JObject props =>
      enclose 123%N 125%N gap indent
        (map (fun kv =>
                QuoteJSONString (fst kv) ++ [58%N]
                  ++ match gap with [] => [] | _ :: _ => [32%N] end
                  ++ serialize gap (indent ++ gap) (snd kv))
             props)
  end.

(** [JSON.stringify(v, null, space)] for a number of spaces up to ten. *)
Definition JSON_stringify (v : json) (space : nat) : js_string :=
  serialize (repeat 32%N (Nat.min space 10)) [] v.

(* ------------------------------------------------------------------ *)
(** *** The colour helpers of [@std/fmt/colors]

    Each maps a text to a decorated text; which decoration is the host's
    choice ([NO_COLOR] turns it off), so the renderer takes them as an
    interface. *)

Record Colors := {
  gray : js_string -> js_string;
  blue : js_string -> js_string;
  green : js_string -> js_string;
  yellow : js_string -> js_string;
  red : js_string -> js_string;
  magenta : js_string -> js_string;
  cyan : js_string -> js_string;
  white : js_string -> js_string
}.

(** Colours turned off: every helper returns its argument. *)
Definition no_color : Colors :=
  {| gray := fun s => s; blue := fun s => s; green := fun s => s;
     yellow := fun s => s; red := fun s => s; magenta := fun s => s;
     cyan := fun s => s; white := fun s => s |}.

Fixpoint replace_all (fuel : nat) (pat by_ s : js_string) : js_string :=
  match fuel with
  | O => s
  | S fuel' =>
      match s with
      | [] => []
      | c :: r =>
          match strip_prefix pat s with
          | Some rest => by_ ++ replace_all fuel' pat by_ rest
          | None => c :: replace_all fuel' pat by_ r
          end
      end
  end.

Definition escape_code (n : Z) : js_string :=
  [27%N; 91%N] ++ digit_text (digits n) ++ [109%N].

(** Colours turned on: the text between the escape sequence of the colour
    and the one that resets the foreground, an inner reset re-opening the
    colour. *)
Definition paint (code : Z) (s : js_string) : js_string :=
  escape_code code
    ++ replace_all (List.length s) (escape_code 39) (escape_code code) s
    ++ escape_code 39.

Definition ansi_color : Colors :=
  {| gray := paint 90; blue := paint 34; green := paint 32; yellow := paint 33;
     red := paint 31; magenta := paint 35; cyan := paint 36; white := paint 37 |}.

(* ------------------------------------------------------------------ *)
(** *** Values that JSON text keeps

    The property list of an object a program can hold is in the order of
    its own keys: no key twice, and no key before which a later one would
    have been created. *)
Fixpoint ordered_keys (keys : list js_string) : bool :=
  match keys with
  | [] => true
  | k :: rest =>
      forallb (fun k' => negb (str_eqb k' k) && negb (key_before k' k)) rest
      && ordered_keys rest
  end.

(** A Number whose text reads back as itself: finite, and not the
    negative zero, which is written as [0]. *)
Definition kept_number (x : number) : bool :=
  match x with
  | Zero false => true
  | Finite _ m e => canonical m e
  | _ => false
  end.

Fixpoint json_stable (v : json) : bool :=
  match v with
  | JNull | JBool _ | JString _ => true
  | JNumber x => kept_number x
  | JArray items => forallb json_stable items
  | JObject props =>
      ordered_keys (map fst props) && forallb (fun kv => json_stable (snd kv)) props
  end.

End JS.

(* ================================================================== *)
(** ** [src/cli/pretty-print.ts] *)
(* ================================================================== *)

Module PrettyPrint.
Import JS.

(** [typeof v]; [None] is [undefined]. *)
Definition typeof (v : option json) : js_string :=
  match v with
  | None => lit "undefined"
  | Some JNull => lit "object"
  | Some (JBool _) => lit "boolean"
  | Some (JNumber _) => lit "number"
  | Some (JString _) => lit "string"
  | Some (JArray _) => lit "object"
  | Some (JObject _) => lit "object"
  end.

Definition is_null (v : option json) : bool :=
  match v with Some JNull => true | _ => false end.

(** [name in obj] and [obj.name] for the five names the source asks for.
    None of them is a property of [Object.prototype] or [Array.prototype]
    or an index or the length of an array, so on a value [JSON.parse]
    returned both reduce to the own properties of a plain object. *)
Definition has_property (name : js_string) (obj : json) : bool :=
  match obj with
  | JObject props => match own_property name props with Some _ => true | None => false end
  | _ => false
  end.

Definition get (obj : json) (name : js_string) : option json :=
  match obj with
  | JObject props => own_property name props
  | _ => None
  end.

Definition isLogObject (obj : json) : bool :=
  str_eqb (typeof (Some obj)) (lit "object") &&
  negb (is_null (Some obj)) &&
  has_property (lit "level") obj &&
  has_property (lit "level_n") obj &&
  has_property (lit "namespace") obj &&
  has_property (lit "message") obj &&
  has_property (lit "context") obj &&
  str_eqb (typeof (get obj (lit "level"))) (lit "string") &&
  str_eqb (typeof (get obj (lit "level_n"))) (lit "number") &&
  str_eqb (typeof (get obj (lit "namespace"))) (lit "string") &&
  str_eqb (typeof (get obj (lit "message"))) (lit "string") &&
  (str_eqb (typeof (get obj (lit "context"))) (lit "object") &&
   negb (is_null (get obj (lit "context")))).

(** A property that [isLogObject] found to be a string, as that string. *)
Definition string_of (v : option json) : js_string :=
  match v with Some (JString s) => s | _ => [] end.

(** The property [context] that [isLogObject] found to be an object. *)
Definition object_of (v : option json) : json :=
  match v with Some o => o | None => JNull end.

(** The six tags of the [switch]. *)
Definition tags : list (js_string * js_string) :=
  [ (lit "trace", lit "TRACE > "); (lit "debug", lit "DEBUG > ");
    (lit "info",  lit " INFO > "); (lit "warn",  lit " WARN > ");
    (lit "error", lit "ERROR > "); (lit "fatal", lit "FATAL > ") ].

Section Renderer.
Variable colors : Colors.

(** The [switch (json.level)]: what it appends to [message]. *)
Definition level_tag (level : js_string) : js_string :=
  if str_eqb level (lit "trace") then gray colors (lit "TRACE > ")
  else if str_eqb level (lit "debug") then blue colors (lit "DEBUG > ")
  else if str_eqb level (lit "info") then green colors (lit " INFO > ")
  else if str_eqb level (lit "warn") then yellow colors (lit " WARN > ")
  else if str_eqb level (lit "error") then red colors (lit "ERROR > ")
  else if str_eqb level (lit "fatal") then magenta colors (lit "FATAL > ")
  else [].

(** [prettyPrintLogObject(line)]: the text it hands to [console.log].
    The [catch] receives both the [SyntaxError] of [JSON.parse] and the
    [Error] thrown when [isLogObject] fails. *)
Definition prettyPrintLogObject (line : js_string) : js_string :=
  match JSON_parse line with
  | Some json =>
      if isLogObject json then
        let message := [] in
        let message := message ++ level_tag (string_of (get json (lit "level"))) in
        let message := message ++ lit "[" ++ cyan colors (string_of (get json (lit "namespace")))
                         ++ lit "] " ++ white colors (string_of (get json (lit "message"))) in
        let message := message ++ [LF] in
        let message := message ++ gray colors (JSON_stringify (object_of (get json (lit "context"))) 2) in
        message
      else gray colors line
  | None => gray colors line
  end.
End Renderer.

(** The read loop of [main], over the chunks the reader yields until the
    end of the stream; [decode] is the decoder and [handle] what is done
    with each line.  The state is [partial] and what was handled so far. *)
Section ReadLoop.
Variables (chunk out : Type).
Variable decode : chunk -> js_string.
Variable handle : js_string -> out.

Record loop_state := { partial : js_string; handled : list out }.

Definition main_step (st : loop_state) (c : chunk) : loop_state :=
  let text := decode c in
  let partial0 := partial st ++ text in
  let lines := split LF partial0 in
  let (last, lines') := pop lines in
  {| partial := nullish last [];
     handled := fold_left (fun done line => done ++ [handle line]) lines' (handled st) |}.

Definition main_loop (chunks : list chunk) : loop_state :=
  fold_left main_step chunks {| partial := []; handled := [] |}.
End ReadLoop.

(** [main] on the bytes of standard input: what [console.log] receives. *)
Definition main (colors : Colors) (chunks : list (list byte)) : list js_string :=
  handled (main_loop TextDecoder_decode (prettyPrintLogObject colors) chunks).

(** The lines [main] passes to [prettyPrintLogObject], in order. *)
Definition main_lines (chunks : list (list byte)) : list js_string :=
  handled (main_loop TextDecoder_decode (fun line => line) chunks).

(* ------------------------------------------------------------------ *)
(** *** The specification's words, for comparison *)

(** The line assembler as section 4.4 of the specification tells it: one
    pending buffer; each chunk is decoded and appended, the buffer is
    split on the line feed, all pieces but the last are emitted and the
    last is the new buffer; at the end of the stream the buffer is
    dropped. *)
Section AssemblerSpec.
Variable chunk : Type.
Variable decode : chunk -> js_string.

Definition assembler_step (buffer : js_string) (c : chunk)
  : list js_string * js_string :=
  let pieces := split LF (buffer ++ decode c) in
  (removelast pieces, last pieces []).

Fixpoint assemble (buffer : js_string) (chunks : list chunk) : list js_string :=
  match chunks with
  | [] => []
  | c :: rest =>
      let (emitted, buffer') := assembler_step buffer c in
      emitted ++ assemble buffer' rest
  end.
End AssemblerSpec.

(** The shape of a log record as section 4.5 tells it: the five fields
    present, [level], [namespace] and [message] strings, [level_n] a
    number, [context] an object (in the sense of [typeof]: a plain object
    or an array). *)
Definition is_object (v : json) : Prop :=
  match v with JObject _ | JArray _ => True | _ => False end.

Definition LogRecord_shape (v : json) : Prop :=
  exists props l n ns m c,
    v = JObject props /\
    own_property (lit "level") props = Some (JString l) /\
    own_property (lit "level_n") props = Some (JNumber n) /\
    own_property (lit "namespace") props = Some (JString ns) /\
    own_property (lit "message") props = Some (JString m) /\
    own_property (lit "context") props = Some c /\ is_object c.

(** The colour the [switch] gives the tag of each level. *)
Definition tag_color (colors : Colors) (level : js_string) : js_string -> js_string :=
  if str_eqb level (lit "trace") then gray colors
  else if str_eqb level (lit "debug") then blue colors
  else if str_eqb level (lit "info") then green colors
  else if str_eqb level (lit "warn") then yellow colors
  else if str_eqb level (lit "error") then red colors
  else magenta colors.

Definition starts_with (prefix s : js_string) : Prop :=
  exists rest, s = prefix ++ rest.

End PrettyPrint.

(* ================================================================== *)
(** ** The logger of [mod.ts] *)
(* ================================================================== *)

Module Logger.
Import JS.

(** Modelled from the spec: [mod.ts] is not among the sources (only
    [src/mod_test.ts], which imports [Logger] from it, and the scripts
    that import [LOG_LEVELS]).  The severities and their ranks are those
    of section 3 of the specification; the tests fix the numbers
    ([level_n] is 0 for trace up to 5 for fatal). *)
Inductive LogLevel := trace | debug | info | warn | error | fatal.

(** Modelled from the spec: the list [LOG_LEVELS] that the scripts import
    from [mod.ts], in ascending order of rank. *)
Definition LOG_LEVELS : list LogLevel := [trace; debug; info; warn; error; fatal].

(** Modelled from the spec: the name of each severity, as the tests read
    it in the field [level]. *)
Definition level_name (l : LogLevel) : js_string :=
  match l with
  | trace => lit "trace" | debug => lit "debug" | info => lit "info"
  | warn => lit "warn" | error => lit "error" | fatal => lit "fatal"
  end.

(** Modelled from the spec: the rank of each severity (section 3), the
    number the tests read in [level_n]. *)
Definition rank (l : LogLevel) : Z :=
  match l with
  | trace => 0 | debug => 1 | info => 2 | warn => 3 | error => 4 | fatal => 5
  end.

(** Modelled from the spec: the level a configured name spells, if it is
    one of the six (section 4.1: a configured minimum may be a string that
    is no severity). *)
Definition level_of_name (name : js_string) : option LogLevel :=
  find (fun l => str_eqb name (level_name l)) LOG_LEVELS.

(** Modelled from the spec: the rank of a configured minimum, one that is
    no severity ranking below the lowest rank (section 4.1). *)
Definition configured_rank (name : js_string) : Z :=
  match level_of_name name with
  | Some l => rank l
  | None => -1
  end.

(** Modelled from the spec: [isEnabled(configuredMin, level)] of section
    4.1, true iff the rank of [level] is at least that of the minimum. *)
Definition isEnabled (configuredMin : js_string) (level : LogLevel) : bool :=
  (configured_rank configuredMin <=? rank level)%Z.

(* ------------------------------------------------------------------ *)
(** *** Context values *)

(** Modelled from the spec: the kinds of fixed-width array of rule 2 of
    section 4.2, the eleven the tests build. *)
Inductive typed_array_kind :=
| Int8Array | Uint8Array | Uint8ClampedArray | Int16Array | Uint16Array
| Int32Array | Uint32Array | Float32Array | Float64Array
| BigInt64Array | BigUint64Array.

(** Modelled from the spec: the type name rule 2 writes. *)
Definition typed_array_name (k : typed_array_kind) : js_string :=
  match k with
  | Int8Array => lit "Int8Array" | Uint8Array => lit "Uint8Array"
  | Uint8ClampedArray => lit "Uint8ClampedArray"
  | Int16Array => lit "Int16Array" | Uint16Array => lit "Uint16Array"
  | Int32Array => lit "Int32Array" | Uint32Array => lit "Uint32Array"
  | Float32Array => lit "Float32Array" | Float64Array => lit "Float64Array"
  | BigInt64Array => lit "BigInt64Array" | BigUint64Array => lit "BigUint64Array"
  end.


(** Modelled from the spec: the kinds of value a context may hold, one
    constructor for each kind section 4.2 names (section 9 asks for such a
    sum type).  A typed array is its kind and its elements, each element
    as the integer its bits spell; a date is its ISO-8601 text; a function
    is its name (empty when it has none), the parameter list found in its
    text, if any, and that text. *)
Inductive value :=
| VNull
| VBool (b : bool)
| VNumber (x : number)
| VString (s : js_string)
| VArray (items : list value)
| VObject (props : list (js_string * value))
| VError (message name stack : js_string)
| VTypedArray (kind : typed_array_kind) (elements : list Z)
| VArrayBuffer (shared : bool) (byteLength : nat)
| VDate (iso : js_string)
| VRegExp (source flags : js_string)
| VMap (entries : list (js_string * value))
| VSet (elements : list value)
| VWeakMap
| VWeakSet
| VPromise
| VDataView
| VFunction (name : js_string) (params : option js_string) (source : js_string)
| VBigInt (repr : option js_string)
| VSymbol (repr : option js_string).


(** The decimal numeral of a count. *)
Definition decimal_text (n : nat) : js_string := digit_text (digits (Z.of_nat n)).

(** Modelled from the spec: rule 11 of section 4.2, the signature of a
    callable: its name and parameter list when it has a name, else the
    parameter list found in its text, else that text cut to fifty
    characters, the last three an ellipsis. *)
Definition function_signature (name : js_string) (params : option js_string)
    (source : js_string) : js_string :=
  match name, params with
  | _ :: _, Some ps => name ++ lit "(" ++ ps ++ lit ")"
  | _ :: _, None => name ++ lit "()"
  | [], Some ps => lit "(" ++ ps ++ lit ")"
  | [], None =>
      if (List.length source <=? 50)%nat then source
      else firstn 47 source ++ lit "..."
  end.

Section Indexed.
Variables (A B : Type) (f : js_string -> A -> B).
(** [f] over the elements of an array, each with its index as key. *)
Fixpoint map_indexed (i : nat) (l : list A) : list B :=
  match l with
  | [] => []
  | x :: l' => f (decimal_text i) x :: map_indexed (S i) l'
  end.
End Indexed.

(** Modelled from the spec: the default normalizer of section 4.2, its
    thirteen rules in their order, with the serializer's walk: a container
    (rules 6, 7 and 13) has each of its fields normalized under that
    field's key. *)
Fixpoint defaultJsonValueSerializer (key : js_string) (v : value) : json :=
  match v with
  | VError message name stack =>
      JObject [ (lit "message", JString message); (lit "name", JString name);
                (lit "stack", JString stack) ]
  | VTypedArray kind elements =>
      JString (typed_array_name kind ++ lit "(" ++ decimal_text (List.length elements) ++ lit ")")
  | VArrayBuffer _ _ => JString (lit "ArrayBuffer")
  | VDate iso => JString iso
  | VRegExp source flags => JString (lit "/" ++ source ++ lit "/" ++ flags)
  | VMap entries =>
      JObject (object_of_entries
                 (map (fun kv => (fst kv, defaultJsonValueSerializer (fst kv) (snd kv))) entries))
  | VSet elements => JArray (map_indexed defaultJsonValueSerializer 0 elements)
  | VWeakMap => JString (lit "WeakMap")
  | VWeakSet => JString (lit "WeakSet")
  | VPromise => JString (lit "Promise")
  | VDataView => JString (lit "DataView")
  | VFunction name params source => JString (function_signature name params source)
  | VBigInt (Some t) => JString t
  | VBigInt None => JString (lit "bigint(cannot stringify)")
  | VSymbol (Some t) => JString t
  | VSymbol None => JString (lit "symbol(cannot stringify)")
  | VNull => JNull
  | VBool b => JBool b
  | VNumber x => JNumber x
  | VString s => JString s
  | VArray items => JArray (map_indexed defaultJsonValueSerializer 0 items)
  | VObject props =>
      JObject (map (fun kv => (fst kv, defaultJsonValueSerializer (fst kv) (snd kv))) props)
  end.


(* ------------------------------------------------------------------ *)
(** *** The emitter *)

(** Modelled from the spec: the signature of the normalizer in section
    4.2, [normalize(key, value) -> JSONValue]. *)
Definition Serializer := js_string -> value -> json.

(** Modelled from the spec: the [LogRecord] of section 3; the tests name
    its type [LogObject]. *)
Record LogObject := {
  level : LogLevel;
  level_n : Z;
  timestamp : option js_string;
  namespace : js_string;
  message : js_string;
  context : list (js_string * value)
}.

(** Modelled from the spec: the configuration of sections 3 and 6, under
    the names the tests give its fields.  [minLogLevel] is the configured
    string, which need not be a severity; both functions are total, as
    section 6 has them. *)
Record LoggerConfiguration := {
  minLogLevel : js_string;
  includeTimestamp : bool;
  formatLog : LogObject -> Serializer -> js_string;
  jsonValueSerializer : Serializer
}.

(** The Number of an integer. *)
Definition number_of_Z (z : Z) : number :=
  round_Q (z <? 0)%Z (Qmake (Z.abs z) 1).

(** Modelled from the spec: the fields of a record in the order of the
    wire format (section 6); [timestamp] is left out, not null, when the
    record has none. *)
Definition fields (l : LogObject) : list (js_string * value) :=
  [ (lit "level", VString (level_name (level l)));
    (lit "level_n", VNumber (number_of_Z (level_n l))) ]
  ++ match timestamp l with
     | Some t => [ (lit "timestamp", VString t) ]
     | None => []
     end
  ++ [ (lit "namespace", VString (namespace l));
       (lit "message", VString (message l));
       (lit "context", VObject (context l)) ].

(** Modelled from the spec: the default formatter of section 4.3, the
    single-line JSON encoding of the record with the normalizer applied to
    every field. *)
Definition defaultFormatLog (l : LogObject) (serializer : Serializer) : js_string :=
  JSON_stringify
    (JObject (map (fun kv => (fst kv, serializer (fst kv) (snd kv))) (fields l))) 0.

(** Modelled from the spec: the defaults of section 6. *)
Definition defaultConfiguration : LoggerConfiguration :=
  {| minLogLevel := lit "trace";
     includeTimestamp := true;
     formatLog := defaultFormatLog;
     jsonValueSerializer := defaultJsonValueSerializer |}.

(** Modelled from the spec: what [new Logger(options)] is given in the
    tests, any part of the configuration. *)
Record LoggerOptions := {
  opt_minLogLevel : option js_string;
  opt_includeTimestamp : option bool;
  opt_formatLog : option (LogObject -> Serializer -> js_string);
  opt_jsonValueSerializer : option Serializer
}.

(** Modelled from the spec: the construction of an emitter; every
    configuration is accepted, a missing part taking its default. *)
Definition new_Logger (o : LoggerOptions) : LoggerConfiguration :=
  {| minLogLevel := nullish (opt_minLogLevel o) (minLogLevel defaultConfiguration);
     includeTimestamp := nullish (opt_includeTimestamp o) (includeTimestamp defaultConfiguration);
     formatLog := nullish (opt_formatLog o) (formatLog defaultConfiguration);
     jsonValueSerializer :=
       nullish (opt_jsonValueSerializer o) (jsonValueSerializer defaultConfiguration) |}.

(** Modelled from the spec: the four steps of an emit call (section 4.3).
    [now] is the reading of the clock, [console] the lines written so far. *)
Definition emit (cfg : LoggerConfiguration) (lvl : LogLevel)
    (ns msg : js_string) (ctx : list (js_string * value))
    (now : js_string) (console : list js_string) : list js_string :=
  if isEnabled (minLogLevel cfg) lvl then
    let record :=
      {| level := lvl;
         level_n := rank lvl;
         timestamp := if includeTimestamp cfg then Some now else None;
         namespace := ns;
         message := msg;
         context := ctx |} in
    let line := formatLog cfg record (jsonValueSerializer cfg) in
    console ++ [line]
  else console.

End Logger.

(* ================================================================== *)
(** ** The logger, from its source

    The text of the logger stands in [src/scripts/generate-release.ts],
    after the release script (lines 392 to 721): [LOG_LEVELS],
    [hastoString], [stringifyFunction] and the class [Logger].  This
    module embeds that text; the module [Logger] above follows the
    specification. *)
(* ================================================================== *)

Module Mod.
Import JS.

(** [LOG_LEVELS], an array of strings. *)
Definition LOG_LEVELS : list js_string :=
  [lit "trace"; lit "debug"; lit "info"; lit "warn"; lit "error"; lit "fatal"].

(* ------------------------------------------------------------------ *)
(** *** Arrays of strings *)

(** [a.indexOf(x)]: the first index at which [x] stands, [-1] if none. *)
Fixpoint indexOf_from (i : Z) (a : list js_string) (x : js_string) : Z :=
  match a with
  | [] => (-1)%Z
  | y :: a' => if str_eqb y x then i else indexOf_from (i + 1)%Z a' x
  end.

Definition indexOf (a : list js_string) (x : js_string) : Z := indexOf_from 0 a x.

(** [a.includes(x)] *)
Definition includes (a : list js_string) (x : js_string) : bool :=
  existsb (fun y => str_eqb y x) a.

(** [a.filter((_, i) => keep(i))] *)
Fixpoint filter_index {A : Type} (keep : Z -> bool) (i : Z) (a : list A) : list A :=
  match a with
  | [] => []
  | x :: a' =>
      if keep i then x :: filter_index keep (i + 1)%Z a'
      else filter_index keep (i + 1)%Z a'
  end.

(* ------------------------------------------------------------------ *)
(** *** Outcomes

    A call returns a value or throws; [OutOfFuel] is the model's own: the
    traversal of [JSON.stringify] is bounded by a fuel, and the theorems
    are stated for every fuel that is large enough. *)

Inductive completion (A : Type) :=
| Returns (a : A)
| Throws
| OutOfFuel.

Arguments Returns {A} a.
Arguments Throws {A}.
Arguments OutOfFuel {A}.

(* ------------------------------------------------------------------ *)
(** *** [stringifyFunction]

    The two patterns are matched without the [g] flag: the match is the
    leftmost one.  In both, each starred item is followed by a character
    it cannot match, so the longest run is the only one to try. *)

(** The white space class of a regular expression. *)
Definition is_regex_space (c : code_unit) : bool :=
  ((9 <=? c) && (c <=? 13))%N || N.eqb c 32 || N.eqb c 160 || N.eqb c 5760
  || ((8192 <=? c) && (c <=? 8202))%N || N.eqb c 8232 || N.eqb c 8233
  || N.eqb c 8239 || N.eqb c 8287 || N.eqb c 12288 || N.eqb c 65279.

Fixpoint skip_regex_space (s : js_string) : js_string :=
  match s with
  | c :: r => if is_regex_space c then skip_regex_space r else s
  | [] => []
  end.

(** The longest run of code units other than a closing parenthesis at
    the head of [s], and what follows it. *)
Fixpoint up_to_paren (s : js_string) : js_string * js_string :=
  match s with
  | c :: r =>
      if N.eqb c 41 then ([], s)
      else let (run, rest) := up_to_paren r in (c :: run, rest)
  | [] => ([], [])
  end.

(** The first pattern at the head of [s]: the word function, any white
    space, an opening parenthesis, the group (a run with no closing
    parenthesis) and a closing parenthesis. *)
Definition function_pattern (s : js_string) : option js_string :=
  match strip_prefix (lit "function") s with
  | Some r =>
      match skip_regex_space r with
      | 40%N :: r' =>
          match up_to_paren r' with
          | (group, 41%N :: _) => Some group
          | _ => None
          end
      | _ => None
      end
  | None => None
  end.

(** The second pattern at the head of [s]: an opening parenthesis, the
    group, a closing parenthesis, any white space and the arrow. *)
Definition arrow_pattern (s : js_string) : option js_string :=
  match s with
  | 40%N :: r =>
      match up_to_paren r with
      | (group, 41%N :: r') =>
          match skip_regex_space r' with
          | 61%N :: 62%N :: _ => Some group
          | _ => None
          end
      | _ => None
      end
  | _ => None
  end.

Section Match.
Variable pattern : js_string -> option js_string.

(** [s.match(pattern)]: the group of the leftmost match, [None] for [null]. *)
Fixpoint regex_match (s : js_string) : option js_string :=
  match pattern s with
  | Some group => Some group
  | None =>
      match s with
      | [] => None
      | _ :: r => regex_match r
      end
  end.
End Match.

(** [stringifyFunction(value)], on the two things it reads of a function:
    [value.name] and [value.toString()].  Where the text of a named
    function has no opening parenthesis, [split] yields one piece, index 1
    is [undefined] and the call of [split] on it throws a [TypeError]. *)
Definition stringifyFunction (name fnString : js_string) : completion js_string :=
  match name with
  | _ :: _ =>
      match nth_error (split 40%N fnString) 1 with
      | Some piece => Returns (name ++ lit "(" ++ hd [] (split 41%N piece) ++ lit ")")
      | None => Throws
      end
  | [] =>
      match regex_match function_pattern fnString with
      | Some group => Returns (lit "function(" ++ group ++ lit ")")
      | None =>
          match regex_match arrow_pattern fnString with
          | Some group => Returns (lit "(" ++ group ++ lit ") =>")
          | None =>
              Returns (if (50 <? List.length fnString)%nat
                       then firstn 47 fnString ++ lit "..."
                       else fnString)
          end
      end
  end.

(* ------------------------------------------------------------------ *)
(** *** The values a context may hold

    One constructor for each kind of value the serializer tells apart,
    each standing for a standard object of its class with no property
    added to it: an error is what its three properties read; a typed
    array is its kind and its elements; a date is its ISO text, [None]
    when its time is invalid; a map is its entries, each key as the
    property key [Object.fromEntries] makes of it; a function is its name
    and its text.  Functions are text only, so a plain object stands for
    one with no [toJSON] method. *)

Inductive value :=
| VUndefined
| VNull
| VBool (b : bool)
| VNumber (x : number)
| VString (s : js_string)
| VBigInt (z : Z)
| VSymbol (description : option js_string)
| VArray (items : list value)
| VObject (props : list (js_string * value))
| VError (message name stack : value)
| VTypedArray (kind : Logger.typed_array_kind) (elements : list value)
| VArrayBuffer
| VSharedArrayBuffer
| VDate (iso : option js_string)
| VRegExp (source flags : js_string)
| VMap (entries : list (js_string * value))
| VSet (elements : list value)
| VWeakMap
| VWeakSet
| VPromise
| VDataView
| VFunction (name fnString : js_string).

(** [typeof v] *)
Definition typeof (v : value) : js_string :=
  match v with
  | VUndefined => lit "undefined"
  | VBool _ => lit "boolean"
  | VNumber _ => lit "number"
  | VString _ => lit "string"
  | VBigInt _ => lit "bigint"
  | VSymbol _ => lit "symbol"
  | VFunction _ _ => lit "function"
  | _ => lit "object"
  end.

(** [hastoString(value)]: is the property [toString] of the value truthy?
    Every value but [undefined] and [null], on which the read throws and
    of which the source never asks, inherits one from its prototype. *)
Definition hastoString (v : value) : bool :=
  match v with
  | VUndefined | VNull => false
  | _ => true
  end.

(** [v.toString()] on a BigInt and on a symbol. *)
Definition bigint_toString (z : Z) : js_string :=
  (if (z <? 0)%Z then [unit_minus] else []) ++ digit_text (digits (Z.abs z)).

Definition symbol_toString (description : option js_string) : js_string :=
  lit "Symbol(" ++ nullish description [] ++ lit ")".

(** [CreateDataProperty] on a property list of any values, as
    [define_property] has it for parsed ones. *)
Fixpoint CreateDataProperty {A : Type} (k : js_string) (v : A)
    (props : list (js_string * A)) : list (js_string * A) :=
  match props with
  | [] => [(k, v)]
  | (k', v') :: rest =>
      if str_eqb k k' then (k, v) :: rest
      else if key_before k k' then (k, v) :: props
      else (k', v') :: CreateDataProperty k v rest
  end.

(** [Object.fromEntries(entries)] *)
Definition fromEntries {A : Type} (entries : list (js_string * A)) : list (js_string * A) :=
  fold_left (fun o kv => CreateDataProperty (fst kv) (snd kv) o) entries [].

(** [Logger.defaultJsonValueSerializer(_k, v)], the tests in their
    order. *)
Definition defaultJsonValueSerializer (_k : js_string) (v : value) : completion value :=
  match v with
  | VError message name stack =>
      Returns (VObject [ (lit "message", message); (lit "name", name); (lit "stack", stack) ])
  | VTypedArray kind elements =>
      Returns (VString (Logger.typed_array_name kind ++ lit "("
                          ++ Logger.decimal_text (List.length elements) ++ lit ")"))
  | VArrayBuffer | VSharedArrayBuffer => Returns (VString (lit "ArrayBuffer"))
  | VDate iso =>
      match iso with
      | Some t => Returns (VString t)
      | None => Throws
      end
  | VRegExp source flags => Returns (VString (lit "/" ++ source ++ lit "/" ++ flags))
  | VMap entries => Returns (VObject (fromEntries entries))
  | VSet elements => Returns (VArray elements)
  | VWeakMap => Returns (VString (lit "WeakMap"))
  | VWeakSet => Returns (VString (lit "WeakSet"))
  | VPromise => Returns (VString (lit "Promise"))
  | VDataView => Returns (VString (lit "DataView"))
  | VFunction name fnString =>
      match stringifyFunction name fnString with
      | Returns s => Returns (VString s)
      | Throws => Throws
      | OutOfFuel => OutOfFuel
      end
  | _ =>
      if includes [lit "bigint"; lit "symbol"] (typeof v) then
        if hastoString v then
          match v with
          | VBigInt z => Returns (VString (bigint_toString z))
          | VSymbol description => Returns (VString (symbol_toString description))
          | _ => Returns v
          end
        else Returns (VString (typeof v ++ lit "(cannot stringify)"))
      else Returns v
  end.

(* ------------------------------------------------------------------ *)
(** *** [JSON.stringify(value, replacer)]

    [SerializeJSONProperty] with a replacer function and no indentation:
    the value first answers [toJSON] if it has one, then goes through the
    replacer; what the replacer returns is written, its members going
    through the same steps.  The result is the JSON value whose text is
    written, [None] where nothing is ([undefined]). *)

Definition Serializer := js_string -> value -> completion value.

(** The call of [toJSON]: of the values above only a date has one, which
    gives the ISO text, or [null] when the time is invalid. *)
Definition toJSON (v : value) : value :=
  match v with
  | VDate (Some t) => VString t
  | VDate None => VNull
  | _ => v
  end.

(** The elements of an array with their indices as keys. *)
Fixpoint indexed {A : Type} (i : nat) (l : list A) : list (js_string * A) :=
  match l with
  | [] => []
  | x :: l' => (Logger.decimal_text i, x) :: indexed (S i) l'
  end.

(** The members of an object from the outcomes of its properties, in
    order: one that is [undefined] is left out. *)
Fixpoint collect_members (l : list (js_string * completion (option json)))
  : completion (list (js_string * json)) :=
  match l with
  | [] => Returns []
  | (k, Returns r) :: l' =>
      match collect_members l' with
      | Returns ms => Returns (match r with Some j => (k, j) :: ms | None => ms end)
      | Throws => Throws
      | OutOfFuel => OutOfFuel
      end
  | (_, Throws) :: _ => Throws
  | (_, OutOfFuel) :: _ => OutOfFuel
  end.

(** The elements of an array: one that is [undefined] is written [null]. *)
Fixpoint collect_elements (l : list (js_string * completion (option json)))
  : completion (list json) :=
  match l with
  | [] => Returns []
  | (_, Returns r) :: l' =>
      match collect_elements l' with
      | Returns js => Returns (nullish r JNull :: js)
      | Throws => Throws
      | OutOfFuel => OutOfFuel
      end
  | (_, Throws) :: _ => Throws
  | (_, OutOfFuel) :: _ => OutOfFuel
  end.

Section Stringify.
Variable replacer : Serializer.

Fixpoint SerializeJSONProperty (fuel : nat) (key : js_string) (v : value)
  : completion (option json) :=
  match fuel with
  | O => OutOfFuel
  | S fuel' =>
      let property := fun kv => (fst kv, SerializeJSONProperty fuel' (fst kv) (snd kv)) in
      match replacer key (toJSON v) with
      | Returns v' =>
          match v' with
          | VNull => Returns (Some JNull)
          | VBool b => Returns (Some (JBool b))
          | VString s => Returns (Some (JString s))
          | VNumber x => Returns (Some (JNumber x))
          | VBigInt _ => Throws
          | VUndefined | VSymbol _ | VFunction _ _ => Returns None
          | VArray items =>
              match collect_elements (map property (indexed 0 items)) with
              | Returns js => Returns (Some (JArray js))
              | Throws => Throws
              | OutOfFuel => OutOfFuel
              end
          | VObject props =>
              match collect_members (map property props) with
              | Returns ms => Returns (Some (JObject ms))
              | Throws => Throws
              | OutOfFuel => OutOfFuel
              end
          | VTypedArray _ elements =>
              match collect_members (map property (indexed 0 elements)) with
              | Returns ms => Returns (Some (JObject ms))
              | Throws => Throws
              | OutOfFuel => OutOfFuel
              end
          | _ => Returns (Some (JObject []))
          end
      | Throws => Throws
      | OutOfFuel => OutOfFuel
      end
  end.

(** [JSON.stringify(value, replacer)]: the text, [None] for [undefined]. *)
Definition JSON_stringify_replacer (fuel : nat) (v : value) : completion (option js_string) :=
  match SerializeJSONProperty fuel [] v with
  | Returns (Some j) => Returns (Some (JSON_stringify j 0))
  | Returns None => Returns None
  | Throws => Throws
  | OutOfFuel => OutOfFuel
  end.
End Stringify.

(* ------------------------------------------------------------------ *)
(** *** The class [Logger] *)

(** [LogObject]. [context] is whatever the caller passed (the methods
    default it to an empty object and take any value), [timestamp] is
    absent or a string. *)
Record LogObject := {
  level : js_string;
  level_n : Z;
  namespace : js_string;
  message : js_string;
  context : value;
  timestamp : option js_string
}.

(** The object [#handleLog] builds: the five properties of the literal in
    their order, then [timestamp], which is assigned afterwards. *)
Definition object_of_LogObject (l : LogObject) : value :=
  VObject
    ([ (lit "level", VString (level l));
       (lit "level_n", VNumber (Logger.number_of_Z (level_n l)));
       (lit "namespace", VString (namespace l));
       (lit "message", VString (message l));
       (lit "context", context l) ]
     ++ match timestamp l with
        | Some t => [ (lit "timestamp", VString t) ]
        | None => []
        end).

(** A formatter returns a string, or [undefined] as [JSON.stringify] may. *)
Definition Formatter := LogObject -> Serializer -> completion (option js_string).

(** [LoggerConfiguration]: every part is optional. *)
Record LoggerConfiguration := {
  minLogLevel : option js_string;
  includeTimestamp : option bool;
  formatLog : option Formatter;
  jsonValueSerializer : option Serializer
}.

(** The private fields of an instance. *)
Record Logger := {
  supportedLogLevels : list js_string;
  this_includeTimestamp : bool;
  this_formatLog : Formatter;
  this_jsonValueSerializer : Serializer
}.

(** A parameter with a default: the default stands for [undefined]. *)
Definition default_param (v d : value) : value :=
  match v with
  | VUndefined => d
  | _ => v
  end.

(** [console.log(x)] of a string or [undefined]: the line it writes. *)
Definition console_log (x : option js_string) (console : list js_string) : list js_string :=
  console ++ [nullish x (lit "undefined")].

Section Class.
(** The bound on the traversal of [JSON.stringify]. *)
Variable fuel : nat.

(** [Logger.defaultFormatLog(l, jsonValueSerializer)] *)
Definition defaultFormatLog : Formatter :=
  fun l jsonValueSerializer =>
    JSON_stringify_replacer jsonValueSerializer fuel (object_of_LogObject l).

(** [new Logger(configuration)] *)
Definition new_Logger (configuration : LoggerConfiguration) : Logger :=
  {| supportedLogLevels :=
       filter_index
         (fun i => (indexOf LOG_LEVELS (nullish (minLogLevel configuration) (lit "trace")) <=? i)%Z)
         0 LOG_LEVELS;
     this_includeTimestamp := nullish (includeTimestamp configuration) true;
     this_formatLog := nullish (formatLog configuration) defaultFormatLog;
     this_jsonValueSerializer :=
       nullish (jsonValueSerializer configuration) defaultJsonValueSerializer |}.

(** [#handleLog(level, namespace, message, context)]; [now] is what
    [(new Date()).toISOString()] reads, [console] the lines written so
    far. *)
Definition handleLog (this : Logger) (level namespace message : js_string)
    (context : value) (now : js_string) (console : list js_string)
  : completion (list js_string) :=
  let context := default_param context (VObject []) in
  if includes (supportedLogLevels this) level then
    let logObject :=
      {| level := level;
         level_n := indexOf LOG_LEVELS level;
         namespace := namespace;
         message := message;
         context := context;
         timestamp := if this_includeTimestamp this then Some now else None |} in
    match this_formatLog this logObject (this_jsonValueSerializer this) with
    | Returns line => Returns (console_log line console)
    | Throws => Throws
    | OutOfFuel => OutOfFuel
    end
  else Returns console.

(** The six methods. *)
Definition trace (this : Logger) (namespace message : js_string) (context : value) :=
  handleLog this (lit "trace") namespace message (default_param context (VObject [])).
Definition debug (this : Logger) (namespace message : js_string) (context : value) :=
  handleLog this (lit "debug") namespace message (default_param context (VObject [])).
Definition info (this : Logger) (namespace message : js_string) (context : value) :=
  handleLog this (lit "info") namespace message (default_param context (VObject [])).
Definition warn (this : Logger) (namespace message : js_string) (context : value) :=
  handleLog this (lit "warn") namespace message (default_param context (VObject [])).
Definition error (this : Logger) (namespace message : js_string) (context : value) :=
  handleLog this (lit "error") namespace message (default_param context (VObject [])).
Definition fatal (this : Logger) (namespace message : js_string) (context : value) :=
  handleLog this (lit "fatal") namespace message (default_param context (VObject [])).
End Class.

(** The configuration [{}], the default of the constructor's parameter. *)
Definition no_configuration : LoggerConfiguration :=
  {| minLogLevel := None; includeTimestamp := None;
     formatLog := None; jsonValueSerializer := None |}.

End Mod.

(* ================================================================== *)
(** ** Statements

    The examples and the predicates the theorems below are stated with. *)
(* ================================================================== *)

Import JS PrettyPrint Logger.
Unset Implicit Arguments.

(** *** Examples *)

(** The three chunks of the example of section 8: [ab], then [c], a line
    feed, [def], a line feed and [g], then [hi] and a line feed. *)
Definition example_chunks : list (list byte) :=
  [ bytes_of "ab";
    bytes_of "c" ++ [x0a] ++ bytes_of "def" ++ [x0a] ++ bytes_of "g";
    bytes_of "hi" ++ [x0a] ].

(** A record at level trace. *)
Definition example_trace_line : js_string :=
  text "{'level':'trace','level_n':0,'namespace':'n','message':'m','context':{}}".

(** A line of some other tool. *)
Definition example_plain_line : js_string := lit "Listening on http://localhost:8000/".

(** A JSON line with every field of a record but [context]. *)
Definition example_no_context_line : js_string :=
  text "{'level':'info','level_n':2,'namespace':'my-app','message':'started'}".

(** Two lines for one record: the second has the fields in another order,
    another [timestamp] and [level_n], and a field of its own. *)
Definition example_line_with_timestamp : js_string :=
  text "{'level':'warn','level_n':3,'timestamp':'2025-01-01T00:00:00.000Z','namespace':'my-app.db','message':'slow query','context':{'ms':1500}}".

Definition example_line_other_fields : js_string :=
  text "{'pid':42,'context':{'ms':1500},'message':'slow query','namespace':'my-app.db','timestamp':'1999-12-31T23:59:59.999Z','level_n':0,'level':'warn'}".




(** *** The renderer *)

(** A line that is no log record: it does not parse as JSON, or what it
    parses to has not the shape of a record. *)
Definition malformed (line : js_string) : Prop :=
  JSON_parse line = None \/
  exists json, JSON_parse line = Some json /\ ~ LogRecord_shape json.

(** *** Texts and what follows them *)

(** What may follow a value in a text: nothing, a comma or a closing
    bracket or brace. *)
Definition follows_value (rest : js_string) : Prop :=
  match rest with
  | [] => True
  | c :: _ => c = 44%N \/ c = 93%N \/ c = 125%N
  end.

(** No digit comes next. *)
Definition no_digit_ahead (rest : js_string) : Prop :=
  match rest with
  | [] => True
  | c :: _ => is_digit c = false
  end.

(** What may follow a number literal: no digit, point or exponent mark. *)
Definition ends_number (rest : js_string) : Prop :=
  match rest with
  | [] => True
  | c :: _ =>
      is_digit c = false /\ N.eqb c unit_dot = false /\
      (N.eqb c 101 || N.eqb c 69) = false
  end.

(** The exponent part [Number::toString] writes. *)
Definition exponent_text (x : Z) : js_string :=
  [unit_e; if (0 <=? x)%Z then unit_plus else unit_minus]
    ++ digit_text (digits (Z.abs x)).

(** The first character of a number literal. *)
Definition number_head (c : code_unit) : Prop :=
  is_digit c = true \/ c = unit_minus.

(** The first character of the text of a value: no white space, and no
    closing bracket. *)
Definition value_head (c : code_unit) : Prop :=
  is_ws c = false /\ N.eqb c 93 = false.

(** The text of a member of an object, without indentation. *)
Definition member_text (indent : js_string) (kv : js_string * json) : js_string :=
  QuoteJSONString (fst kv) ++ [58%N] ++ [] ++ serialize [] indent (snd kv).

(** A bound of the calls [parse_value] makes on the text of a value. *)
Fixpoint json_size (v : json) : nat :=
  match v with
  | JArray items => S (list_sum (map (fun x => S (json_size x)) items))
  | JObject props => S (list_sum (map (fun kv => S (json_size (snd kv))) props))
  | _ => 1
  end.

(** A value is read back from its compact text, whatever follows it in
    an enclosing text. *)
Definition reads_back (v : json) : Prop :=
  json_stable v = true ->
  forall (indent : js_string) (fuel : nat) (rest : js_string),
    (json_size v <= fuel)%nat -> follows_value rest ->
    parse_value fuel (serialize [] indent v ++ rest) = Some (v, rest).

(** *** Logged records *)




(* ================================================================== *)
(** ** Facts about the host operations *)
(* ================================================================== *)

Lemma str_eqb_refl (a : js_string) : str_eqb a a = true.
Proof.
  induction a as [|c a IH]; simpl; [reflexivity|].
  now rewrite N.eqb_refl, IH.
Qed.

Lemma str_eqb_eq (a b : js_string) : str_eqb a b = true <-> a = b.
Proof.
  split.
  - revert b; induction a as [|c a IH]; intros [|d b]; simpl; try discriminate; auto.
    intros H. apply andb_prop in H as [H1 H2].
    apply N.eqb_eq in H1. apply IH in H2. now subst.
  - intros ->. apply str_eqb_refl.
Qed.

(** *** [split] and [pop] *)

Lemma split_not_nil (sep : code_unit) (s : js_string) : split sep s <> [].
Proof.
  destruct s as [|c s]; simpl; [discriminate|].
  destruct (N.eqb c sep); [discriminate|].
  destruct (split sep s); discriminate.
Qed.

Lemma pop_last_front {A : Type} (a : list A) (d : A) :
  a <> [] -> pop a = (Some (last a d), removelast a).
Proof.
  induction a as [|x a IH]; [congruence|]. intros _.
  destruct a as [|y a]; [reflexivity|].
  change (pop (x :: y :: a)) with (let (l, f) := pop (y :: a) in (l, x :: f)).
  rewrite IH by discriminate. reflexivity.
Qed.

Lemma last_app_r {A : Type} (l l' : list A) (d : A) :
  l' <> [] -> last (l ++ l') d = last l' d.
Proof.
  intros H. induction l as [|x l IH]; simpl; [reflexivity|].
  rewrite IH. destruct (l ++ l') eqn:E; [|reflexivity].
  apply app_eq_nil in E as [_ E]. contradiction.
Qed.

(** A text without the separator is its own single piece. *)
Lemma split_no_sep (sep : code_unit) (s : js_string) :
  ~ In sep s -> split sep s = [s].
Proof.
  induction s as [|c s IH]; simpl; [reflexivity|]. intros H.
  destruct (N.eqb_spec c sep) as [->|_]; [exfalso; auto|].
  rewrite IH by auto. reflexivity.
Qed.

(** The last piece holds no separator. *)
Lemma split_last_no_sep (sep : code_unit) (s : js_string) :
  ~ In sep (last (split sep s) []).
Proof.
  induction s as [|c s IH]; simpl; [auto|].
  destruct (N.eqb_spec c sep) as [->|Hne].
  - pose proof (split_not_nil sep s).
    destruct (split sep s) eqn:E; [congruence|]. exact IH.
  - pose proof (split_not_nil sep s).
    destruct (split sep s) as [|p ps] eqn:E; [congruence|].
    destruct ps as [|p' ps]; simpl in *.
    + intros [H1|H1]; [congruence|auto].
    + exact IH.
Qed.

(** Splitting a concatenation: the pieces of the first part but the
    last, then the pieces of that last piece followed by the second part. *)
Lemma split_app (sep : code_unit) (a b : js_string) :
  split sep (a ++ b) =
  removelast (split sep a) ++ split sep (last (split sep a) [] ++ b).
Proof.
  induction a as [|c a IH]; simpl; [reflexivity|].
  pose proof (split_not_nil sep a) as Ha.
  destruct (N.eqb_spec c sep) as [->|Hne].
  - rewrite IH. destruct (split sep a) eqn:E; [congruence|]. reflexivity.
  - rewrite IH. destruct (split sep a) as [|p ps] eqn:E; [congruence|].
    destruct ps as [|p' ps].
    + simpl. destruct (N.eqb_spec c sep); [congruence|].
      pose proof (split_not_nil sep (p ++ b)).
      destruct (split sep (p ++ b)); [congruence|reflexivity].
    + reflexivity.
Qed.

(** No character is lost: the pieces joined by the separator are the text. *)
Lemma join_split (sep : code_unit) (s : js_string) :
  join [sep] (split sep s) = s.
Proof.
  induction s as [|c s IH]; simpl; [reflexivity|].
  pose proof (split_not_nil sep s) as Hs.
  destruct (N.eqb_spec c sep) as [->|Hne].
  - destruct (split sep s) eqn:E; [congruence|].
    simpl in *. now rewrite IH.
  - destruct (split sep s) as [|p ps] eqn:E; [congruence|].
    destruct ps; simpl in *; now rewrite <- IH.
Qed.

(* ================================================================== *)
(** ** The read loop of [main] *)
(* ================================================================== *)

Section ReadLoopFacts.
Variables (chunk out : Type).
Variable decode : chunk -> js_string.
Variable handle : js_string -> out.

Lemma handled_fold (lines : list js_string) (done : list out) :
  fold_left (fun done line => done ++ [handle line]) lines done
  = done ++ map handle lines.
Proof.
  revert done; induction lines as [|l lines IH]; intros done; simpl.
  - now rewrite app_nil_r.
  - rewrite IH, <- app_assoc. reflexivity.
Qed.

(** One turn of the loop is one step of the assembler. *)
Lemma main_step_spec (st : loop_state out) (c : chunk) :
  main_step decode handle st c =
  {| partial := snd (assembler_step decode (partial st) c);
     handled := handled st ++ map handle (fst (assembler_step decode (partial st) c)) |}.
Proof.
  unfold main_step, assembler_step.
  rewrite (pop_last_front _ [] (split_not_nil LF _)).
  simpl. now rewrite handled_fold.
Qed.

Lemma main_loop_from (chunks : list chunk) (st : loop_state out) :
  handled (fold_left (main_step decode handle) chunks st)
  = handled st ++ map handle (assemble decode (partial st) chunks).
Proof.
  revert st; induction chunks as [|c chunks IH]; intros st; simpl.
  - now rewrite app_nil_r.
  - rewrite IH, main_step_spec. simpl.
    unfold assembler_step. simpl.
    now rewrite map_app, app_assoc.
Qed.

Lemma main_loop_assemble (chunks : list chunk) :
  handled (main_loop decode handle chunks) = map handle (assemble decode [] chunks).
Proof. unfold main_loop. now rewrite main_loop_from. Qed.

(** What the assembler emits over a whole stream, from a buffer that
    holds no line feed: every piece of the text but the last. *)
Lemma assemble_whole (chunks : list chunk) (buffer : js_string) :
  ~ In LF buffer ->
  assemble decode buffer chunks
  = removelast (split LF (buffer ++ List.concat (map decode chunks))).
Proof.
  revert buffer; induction chunks as [|c chunks IH]; intros buffer Hb; simpl.
  - rewrite app_nil_r, split_no_sep by assumption. reflexivity.
  - rewrite IH by apply split_last_no_sep.
    rewrite app_assoc.
    rewrite (split_app LF (buffer ++ decode c)).
    rewrite removelast_app by apply split_not_nil.
    reflexivity.
Qed.
End ReadLoopFacts.

Lemma main_lines_assemble (chunks : list (list byte)) :
  main_lines chunks = assemble TextDecoder_decode [] chunks.
Proof.
  unfold main_lines. rewrite main_loop_assemble. apply map_id.
Qed.

(** What [console.log] receives is the rendering of each line, in order. *)
Lemma main_renders_lines (colors : Colors) (chunks : list (list byte)) :
  main colors chunks = map (prettyPrintLogObject colors) (main_lines chunks).
Proof.
  unfold main. rewrite main_loop_assemble, main_lines_assemble. reflexivity.
Qed.

(** C4.  For every finite sequence of chunks, the lines [main] hands on
    are those of the assembler of section 4.4: each decoded chunk is
    appended to one pending buffer, the buffer is split on the line feed,
    every piece but the last is emitted in order and the last is the new
    buffer.  At the end of the stream the pending buffer is dropped: the
    lines are the pieces of the whole decoded text except the last one,
    which is never emitted. *)
Theorem line_assembler_algorithm (chunks : list (list byte)) :
  main_lines chunks = assemble TextDecoder_decode [] chunks /\
  (forall buffer c,
      assembler_step TextDecoder_decode buffer c
      = (removelast (split LF (buffer ++ TextDecoder_decode c)),
         last (split LF (buffer ++ TextDecoder_decode c)) [])) /\
  main_lines chunks
  = removelast (split LF (List.concat (map TextDecoder_decode chunks))) /\
  partial (main_loop TextDecoder_decode (fun line => line) chunks)
  = last (split LF (List.concat (map TextDecoder_decode chunks))) [].
Proof.
  split; [apply main_lines_assemble|].
  split; [reflexivity|].
  split.
  - rewrite main_lines_assemble.
    now rewrite (assemble_whole _ TextDecoder_decode chunks []) by (simpl; auto).
  - unfold main_loop.
    enough (H : forall st : loop_state js_string,
               ~ In LF (partial st) ->
               partial (fold_left (main_step TextDecoder_decode (fun l => l)) chunks st)
               = last (split LF (partial st ++ List.concat (map TextDecoder_decode chunks))) []).
    { apply (H {| partial := []; handled := [] |}). simpl; auto. }
    induction chunks as [|c chunks IH]; intros st Hst; simpl.
    + rewrite app_nil_r, split_no_sep by assumption. reflexivity.
    + rewrite IH.
      * rewrite main_step_spec. simpl.
        rewrite app_assoc, (split_app LF (partial st ++ TextDecoder_decode c)).
        rewrite last_app_r by apply split_not_nil. reflexivity.
      * rewrite main_step_spec. simpl. apply split_last_no_sep.
Qed.

(** C1, as stated, fails: the second chunk holds a line feed between
    [c] and [def], so the first two lines are [abc] and [def], not one
    line [abcdef]. *)
Lemma example_chunks_not_abcdef :
  main_lines example_chunks <> [lit "abcdef"; lit "ghi"].
Proof. vm_compute. discriminate. Qed.

(** C1, amended.  Feeding the three chunks of the example in
    that order yields exactly the lines [abc], [def], [ghi], in that
    order; no character is lost or duplicated: the lines, each followed by
    a line feed, are the text of the chunks. *)
Theorem example_chunks_lines :
  main_lines example_chunks = [lit "abc"; lit "def"; lit "ghi"] /\
  List.concat (map (fun line => line ++ [LF]) (main_lines example_chunks))
  = List.concat (map TextDecoder_decode example_chunks).
Proof. split; vm_compute; reflexivity. Qed.

(* ================================================================== *)
(** ** The renderer *)
(* ================================================================== *)

Lemma typeof_string (v : option json) :
  str_eqb (typeof v) (lit "string") = true <-> exists s, v = Some (JString s).
Proof.
  destruct v as [[]|]; vm_compute; split; intros H;
    try discriminate; try (destruct H; discriminate); eauto.
Qed.

Lemma typeof_number (v : option json) :
  str_eqb (typeof v) (lit "number") = true <-> exists x, v = Some (JNumber x).
Proof.
  destruct v as [[]|]; vm_compute; split; intros H;
    try discriminate; try (destruct H; discriminate); eauto.
Qed.

Lemma typeof_object (v : option json) :
  str_eqb (typeof v) (lit "object") && negb (is_null v) = true
  <-> exists c, v = Some c /\ is_object c.
Proof.
  destruct v as [[]|]; split; intros H;
    try (vm_compute in H; discriminate);
    try (destruct H as (c & E & F); inversion E; subst; simpl in F; contradiction);
    try (destruct H as (c & E & F); discriminate);
    try reflexivity;
    (eexists; split; [reflexivity|exact I]).
Qed.

(** [isLogObject] decides the shape of section 4.5. *)
Lemma isLogObject_shape (obj : json) :
  isLogObject obj = true <-> LogRecord_shape obj.
Proof.
  unfold isLogObject, LogRecord_shape. split.
  - intros H.
    repeat (apply andb_prop in H as [H ?]).
    destruct obj; try discriminate.
    unfold get in *.
    match goal with H : _ && negb (is_null (own_property _ _)) = true |- _ =>
      apply typeof_object in H as (c & Hc & Ho) end.
    repeat match goal with
           | H : str_eqb (typeof _) (lit "string") = true |- _ =>
               apply typeof_string in H as (? & ?)
           | H : str_eqb (typeof _) (lit "number") = true |- _ =>
               apply typeof_number in H as (? & ?)
           end.
    do 6 eexists. repeat split; eauto.
  - intros (props & l & n & ns & m & c & -> & Hl & Hn & Hns & Hm & Hc & Ho).
    unfold get, has_property. rewrite Hl, Hn, Hns, Hm, Hc.
    destruct c; try contradiction; reflexivity.
Qed.

Lemma level_tag_colored (colors : Colors) (level tag : js_string) :
  In (level, tag) tags -> level_tag colors level = tag_color colors level tag.
Proof.
  unfold tags. simpl.
  intros [E|[E|[E|[E|[E|[E|[]]]]]]]; inversion E; subst; reflexivity.
Qed.

Lemma tags_width (level tag : js_string) :
  In (level, tag) tags -> List.length tag = 8%nat.
Proof.
  unfold tags. simpl.
  intros [E|[E|[E|[E|[E|[E|[]]]]]]]; inversion E; subst; reflexivity.
Qed.

(** The rendering of a line that holds a log record. *)
Lemma render_record (colors : Colors) (line : js_string)
    (props : list (js_string * json)) (l ns m : js_string) (c : json) :
  JSON_parse line = Some (JObject props) ->
  isLogObject (JObject props) = true ->
  own_property (lit "level") props = Some (JString l) ->
  own_property (lit "namespace") props = Some (JString ns) ->
  own_property (lit "message") props = Some (JString m) ->
  own_property (lit "context") props = Some c ->
  prettyPrintLogObject colors line
  = level_tag colors l ++ lit "[" ++ cyan colors ns ++ lit "] " ++ white colors m
      ++ [LF] ++ gray colors (JSON_stringify c 2).
Proof.
  intros Hp Hs Hl Hns Hm Hc.
  unfold prettyPrintLogObject. rewrite Hp, Hs.
  unfold get. rewrite Hl, Hns, Hm, Hc. simpl.
  repeat (rewrite <- app_assoc; simpl). reflexivity.
Qed.

(** C2, as stated, fails: the six tags of the source are eight
    characters wide (five letters or a space and four, a space, the sign
    and a space), so the header of a record at level trace begins with
    no seven-character one among them. *)
Lemma header_tag_is_not_seven_wide :
  (exists json,
      JSON_parse example_trace_line = Some json /\ isLogObject json = true /\
      get json (lit "level") = Some (JString (lit "trace"))) /\
  ~ (exists tag,
        In tag (map snd tags) /\ List.length tag = 7%nat /\
        starts_with tag (prettyPrintLogObject no_color example_trace_line)).
Proof.
  split.
  - eexists. split; [vm_compute; reflexivity|]. split; vm_compute; reflexivity.
  - intros (tag & Hin & Hlen & _). simpl in Hin.
    destruct Hin as [E|[E|[E|[E|[E|[E|[]]]]]]]; subst tag; vm_compute in Hlen;
      discriminate.
Qed.

(** C2, amended.  For every line that parses as JSON and satisfies the
    shape check with one of the six levels, the rendering is the tag of
    that level, one of six tags all eight characters wide ([TRACE > ],
    [DEBUG > ], [ INFO > ], [ WARN > ], [ERROR > ], [FATAL > ]), in the
    colour of the level, then the namespace in brackets, a space and the
    message, a line feed, and the context printed as JSON with an
    indentation of two spaces.  Without decoration the text begins with
    the tag itself. *)
Theorem header_of_a_record (colors : Colors) (line : js_string) (json : json)
    (level tag : js_string) :
  JSON_parse line = Some json ->
  isLogObject json = true ->
  get json (lit "level") = Some (JString level) ->
  In (level, tag) tags ->
  List.length tag = 8%nat /\
  exists ns m c,
    get json (lit "namespace") = Some (JString ns) /\
    get json (lit "message") = Some (JString m) /\
    get json (lit "context") = Some c /\
    prettyPrintLogObject colors line
    = tag_color colors level tag ++ lit "[" ++ cyan colors ns ++ lit "] "
        ++ white colors m ++ [LF] ++ gray colors (JSON_stringify c 2) /\
    starts_with (tag ++ lit "[" ++ ns ++ lit "] " ++ m ++ [LF])
                (prettyPrintLogObject no_color line).
Proof.
  intros Hp Hs Hl Hin.
  split; [eapply tags_width; eassumption|].
  pose proof Hs as Hshape. apply isLogObject_shape in Hshape.
  destruct Hshape as (props & l & n & ns & m & c & -> & Hl' & Hn & Hns & Hm & Hc & Ho).
  simpl in Hl. rewrite Hl' in Hl. inversion Hl; subst l.
  exists ns, m, c. simpl. repeat split; try assumption.
  - rewrite (render_record colors line props level ns m c) by assumption.
    now rewrite (level_tag_colored colors level tag).
  - rewrite (render_record no_color line props level ns m c) by assumption.
    rewrite (level_tag_colored no_color level tag) by assumption.
    exists (JSON_stringify c 2).
    assert (Hid : tag_color no_color level tag = tag).
    { unfold tag_color. repeat destruct (str_eqb level _); reflexivity. }
    rewrite Hid. simpl.
    repeat (rewrite <- app_assoc; simpl). reflexivity.
Qed.

Lemma header_of_a_record_witness :
  List.length (lit "TRACE > ") = 8%nat /\
  exists ns m c,
    get (JObject [ (lit "level", JString (lit "trace"));
                   (lit "level_n", JNumber (Zero false));
                   (lit "namespace", JString (lit "n"));
                   (lit "message", JString (lit "m"));
                   (lit "context", JObject []) ]) (lit "namespace") = Some (JString ns) /\
    get (JObject [ (lit "level", JString (lit "trace"));
                   (lit "level_n", JNumber (Zero false));
                   (lit "namespace", JString (lit "n"));
                   (lit "message", JString (lit "m"));
                   (lit "context", JObject []) ]) (lit "message") = Some (JString m) /\
    get (JObject [ (lit "level", JString (lit "trace"));
                   (lit "level_n", JNumber (Zero false));
                   (lit "namespace", JString (lit "n"));
                   (lit "message", JString (lit "m"));
                   (lit "context", JObject []) ]) (lit "context") = Some c /\
    prettyPrintLogObject ansi_color example_trace_line
    = tag_color ansi_color (lit "trace") (lit "TRACE > ") ++ lit "["
        ++ cyan ansi_color ns ++ lit "] " ++ white ansi_color m ++ [LF]
        ++ gray ansi_color (JSON_stringify c 2) /\
    starts_with (lit "TRACE > " ++ lit "[" ++ ns ++ lit "] " ++ m ++ [LF])
                (prettyPrintLogObject no_color example_trace_line).
Proof.
  apply (header_of_a_record ansi_color example_trace_line).
  - vm_compute. reflexivity.
  - vm_compute. reflexivity.
  - vm_compute. reflexivity.
  - simpl. left. reflexivity.
Defined.

Lemma malformed_passes_through (colors : Colors) (line : js_string) :
  malformed line -> prettyPrintLogObject colors line = gray colors line.
Proof.
  unfold prettyPrintLogObject.
  intros [H|(json & H & Hshape)]; rewrite H; [reflexivity|].
  destruct (isLogObject json) eqn:E; [|reflexivity].
  apply isLogObject_shape in E. contradiction.
Qed.

Lemma missing_field_no_shape (json : json) (name : js_string) :
  In name [lit "level"; lit "level_n"; lit "namespace"; lit "message"; lit "context"] ->
  get json name = None -> ~ LogRecord_shape json.
Proof.
  intros Hin Hget (props & l & n & ns & m & c & -> & Hl & Hn & Hns & Hm & Hc & Ho).
  simpl in Hget, Hin.
  destruct Hin as [<-|[<-|[<-|[<-|[<-|[]]]]]]; congruence.
Qed.

(** C5.  For every line the renderer returns a text.  If the line fails
    to parse as JSON, or parses to a value without the shape of a log
    record ([level], [namespace] and [message] strings, [level_n] a
    number, [context] an object, all five present), the text is the line
    itself, in the decoration of the fallback (gray), and the very line
    when decoration is off.  In particular a JSON line that lacks
    [context] passes through. *)
Theorem malformed_line_passes_through (colors : Colors) (line : js_string) :
  (malformed line ->
   prettyPrintLogObject colors line = gray colors line /\
   prettyPrintLogObject no_color line = line) /\
  (forall json,
      JSON_parse line = Some json -> get json (lit "context") = None ->
      malformed line).
Proof.
  split.
  - intros H. split; apply malformed_passes_through; assumption.
  - intros json Hp Hc. right. exists json. split; [assumption|].
    apply (missing_field_no_shape json (lit "context")); [|assumption].
    simpl. tauto.
Qed.

Lemma malformed_line_passes_through_witness :
  (malformed example_plain_line /\
   prettyPrintLogObject ansi_color example_plain_line = gray ansi_color example_plain_line /\
   prettyPrintLogObject no_color example_plain_line = example_plain_line) /\
  (malformed example_no_context_line /\
   prettyPrintLogObject no_color example_no_context_line = example_no_context_line).
Proof.
  assert (H1 : malformed example_plain_line) by (left; vm_compute; reflexivity).
  assert (H2 : malformed example_no_context_line).
  { apply (proj2 (malformed_line_passes_through no_color example_no_context_line)
             (JObject [ (lit "level", JString (lit "info"));
                        (lit "level_n", JNumber (Finite false 4503599627370496 (-51)));
                        (lit "namespace", JString (lit "my-app"));
                        (lit "message", JString (lit "started")) ])).
    - vm_compute. reflexivity.
    - vm_compute. reflexivity. }
  split.
  - split; [exact H1|].
    exact (proj1 (malformed_line_passes_through ansi_color example_plain_line) H1).
  - split; [exact H2|].
    exact (proj2 (proj1 (malformed_line_passes_through no_color example_no_context_line) H2)).
Defined.

(** C10.  Two lines that both parse as JSON, both satisfy the shape
    check and agree on [level], [namespace], [message] and [context] are
    rendered to the same text, whatever [timestamp], [level_n] or other
    fields either holds. *)
Theorem rendering_ignores_other_fields (colors : Colors)
    (line1 line2 : js_string) (json1 json2 : json) :
  JSON_parse line1 = Some json1 ->
  JSON_parse line2 = Some json2 ->
  isLogObject json1 = true ->
  isLogObject json2 = true ->
  get json1 (lit "level") = get json2 (lit "level") ->
  get json1 (lit "namespace") = get json2 (lit "namespace") ->
  get json1 (lit "message") = get json2 (lit "message") ->
  get json1 (lit "context") = get json2 (lit "context") ->
  prettyPrintLogObject colors line1 = prettyPrintLogObject colors line2.
Proof.
  intros Hp1 Hp2 Hs1 Hs2 Hl Hns Hm Hc.
  unfold prettyPrintLogObject.
  rewrite Hp1, Hp2, Hs1, Hs2, Hl, Hns, Hm, Hc. reflexivity.
Qed.

Lemma rendering_ignores_other_fields_witness :
  example_line_with_timestamp <> example_line_other_fields /\
  prettyPrintLogObject ansi_color example_line_with_timestamp
  = prettyPrintLogObject ansi_color example_line_other_fields.
Proof.
  split; [vm_compute; discriminate|].
  eapply (rendering_ignores_other_fields ansi_color);
    try (vm_compute; reflexivity).
Defined.

(* ================================================================== *)
(** ** The logger *)
(* ================================================================== *)




Lemma rank_injective (l l' : LogLevel) : rank l = rank l' -> l = l'.
Proof. destruct l, l'; simpl; intros H; try reflexivity; discriminate. Qed.

Lemma rank_range (l : LogLevel) : (0 <= rank l <= 5)%Z.
Proof. destruct l; simpl; lia. Qed.






(* ------------------------------------------------------------------ *)
(** *** The default normalizer on typed arrays *)

Lemma fold_digits (ds : list Z) (a : Z) :
  fold_left (fun a d => (10 * a + d)%Z) ds a
  = (a * 10 ^ Z.of_nat (List.length ds) + undigits ds)%Z.
Proof.
  unfold undigits. revert a. induction ds as [|d ds IH]; intros a.
  - simpl. lia.
  - cbn [fold_left List.length]. rewrite IH, (IH (10 * 0 + d)%Z).
    rewrite Nat2Z.inj_succ, Z.pow_succ_r by lia. ring.
Qed.

Lemma undigits_app (a b : list Z) :
  undigits (a ++ b) = (undigits a * 10 ^ Z.of_nat (List.length b) + undigits b)%Z.
Proof. unfold undigits at 1. rewrite fold_left_app. apply fold_digits. Qed.

Lemma digits_fuel_spec (fuel : nat) (n : Z) (acc : list Z) :
  (0 <= n < 2 ^ Z.of_nat (S fuel))%Z ->
  undigits (digits_fuel fuel n acc)
  = (n * 10 ^ Z.of_nat (List.length acc) + undigits acc)%Z.
Proof.
  revert n acc. induction fuel as [|fuel IH]; intros n acc Hn.
  - simpl. change (n :: acc) with ([n] ++ acc). rewrite undigits_app.
    reflexivity.
  - cbn [digits_fuel]. destruct (Z.ltb_spec n 10) as [Hlt|Hge].
    + change (n :: acc) with ([n] ++ acc). rewrite undigits_app. reflexivity.
    + rewrite IH.
      * change ((n mod 10)%Z :: acc) with ([(n mod 10)%Z] ++ acc).
        rewrite undigits_app. cbn [List.length app].
        rewrite Nat2Z.inj_succ, Z.pow_succ_r by lia.
        change (undigits [(n mod 10)%Z]) with (10 * 0 + n mod 10)%Z.
        pose proof (Z.div_mod n 10 ltac:(lia)) as Hdm.
        set (p := (10 ^ Z.of_nat (List.length acc))%Z).
        rewrite Hdm at 3. ring.
      * split; [apply Z.div_pos; lia|].
        rewrite Nat2Z.inj_succ, Z.pow_succ_r in Hn by lia.
        apply Z.div_lt_upper_bound; lia.
Qed.

(** Reading the digits of a number gives the number back. *)
Lemma undigits_digits (n : Z) : (0 <= n)%Z -> undigits (digits n) = n.
Proof.
  intros Hn. unfold digits. rewrite digits_fuel_spec.
  - simpl. unfold undigits. simpl. lia.
  - split; [assumption|].
    destruct (Z.eq_dec n 0) as [->|Hz]; [simpl; lia|].
    rewrite Nat2Z.inj_succ, Z2Nat.id by apply Z.log2_nonneg.
    apply Z.log2_spec. lia.
Qed.

Lemma digits_fuel_range (fuel : nat) (n : Z) (acc : list Z) :
  (0 <= n < 2 ^ Z.of_nat (S fuel))%Z ->
  Forall (fun d => (0 <= d <= 9)%Z) acc ->
  Forall (fun d => (0 <= d <= 9)%Z) (digits_fuel fuel n acc).
Proof.
  revert n acc. induction fuel as [|fuel IH]; intros n acc Hn Hacc.
  - simpl. constructor; [|assumption]. simpl in Hn. lia.
  - cbn [digits_fuel]. destruct (Z.ltb_spec n 10) as [Hlt|Hge].
    + constructor; [lia|assumption].
    + apply IH.
      * split; [apply Z.div_pos; lia|].
        rewrite Nat2Z.inj_succ, Z.pow_succ_r in Hn by lia.
        apply Z.div_lt_upper_bound; lia.
      * constructor; [|assumption].
        pose proof (Z.mod_pos_bound n 10 ltac:(lia)). lia.
Qed.

Lemma digits_range (n : Z) :
  (0 <= n)%Z -> Forall (fun d => (0 <= d <= 9)%Z) (digits n).
Proof.
  intros Hn. unfold digits. apply digits_fuel_range; [|constructor].
  split; [assumption|].
  destruct (Z.eq_dec n 0) as [->|Hz]; [simpl; lia|].
  rewrite Nat2Z.inj_succ, Z2Nat.id by apply Z.log2_nonneg.
  apply Z.log2_spec. lia.
Qed.





(** The case of [src/mod_test.ts]: a logger with the defaults, an
    [Int16Array] of ten elements in the context. *)
Example int16array_logged :
  exists line json,
    emit defaultConfiguration info (lit "test.default") (lit "test info message")
         [ (lit "i16a", VTypedArray Int16Array (repeat 0%Z 10)) ]
         (lit "2025-01-01T00:00:00.000Z") [] = [line] /\
    JSON_parse line = Some json /\
    option_map (fun c => PrettyPrint.get c (lit "i16a")) (PrettyPrint.get json (lit "context"))
    = Some (Some (JString (lit "Int16Array(10)"))).
Proof.
  do 2 eexists.
  split; [vm_compute; reflexivity|].
  split; [vm_compute; reflexivity|].
  vm_compute. reflexivity.
Qed.

(* ================================================================== *)
(** ** Writing a value and reading it back *)
(* ================================================================== *)

(** *** Strings *)

Lemma hex_digit_value (n : N) : (n < 16)%N -> hex_value (hex_digit n) = Some n.
Proof.
  intros H.
  assert (E : In n [0; 1; 2; 3; 4; 5; 6; 7; 8; 9; 10; 11; 12; 13; 14; 15]%N).
  { simpl. lia. }
  simpl in E.
  repeat (destruct E as [<-|E]; [reflexivity|]). contradiction.
Qed.

Lemma hex4_unicode_escape (c : code_unit) (rest : js_string) :
  (c < 65536)%N ->
  exists a b c' d,
    unicode_escape c = [unit_backslash; 117%N; a; b; c'; d] /\
    hex4 a b c' d = Some c.
Proof.
  intros Hc. do 4 eexists. split; [reflexivity|].
  unfold hex4.
  rewrite !hex_digit_value by (apply N.mod_upper_bound; lia).
  f_equal. rewrite !N.shiftr_div_pow2.
  change (2 ^ 12)%N with 4096%N. change (2 ^ 8)%N with 256%N.
  change (2 ^ 4)%N with 16%N.
  unfold code_unit in *.
  rewrite (N.mod_small (c / 4096) 16) by (apply N.Div0.div_lt_upper_bound; lia).
  replace (c / 4096)%N with (c / 16 / 16 / 16)%N by (rewrite !N.Div0.div_div; reflexivity).
  replace (c / 256)%N with (c / 16 / 16)%N by (rewrite !N.Div0.div_div; reflexivity).
  pose proof (N.div_mod' c 16) as H1.
  pose proof (N.div_mod' (c / 16) 16) as H2.
  pose proof (N.div_mod' (c / 16 / 16) 16) as H3.
  generalize dependent (c mod 16)%N. generalize dependent ((c / 16) mod 16)%N.
  generalize dependent ((c / 16 / 16) mod 16)%N.
  generalize dependent (c / 16 / 16 / 16)%N. generalize dependent (c / 16 / 16)%N.
  generalize dependent (c / 16)%N. intros. lia.
Qed.

Lemma short_escape_inverse (c x : code_unit) :
  short_escape c = Some x ->
  N.eqb x 117 = false /\ simple_escape x = Some c.
Proof.
  unfold short_escape.
  repeat match goal with
         | |- context [N.eqb c ?k] => destruct (N.eqb_spec c k) as [->|?]
         end;
    intros H; inversion H; subst; split; reflexivity.
Qed.

Lemma short_escape_none (c : code_unit) :
  short_escape c = None ->
  N.eqb c unit_quote = false /\ N.eqb c unit_backslash = false.
Proof.
  unfold short_escape, unit_quote, unit_backslash.
  repeat match goal with
         | |- context [if N.eqb c ?k then _ else _] => destruct (N.eqb_spec c k) as [->|?]
         end;
    intros H; try discriminate; split; reflexivity.
Qed.

(** The characters [quote_chars] writes are read back by [parse_chars]
    up to the closing quote. *)
Lemma parse_quote_chars (s rest : js_string) :
  parse_chars (quote_chars s ++ unit_quote :: rest) = Some (s, rest).
Proof.
  remember (List.length s) as n eqn:Hn.
  revert s Hn. induction n as [n IH] using lt_wf_ind. intros s Hn.
  assert (Hlit : forall c t r,
             N.eqb c unit_quote = false -> N.eqb c unit_backslash = false ->
             (c <? 32)%N = false ->
             parse_chars t = Some (r, rest) ->
             parse_chars (c :: t) = Some (c :: r, rest)).
  { intros c t r H1 H2 H3 H4. cbn [parse_chars]. now rewrite H1, H2, H3, H4. }
  assert (Hesc : forall c r,
             (c < 65536)%N ->
             parse_chars (quote_chars r ++ unit_quote :: rest) = Some (r, rest) ->
             parse_chars ((unicode_escape c ++ quote_chars r) ++ unit_quote :: rest)
             = Some (c :: r, rest)).
  { intros c r H1 H2.
    destruct (hex4_unicode_escape c rest H1) as (a & b & c' & d & E1 & E2).
    rewrite E1. cbn [app parse_chars].
    change (N.eqb unit_backslash unit_quote) with false.
    change (N.eqb unit_backslash unit_backslash) with true.
    change (N.eqb 117 117) with true. cbn iota.
    now rewrite E2, H2. }
  destruct s as [|c r]; [cbn; reflexivity|].
  cbn [quote_chars].
  destruct (short_escape c) as [x|] eqn:Es.
  - apply short_escape_inverse in Es as [E1 E2].
    cbn [app parse_chars].
    change (N.eqb unit_backslash unit_quote) with false.
    change (N.eqb unit_backslash unit_backslash) with true. cbn iota.
    rewrite E1, E2.
    rewrite (IH (List.length r)) by (subst; simpl; auto). reflexivity.
  - apply short_escape_none in Es as [E1 E2].
    destruct (N.ltb_spec c 32) as [Hlt|Hge].
    + apply Hesc; [lia|]. apply (IH (List.length r)); subst; simpl; auto.
    + assert (H32 : (c <? 32)%N = false) by (apply N.ltb_ge; assumption).
      destruct (is_high_surrogate c) eqn:Eh.
      * unfold is_high_surrogate in Eh.
        apply andb_prop in Eh as [Eh1 Eh2]. apply N.leb_le in Eh1, Eh2.
        destruct r as [|c2 r'].
        -- rewrite <- (app_nil_r (unicode_escape c)).
           change (@nil code_unit) with (quote_chars []) at 1.
           apply Hesc; [lia|reflexivity].
        -- destruct (is_low_surrogate c2) eqn:El.
           ++ unfold is_low_surrogate in El.
              apply andb_prop in El as [El1 El2]. apply N.leb_le in El1, El2.
              change ((c :: c2 :: quote_chars r') ++ unit_quote :: rest)
                with (c :: c2 :: quote_chars r' ++ unit_quote :: rest).
              apply Hlit; try assumption.
              apply Hlit.
              ** apply N.eqb_neq. unfold unit_quote. lia.
              ** apply N.eqb_neq. unfold unit_backslash. lia.
              ** apply N.ltb_ge. lia.
              ** apply (IH (List.length r')); subst; simpl; auto.
           ++ apply Hesc; [lia|].
              apply (IH (List.length (c2 :: r'))); subst; simpl; auto.
      * destruct (is_low_surrogate c) eqn:El.
        -- unfold is_low_surrogate in El.
           apply andb_prop in El as [El1 El2]. apply N.leb_le in El1, El2.
           apply Hesc; [lia|]. apply (IH (List.length r)); subst; simpl; auto.
        -- change ((c :: quote_chars r) ++ unit_quote :: rest)
             with (c :: quote_chars r ++ unit_quote :: rest).
           apply Hlit; try assumption.
           apply (IH (List.length r)); subst; simpl; auto.
Qed.

(** *** Numbers *)

Lemma round_Q_Qeq (neg : bool) (q q' : Q) :
  Qeq q q' -> round_Q neg q = round_Q neg q'.
Proof.
  intros H. unfold round_Q. now rewrite (Qred_complete q q' H).
Qed.

Lemma round_Q_sign (neg : bool) (q : Q) (m : positive) (e : Z) :
  round_Q false q = Finite false m e -> round_Q neg q = Finite neg m e.
Proof.
  unfold round_Q, of_rounded.
  destruct (Qnum (Qred q) <=? 0)%Z; [discriminate|].
  destruct (fst (nearest _ _)); try discriminate.
  destruct (971 <? snd (nearest _ _))%Z; [discriminate|].
  intros H. inversion H. reflexivity.
Qed.

(** What reads as a finite Number is positive. *)
Lemma round_Q_positive (q : Q) (m : positive) (e : Z) :
  round_Q false q = Finite false m e -> (0 < Qnum q)%Z.
Proof.
  unfold round_Q. destruct (Z.leb_spec (Qnum (Qred q)) 0) as [Hle|Hgt]; [discriminate|].
  intros _. pose proof (Qred_correct q) as E. unfold Qeq in E.
  destruct (Z.ltb_spec 0 (Qnum q)) as [|Hq]; [assumption|exfalso].
  assert (Qnum (Qred q) * Zpos (Qden q) > 0)%Z by nia.
  assert (Qnum q * Zpos (Qden (Qred q)) <= 0)%Z by nia.
  lia.
Qed.

(** A canonical [m·2^e] is its own nearest value. *)
Lemma nearest_exact (P D : Z) (m : positive) (e : Z) :
  canonical m e = true -> (0 < D)%Z ->
  (P * 2 ^ 1074 = Zpos m * 2 ^ (e + 1074) * D)%Z ->
  nearest P D = (Zpos m, e).
Proof.
  unfold canonical. intros Hc HD HP.
  apply andb_prop in Hc as [Hc Hnorm]. apply andb_prop in Hc as [Hc Hmax].
  apply andb_prop in Hc as [Hm He].
  apply Z.ltb_lt in Hm. apply Z.leb_le in He, Hmax.
  set (t := (e + 1074)%Z) in *.
  assert (Ht : (0 <= t)%Z) by (subst t; lia).
  assert (Hpow : (0 < 2 ^ t)%Z) by (apply Z.pow_pos_nonneg; lia).
  unfold nearest. rewrite HP.
  rewrite Z.div_mul by lia.
  rewrite Z.mod_mul by lia.
  assert (Hlog : Z.log2 (Zpos m * 2 ^ t) = (Z.log2 (Zpos m) + t)%Z).
  { rewrite Z.log2_mul_pow2 by lia. lia. }
  assert (Hshift : Z.max 0 (Z.log2 (Zpos m * 2 ^ t) - 52) = t).
  { rewrite Hlog. apply orb_prop in Hnorm as [Hn|Hn].
    - apply Z.leb_le in Hn.
      assert (Z.log2 (Zpos m) = 52%Z).
      { apply Z.log2_unique; [lia|]. change (2 ^ 52)%Z with 4503599627370496%Z.
        change (2 ^ (52 + 1))%Z with 9007199254740992%Z.
        change (2 ^ 52)%Z with 4503599627370496%Z in Hn.
        change (2 ^ 53)%Z with 9007199254740992%Z in Hm. lia. }
      lia.
    - apply Z.eqb_eq in Hn.
      assert (Z.log2 (Zpos m) <= 52)%Z.
      { destruct (Z.le_gt_cases (Z.log2 (Zpos m)) 52) as [|Hgt]; [assumption|].
        exfalso.
        assert (2 ^ 53 <= 2 ^ Z.log2 (Zpos m))%Z by (apply Z.pow_le_mono_r; lia).
        pose proof (Z.log2_spec (Zpos m) ltac:(lia)). lia. }
      subst t. lia. }
  rewrite Hshift.
  rewrite Z.div_mul by lia. rewrite Z.mod_mul by lia.
  assert (Hhalf : (if (t =? 0)%Z then (2 * 0 ?= D)%Z
                   else match (0 ?= 2 ^ (t - 1))%Z with
                        | Eq => if (0 =? 0)%Z then Eq else Gt
                        | c => c
                        end) = Lt).
  { destruct (Z.eqb_spec t 0).
    - apply Z.compare_lt_iff. lia.
    - assert (0 < 2 ^ (t - 1))%Z by (apply Z.pow_pos_nonneg; lia).
      assert (E : (0 ?= 2 ^ (t - 1))%Z = Lt) by (apply Z.compare_lt_iff; assumption).
      now rewrite E. }
  rewrite Hhalf.
  destruct (Z.eqb_spec (Zpos m) (2 ^ 53)) as [E|_]; [lia|].
  f_equal. subst t. lia.
Qed.

(** The canonical form is an invariant of rounding: every Number read
    from a literal is zero, infinite, or a canonical pair. *)

Lemma nearest_canonical (P D : Z) (m : positive) :
  (0 <= P)%Z -> (0 < D)%Z ->
  fst (nearest P D) = Zpos m -> (snd (nearest P D) <= 971)%Z ->
  canonical m (snd (nearest P D)) = true.
Proof.
  intros HP HD. unfold nearest.
  set (N0 := (P * 2 ^ 1074 / D)%Z).
  set (r := ((P * 2 ^ 1074) mod D)%Z).
  set (shift := Z.max 0 (Z.log2 N0 - 52)).
  set (m0 := (N0 / 2 ^ shift)%Z).
  set (low := (N0 mod 2 ^ shift)%Z).
  set (against_half := if (shift =? 0)%Z then _ else _).
  set (m' := match against_half with Lt => m0 | Gt => (m0 + 1)%Z | Eq => _ end).
  assert (HN : (0 <= N0)%Z).
  { subst N0. apply Z.div_pos; [|assumption].
    apply Z.mul_nonneg_nonneg; [assumption|]. apply Z.pow_nonneg. lia. }
  assert (Hshift : (0 <= shift)%Z) by (subst shift; lia).
  assert (Hpow : (0 < 2 ^ shift)%Z) by (apply Z.pow_pos_nonneg; lia).
  assert (Hm0 : (0 <= m0 < 2 ^ 53)%Z /\ (0 < shift -> 2 ^ 52 <= m0)%Z).
  { destruct (Z.eq_dec N0 0) as [E0|E0].
    - assert (Es : shift = 0%Z) by (subst shift; rewrite E0; cbn; lia).
      subst m0. rewrite Es, E0. cbn. split; [split; [lia|reflexivity]|lia].
    - pose proof (Z.log2_spec N0 ltac:(lia)) as [Hlo Hhi].
      destruct (Z.le_gt_cases (Z.log2 N0) 52) as [Hle|Hgt].
      + assert (Es : shift = 0%Z) by (subst shift; lia).
        subst m0. rewrite Es. rewrite Z.pow_0_r, Z.div_1_r.
        split; [|lia]. split; [lia|].
        eapply Z.lt_le_trans; [exact Hhi|].
        apply Z.pow_le_mono_r; lia.
      + assert (Es : shift = (Z.log2 N0 - 52)%Z) by (subst shift; lia).
        assert (E1 : (2 ^ Z.log2 N0 = 2 ^ 52 * 2 ^ shift)%Z).
        { rewrite <- Z.pow_add_r by lia. f_equal. lia. }
        assert (E2 : (2 ^ Z.succ (Z.log2 N0) = 2 ^ 53 * 2 ^ shift)%Z).
        { rewrite <- Z.pow_add_r by lia. f_equal. lia. }
        subst m0. split; [split|intros _].
        * apply Z.div_pos; lia.
        * apply Z.div_lt_upper_bound; [assumption|]. rewrite Z.mul_comm. lia.
        * apply Z.div_le_lower_bound; [assumption|]. rewrite Z.mul_comm. lia. }
  destruct Hm0 as [[Hm0 Hm1] Hm2].
  assert (Hm' : (m0 <= m' <= m0 + 1)%Z).
  { subst m'. destruct against_half; [destruct (Z.even m0)| |]; lia. }
  clearbody m' m0 shift. clear against_half low r.
  unfold canonical.
  change (2 ^ 53)%Z with 9007199254740992%Z in *.
  change (2 ^ 52)%Z with 4503599627370496%Z in *.
  destruct (Z.eqb_spec m' 9007199254740992) as [E|E]; cbn [fst snd].
  - intros Em Hmax. injection Em as <-.
    apply andb_true_intro; split; [|reflexivity].
    apply andb_true_intro; split; [|apply Z.leb_le; exact Hmax].
    apply andb_true_intro; split; [reflexivity|apply Z.leb_le; lia].
  - intros Em Hmax.
    apply andb_true_intro; split.
    + apply andb_true_intro; split; [|apply Z.leb_le; exact Hmax].
      apply andb_true_intro; split; [apply Z.ltb_lt; lia|apply Z.leb_le; lia].
    + destruct (Z.eq_dec shift 0) as [Es|Es].
      * apply orb_true_intro; right. apply Z.eqb_eq. lia.
      * apply orb_true_intro; left. apply Z.leb_le. specialize (Hm2 ltac:(lia)). lia.
Qed.

Lemma round_Q_canonical (neg : bool) (q : Q) : wf_number (round_Q neg q) = true.
Proof.
  unfold round_Q.
  destruct (Z.leb_spec (Qnum (Qred q)) 0) as [|Hpos]; [reflexivity|].
  unfold of_rounded.
  destruct (fst (nearest (Qnum (Qred q)) (Zpos (Qden (Qred q))))) as [|pm|pm] eqn:Em;
    try reflexivity.
  destruct (Z.ltb_spec 971 (snd (nearest (Qnum (Qred q)) (Zpos (Qden (Qred q))))))
    as [|Hmax]; [reflexivity|].
  cbn [wf_number].
  apply nearest_canonical; [lia|reflexivity|exact Em|exact Hmax].
Qed.

Lemma round_Q_exact (neg : bool) (q : Q) (m : positive) (e : Z) :
  canonical m e = true -> Qeq q (magnitude m e) ->
  round_Q neg q = Finite neg m e.
Proof.
  intros Hc Hq.
  assert (He : (-1074 <= e <= 971)%Z).
  { unfold canonical in Hc.
    apply andb_prop in Hc as [Hc _]. apply andb_prop in Hc as [Hc Hmax].
    apply andb_prop in Hc as [_ He]. apply Z.leb_le in He, Hmax. lia. }
  pose proof (Qred_correct q) as Hr.
  assert (Hv : Qeq (Qred q) (magnitude m e)).
  { now rewrite Hr. }
  unfold round_Q.
  set (P := Qnum (Qred q)) in *. set (D := Qden (Qred q)) in *.
  assert (HP : (P * 2 ^ 1074 = Zpos m * 2 ^ (e + 1074) * Zpos D)%Z).
  { unfold Qeq, magnitude in Hv. fold P D in Hv.
    destruct (Z.leb_spec 0 e) as [Hpos|Hneg]; cbn [Qnum Qden] in Hv.
    - rewrite Z.pow_add_r by lia.
      replace (P * 2 ^ 1074)%Z with (P * 1 * 2 ^ 1074)%Z by ring.
      rewrite Hv. ring.
    - rewrite Z2Pos.id in Hv by (apply Z.pow_pos_nonneg; lia).
      replace (2 ^ 1074)%Z with (2 ^ (- e) * 2 ^ (e + 1074))%Z
        by (rewrite <- Z.pow_add_r by lia; f_equal; lia).
      rewrite Z.mul_assoc, Hv. ring. }
  assert (Hpos : (0 < P)%Z).
  { assert (0 < 2 ^ (e + 1074))%Z by (apply Z.pow_pos_nonneg; lia).
    assert (0 < P * 2 ^ 1074)%Z by (rewrite HP; apply Z.mul_pos_pos; [nia|lia]).
    nia. }
  destruct (Z.leb_spec P 0) as [|_]; [lia|].
  rewrite (nearest_exact P (Zpos D) m e Hc ltac:(lia) HP).
  unfold of_rounded. simpl.
  destruct (Z.ltb_spec 971 e); [lia|reflexivity].
Qed.

Lemma number_eqb_eq (x y : number) : number_eqb x y = true -> x = y.
Proof.
  destruct x, y; simpl; try discriminate; intros H; try reflexivity.
  - apply Bool.eqb_prop in H. now subst.
  - apply Bool.eqb_prop in H. now subst.
  - apply andb_prop in H as [H He]. apply andb_prop in H as [Hn Hm].
    apply Bool.eqb_prop in Hn. apply Pos.eqb_eq in Hm. apply Z.eqb_eq in He.
    now subst.
Qed.

Lemma reads_as_spec (m : positive) (e s j : Z) :
  reads_as m e s j = true -> round_Q false (decimal s j) = Finite false m e.
Proof. unfold reads_as. apply number_eqb_eq. Qed.

Lemma on_grid_reads (m : positive) (e j s : Z) :
  on_grid m e j = Some s -> reads_as m e s j = true.
Proof.
  unfold on_grid.
  set (low := (_ / _)%Z).
  destruct (reads_as m e low j) eqn:EL; destruct (reads_as m e (low + 1) j) eqn:EH;
    destruct (0 <? low)%Z; cbn [andb];
    try destruct (_ ?= _)%Z; try destruct (Z.even low);
    intros H; inversion H; subst; assumption.
Qed.

Lemma shortest_reads (fuel : nat) (m : positive) (e j s j' : Z) :
  shortest fuel m e j = Some (s, j') -> reads_as m e s j' = true.
Proof.
  revert j. induction fuel as [|fuel IH]; intros j; [discriminate|].
  cbn [shortest]. destruct (on_grid m e j) as [s0|] eqn:E.
  - intros H. inversion H; subst. eapply on_grid_reads; eassumption.
  - apply IH.
Qed.

Lemma pow10_pos (k : Z) : (0 <= k)%Z -> (0 < 10 ^ k)%Z.
Proof. intros. apply Z.pow_pos_nonneg; lia. Qed.

Lemma exact_decimal_value (m : positive) (e : Z) :
  Qeq (decimal (fst (exact_decimal m e)) (snd (exact_decimal m e))) (magnitude m e).
Proof.
  unfold exact_decimal, magnitude, decimal.
  destruct (Z.leb_spec 0 e) as [Hpos|Hneg]; cbn [fst snd].
  - change (0 <=? 0)%Z with true. cbv iota.
    unfold Qeq. cbn [Qnum Qden]. change (10 ^ 0)%Z with 1%Z. ring.
  - destruct (Z.leb_spec 0 e) as [|_]; [lia|].
    unfold Qeq. cbn [Qnum Qden].
    rewrite !Z2Pos.id by (apply Z.pow_pos_nonneg; lia).
    replace (10 ^ (- e))%Z with (2 ^ (- e) * 5 ^ (- e))%Z
      by (rewrite <- Z.pow_mul_l; reflexivity).
    ring.
Qed.

(** Dropping a final zero of [s] keeps the decimal. *)
Lemma decimal_shift (s j : Z) :
  (s mod 10 = 0)%Z -> Qeq (decimal (s / 10) (j + 1)) (decimal s j).
Proof.
  intros Hs.
  assert (E : (s = 10 * (s / 10))%Z).
  { pose proof (Z.div_mod s 10 ltac:(lia)). lia. }
  set (q := (s / 10)%Z) in *. rewrite E. clearbody q. clear E Hs.
  unfold decimal, Qeq.
  destruct (Z.leb_spec 0 j) as [Hj|Hj].
  - destruct (Z.leb_spec 0 (j + 1)) as [_|]; [|lia]. cbn [Qnum Qden].
    rewrite Z.pow_add_r by lia. change (10 ^ 1)%Z with 10%Z. ring.
  - destruct (Z.leb_spec 0 (j + 1)) as [Hj1|Hj1]; cbn [Qnum Qden].
    + assert (j = -1)%Z by lia. subst j.
      change (10 ^ (-1 + 1))%Z with 1%Z.
      change (Z.pos (Z.to_pos (10 ^ (- (-1))))) with 10%Z. ring.
    + rewrite !Z2Pos.id by (apply pow10_pos; lia).
      replace (- j)%Z with (- (j + 1) + 1)%Z by lia.
      rewrite Z.pow_add_r by lia. change (10 ^ 1)%Z with 10%Z. ring.
Qed.

Lemma strip_zeros_value (fuel : nat) (s j : Z) :
  Qeq (decimal (fst (strip_zeros fuel s j)) (snd (strip_zeros fuel s j)))
      (decimal s j).
Proof.
  revert s j. induction fuel as [|fuel IH]; intros s j; cbn [strip_zeros].
  - reflexivity.
  - destruct (Z.eqb_spec (s mod 10) 0) as [Hz|_]; cbn [andb]; [|reflexivity].
    destruct (0 <? s)%Z; [|reflexivity].
    rewrite IH. now apply decimal_shift.
Qed.

(** The decimal [shortest_decimal] picks reads back as the Number. *)
Lemma shortest_decimal_reads (m : positive) (e : Z) :
  canonical m e = true ->
  round_Q false (decimal (fst (shortest_decimal m e)) (snd (shortest_decimal m e)))
  = Finite false m e.
Proof.
  intros Hc. unfold shortest_decimal.
  set (found := match shortest 20 m e (point_bound m e - 1) with
                | Some r => r
                | None => exact_decimal m e
                end).
  assert (H : round_Q false (decimal (fst found) (snd found)) = Finite false m e).
  { subst found. destruct (shortest 20 m e (point_bound m e - 1)) as [[s j]|] eqn:E.
    - apply reads_as_spec. eapply shortest_reads. exact E.
    - apply round_Q_exact; [assumption|apply exact_decimal_value]. }
  destruct found as [s j]. cbn [fst snd] in H.
  rewrite (round_Q_Qeq false _ _ (strip_zeros_value _ s j)). exact H.
Qed.

Lemma decimal_positive (s j : Z) : (0 < Qnum (decimal s j))%Z -> (0 < s)%Z.
Proof.
  unfold decimal. destruct (Z.leb_spec 0 j) as [Hj|Hj]; cbn [Qnum]; [|auto].
  intros Hs. pose proof (pow10_pos j Hj). nia.
Qed.

Lemma shortest_decimal_positive (m : positive) (e : Z) :
  canonical m e = true -> (0 < fst (shortest_decimal m e))%Z.
Proof.
  intros Hc. eapply decimal_positive, round_Q_positive.
  apply shortest_decimal_reads. exact Hc.
Qed.

Lemma digit_unit_value (d : Z) :
  (0 <= d <= 9)%Z -> is_digit (digit_unit d) = true /\ digit_value (digit_unit d) = d.
Proof.
  intros H. unfold is_digit, digit_value, digit_unit. split.
  - apply andb_true_intro. split; apply N.leb_le; lia.
  - lia.
Qed.

Lemma span_digit_text (ds : list Z) (rest : js_string) :
  Forall (fun d => (0 <= d <= 9)%Z) ds -> no_digit_ahead rest ->
  span_digits (digit_text ds ++ rest) = (ds, rest).
Proof.
  intros Hds Hrest. unfold digit_text.
  induction Hds as [|d ds Hd _ IH]; cbn [map app span_digits].
  - destruct rest as [|c rest]; [reflexivity|].
    cbn [no_digit_ahead] in Hrest. cbn [span_digits]. now rewrite Hrest.
  - destruct (digit_unit_value d Hd) as [E1 E2].
    rewrite E1, IH, E2. reflexivity.
Qed.

Lemma digits_fuel_head (fuel : nat) (n : Z) (acc : list Z) :
  (0 < n)%Z ->
  exists d rest, digits_fuel fuel n acc = d :: rest /\ (0 < d)%Z.
Proof.
  revert n acc. induction fuel as [|fuel IH]; intros n acc Hn; cbn [digits_fuel].
  - eauto.
  - destruct (Z.ltb_spec n 10) as [|Hge]; [eauto|].
    apply IH. apply Z.div_str_pos. lia.
Qed.

(** The digits of a positive number begin with a digit that is not zero. *)
Lemma digits_head (n : Z) :
  (0 < n)%Z -> exists d rest, digits n = d :: rest /\ (0 < d)%Z.
Proof. intros H. unfold digits. now apply digits_fuel_head. Qed.

Lemma follows_value_ends_number (rest : js_string) :
  follows_value rest -> ends_number rest.
Proof.
  destruct rest as [|c rest]; [auto|]. cbn.
  intros [H|[H|H]]; subst c; repeat split; reflexivity.
Qed.

Lemma ends_number_no_digit (rest : js_string) : ends_number rest -> no_digit_ahead rest.
Proof. destruct rest; cbn; tauto. Qed.

Lemma parse_int_digits (d : Z) (more : list Z) (tail : js_string) :
  Forall (fun d => (0 <= d <= 9)%Z) (d :: more) ->
  (0 < d)%Z \/ more = [] ->
  no_digit_ahead tail ->
  parse_int (digit_text (d :: more) ++ tail) = Some (d :: more, tail).
Proof.
  intros Hds Hd Htail. unfold parse_int.
  rewrite span_digit_text by assumption.
  destruct Hd as [Hd|Hd].
  - destruct (Z.eqb_spec d 0); [lia|reflexivity].
  - subst more. now rewrite andb_false_r.
Qed.

Lemma parse_frac_digits (ds : list Z) (tail : js_string) :
  Forall (fun d => (0 <= d <= 9)%Z) ds -> ds <> [] ->
  no_digit_ahead tail ->
  parse_frac (unit_dot :: digit_text ds ++ tail) = Some (ds, tail).
Proof.
  intros Hds Hne Htail. unfold parse_frac.
  change (N.eqb unit_dot unit_dot) with true. cbv iota.
  rewrite span_digit_text by assumption.
  destruct ds; [contradiction|reflexivity].
Qed.

Lemma parse_frac_none (tail : js_string) :
  match tail with [] => True | c :: _ => N.eqb c unit_dot = false end ->
  parse_frac tail = Some ([], tail).
Proof.
  destruct tail as [|c tail]; [reflexivity|]. intros H. unfold parse_frac.
  now rewrite H.
Qed.

Lemma parse_exp_text (x : Z) (rest : js_string) :
  no_digit_ahead rest ->
  parse_exp (exponent_text x ++ rest) = Some (x, rest).
Proof.
  intros Hrest. unfold exponent_text, parse_exp. cbn [app].
  change (N.eqb unit_e 101 || N.eqb unit_e 69) with true. cbv iota.
  assert (Hd : exists d more, digits (Z.abs x) = d :: more).
  { destruct (Z.eq_dec x 0) as [->|Hx]; [cbn; eauto|].
    destruct (digits_head (Z.abs x) ltac:(lia)) as (d & more & E & _). eauto. }
  destruct Hd as (d & more & Hd).
  destruct (Z.leb_spec 0 x) as [Hpos|Hneg].
  - change (N.eqb unit_plus unit_minus) with false.
    change (N.eqb unit_plus unit_plus) with true. cbv iota.
    rewrite span_digit_text by (try apply digits_range; try assumption; lia).
    rewrite Hd, <- Hd, undigits_digits by lia.
    f_equal. f_equal. lia.
  - change (N.eqb unit_minus unit_minus) with true. cbv iota.
    rewrite span_digit_text by (try apply digits_range; try assumption; lia).
    rewrite Hd, <- Hd, undigits_digits by lia.
    f_equal. f_equal. lia.
Qed.

Lemma parse_exp_none (rest : js_string) :
  match rest with [] => True | c :: _ => (N.eqb c 101 || N.eqb c 69) = false end ->
  parse_exp rest = Some (0%Z, rest).
Proof.
  destruct rest as [|c rest]; [reflexivity|]. intros H. unfold parse_exp.
  now rewrite H.
Qed.

(** A literal put together from its parts reads as the Number of its
    digits and exponent. *)
Lemma parse_number_parts (neg : bool) (s1 s2 s3 rest : js_string)
    (int_ds frac_ds : list Z) (ex : Z) :
  match s1 with [] => True | c :: _ => N.eqb c unit_minus = false end ->
  parse_int s1 = Some (int_ds, s2) ->
  parse_frac s2 = Some (frac_ds, s3) ->
  parse_exp s3 = Some (ex, rest) ->
  parse_number ((if neg then [unit_minus] else []) ++ s1)
  = Some (round_Q neg (decimal (undigits (int_ds ++ frac_ds))
                               (ex - Z.of_nat (List.length frac_ds))), rest).
Proof.
  intros Hhead Hint Hfrac Hexp. unfold parse_number.
  assert (Hsign : parse_sign ((if neg then [unit_minus] else []) ++ s1) = (neg, s1)).
  { destruct neg; cbn [app parse_sign].
    - change (N.eqb unit_minus unit_minus) with true. reflexivity.
    - destruct s1 as [|c s1]; [reflexivity|]. cbn [parse_sign]. now rewrite Hhead. }
  rewrite Hsign, Hint, Hfrac, Hexp. reflexivity.
Qed.

Lemma digit_text_app (a b : list Z) : digit_text (a ++ b) = digit_text a ++ digit_text b.
Proof. apply map_app. Qed.

Lemma zeros_digit_text (n : Z) : zeros n = digit_text (repeat 0%Z (Z.to_nat n)).
Proof.
  unfold zeros, digit_text. induction (Z.to_nat n) as [|k IH]; cbn; [reflexivity|].
  now rewrite <- IH.
Qed.

Lemma repeat_zero_range (k : nat) : Forall (fun d => (0 <= d <= 9)%Z) (repeat 0%Z k).
Proof. induction k; cbn; constructor; [lia|assumption]. Qed.

Lemma undigits_repeat_zero (k : nat) : undigits (repeat 0%Z k) = 0%Z.
Proof.
  induction k as [|k IH]; [reflexivity|].
  change (repeat 0%Z (S k)) with ([0%Z] ++ repeat 0%Z k).
  rewrite undigits_app, IH. reflexivity.
Qed.

Lemma digit_unit_not_minus (d : Z) : (0 <= d <= 9)%Z -> N.eqb (digit_unit d) unit_minus = false.
Proof. intros H. apply N.eqb_neq. unfold digit_unit, unit_minus. lia. Qed.

Lemma Forall_firstn_skipn {A : Type} (P : A -> Prop) (k : nat) (l : list A) :
  Forall P l -> Forall P (firstn k l) /\ Forall P (skipn k l).
Proof.
  intros H. rewrite <- (firstn_skipn k l) in H. now apply Forall_app in H.
Qed.

(** The text [format_decimal] makes of the digits [ds] and the position
    [n] reads as the decimal of those digits at that position. *)
Lemma format_decimal_reads (neg : bool) (d : Z) (ds' : list Z) (n : Z)
    (rest : js_string) :
  Forall (fun d => (0 <= d <= 9)%Z) (d :: ds') -> (0 < d)%Z ->
  ends_number rest ->
  exists D E,
    Qeq (decimal D E)
        (decimal (undigits (d :: ds')) (n - Z.of_nat (List.length (d :: ds')))) /\
    parse_number ((if neg then [unit_minus] else []) ++ format_decimal (d :: ds') n ++ rest)
    = Some (round_Q neg (decimal D E), rest).
Proof.
  intros Hds Hd Hrest.
  set (ds := d :: ds') in *. set (k := Z.of_nat (List.length ds)).
  assert (Hd9 : (0 <= d <= 9)%Z) by (inversion Hds; assumption).
  assert (Hnd : no_digit_ahead rest) by now apply ends_number_no_digit.
  assert (Hnf : match rest with [] => True | c :: _ => N.eqb c unit_dot = false end).
  { destruct rest; cbn in *; tauto. }
  assert (Hne : match rest with [] => True
                | c :: _ => (N.eqb c 101 || N.eqb c 69) = false end).
  { destruct rest; cbn in *; tauto. }
  unfold format_decimal. fold k.
  destruct ((k <=? n) && (n <=? 21))%Z eqn:CA.
  - (* the digits, then zeros *)
    apply andb_prop in CA as [C1 C2]. apply Z.leb_le in C1, C2.
    rewrite zeros_digit_text, <- digit_text_app.
    eexists _, _. split; cycle 1.
    + apply parse_number_parts with (s2 := rest) (s3 := rest).
      * subst ds. cbn [app digit_text map]. now apply digit_unit_not_minus.
      * subst ds. cbn [app]. apply parse_int_digits; [|now left|assumption].
        change (d :: ds' ++ repeat 0%Z (Z.to_nat (n - k)))
          with ((d :: ds') ++ repeat 0%Z (Z.to_nat (n - k))).
        apply Forall_app. split; [assumption|apply repeat_zero_range].
      * now apply parse_frac_none.
      * now apply parse_exp_none.
    + change (d :: ds' ++ repeat 0%Z (Z.to_nat (n - k)))
        with (ds ++ repeat 0%Z (Z.to_nat (n - k))).
      rewrite app_nil_r, undigits_app, undigits_repeat_zero, repeat_length.
      rewrite Z2Nat.id by lia. cbn [List.length]. change (0 - Z.of_nat 0)%Z with 0%Z.
      unfold decimal. change (0 <=? 0)%Z with true. cbv iota.
      destruct (Z.leb_spec 0 (n - k)) as [_|]; [|lia].
      unfold Qeq. cbn [Qnum Qden]. change (10 ^ 0)%Z with 1%Z. ring.
  - destruct ((0 <? n) && (n <=? 21))%Z eqn:CB.
    + (* a point inside the digits *)
      apply andb_prop in CB as [C1 C2]. apply Z.ltb_lt in C1. apply Z.leb_le in C2.
      assert (Hkn : (n < k)%Z).
      { apply andb_false_iff in CA as [C|C]; [apply Z.leb_gt in C; lia|].
        apply Z.leb_gt in C. lia. }
      destruct (Forall_firstn_skipn _ (Z.to_nat n) ds Hds) as [Hf Hs].
      assert (Hlen : Z.of_nat (List.length (skipn (Z.to_nat n) ds)) = (k - n)%Z).
      { rewrite length_skipn. subst k. lia. }
      assert (Hfirst : exists more, firstn (Z.to_nat n) ds = d :: more).
      { destruct (Z.to_nat n) as [|p] eqn:E; [lia|]. subst ds. cbn [firstn]. eauto. }
      destruct Hfirst as (more & Hfirst).
      eexists _, _. split; cycle 1.
      * rewrite <- !app_assoc.
        apply parse_number_parts
          with (s2 := [unit_dot] ++ digit_text (skipn (Z.to_nat n) ds) ++ rest)
               (s3 := rest).
        -- rewrite Hfirst. cbn [app digit_text map]. now apply digit_unit_not_minus.
        -- rewrite Hfirst. rewrite Hfirst in Hf.
           apply parse_int_digits; [assumption|now left|reflexivity].
        -- cbn [app]. apply parse_frac_digits; [assumption| |assumption].
           intros E. rewrite E in Hlen. cbn [List.length] in Hlen. lia.
        -- now apply parse_exp_none.
      * rewrite <- Hfirst, firstn_skipn, Hlen.
        replace (0 - (k - n))%Z with (n - k)%Z by lia. reflexivity.
    + destruct ((-6 <? n) && (n <=? 0))%Z eqn:CC.
      * (* zero, a point, zeros and the digits *)
        apply andb_prop in CC as [C1 C2]. apply Z.ltb_lt in C1. apply Z.leb_le in C2.
        rewrite zeros_digit_text.
        change ([48%N; unit_dot]) with (digit_text [0%Z] ++ [unit_dot]).
        rewrite <- !app_assoc. rewrite (app_assoc (digit_text (repeat _ _))).
        rewrite <- digit_text_app.
        eexists _, _. split; cycle 1.
        -- apply parse_number_parts
             with (s2 := [unit_dot] ++ digit_text (repeat 0%Z (Z.to_nat (- n)) ++ ds) ++ rest)
                  (s3 := rest).
           ++ reflexivity.
           ++ apply parse_int_digits; [|now right|reflexivity].
              constructor; [lia|constructor].
           ++ cbn [app]. apply parse_frac_digits; [| |assumption].
              ** apply Forall_app. split; [apply repeat_zero_range|assumption].
              ** subst ds. intros E. apply app_eq_nil in E as [_ E]. discriminate.
           ++ now apply parse_exp_none.
        -- rewrite undigits_app.
           change (undigits [0%Z]) with 0%Z. rewrite Z.mul_0_l, Z.add_0_l.
           rewrite undigits_app, undigits_repeat_zero, Z.mul_0_l, Z.add_0_l.
           rewrite length_app, repeat_length, Nat2Z.inj_add, Z2Nat.id by lia.
           fold k. replace (0 - (- n + k))%Z with (n - k)%Z by lia. reflexivity.
      * (* one digit, the others after a point, and an exponent *)
        change ([unit_e; if (0 <=? n - 1)%Z then unit_plus else unit_minus]
                  ++ digit_text (digits (Z.abs (n - 1))))
          with (exponent_text (n - 1)).
        subst ds. destruct ds' as [|d2 more].
        -- eexists _, _. split; cycle 1.
           ++ rewrite <- !app_assoc.
              apply parse_number_parts
                with (s2 := exponent_text (n - 1) ++ rest)
                     (s3 := exponent_text (n - 1) ++ rest).
              ** cbn [app digit_text map]. now apply digit_unit_not_minus.
              ** apply parse_int_digits; [assumption|now left|reflexivity].
              ** apply parse_frac_none. reflexivity.
              ** now apply parse_exp_text.
           ++ rewrite app_nil_r. cbn [List.length].
              subst k. cbn [List.length].
              replace (n - 1 - Z.of_nat 0)%Z with (n - Z.of_nat 1)%Z by lia. reflexivity.
        -- inversion Hds as [|? ? _ Htl]; subst.
           eexists _, _. split; cycle 1.
           ++ rewrite <- !app_assoc.
              apply parse_number_parts
                with (s2 := [unit_dot] ++ digit_text (d2 :: more) ++ exponent_text (n - 1) ++ rest)
                     (s3 := exponent_text (n - 1) ++ rest).
              ** cbn [app digit_text map]. now apply digit_unit_not_minus.
              ** apply parse_int_digits; [|now left|reflexivity].
                 constructor; [assumption|constructor].
              ** cbn [app]. apply parse_frac_digits; [assumption|discriminate|reflexivity].
              ** now apply parse_exp_text.
           ++ cbn [app]. subst k.
              replace (n - 1 - Z.of_nat (List.length (d2 :: more)))%Z
                with (n - Z.of_nat (List.length (d :: d2 :: more)))%Z
                by (cbn [List.length]; lia).
              reflexivity.
Qed.

(** The text of a kept Number reads back as that Number. *)
Lemma parse_NumberToString (x : number) (rest : js_string) :
  kept_number x = true -> ends_number rest ->
  parse_number (NumberToString x ++ rest) = Some (x, rest).
Proof.
  intros Hx Hrest. destruct x as [| |[|]|neg m e]; try discriminate.
  - (* zero *)
    assert (P : parse_number ((if false then [unit_minus] else [])
                                ++ digit_text [0%Z] ++ rest)
                = Some (round_Q false (decimal (undigits ([0%Z] ++ []))
                                               (0 - Z.of_nat (List.length (@nil Z)))),
                        rest)).
    { apply (parse_number_parts false (digit_text [0%Z] ++ rest) rest rest rest
               [0%Z] [] 0).
      - reflexivity.
      - apply parse_int_digits; [|now right|now apply ends_number_no_digit].
        constructor; [lia|constructor].
      - apply parse_frac_none. destruct rest; cbn in *; tauto.
      - apply parse_exp_none. destruct rest; cbn in *; tauto. }
    exact P.
  - (* a finite one *)
    cbn [kept_number] in Hx. cbn [NumberToString].
    pose proof (shortest_decimal_reads m e Hx) as Hreads.
    pose proof (shortest_decimal_positive m e Hx) as Hpos.
    destruct (shortest_decimal m e) as [s j]. cbn [fst snd] in *.
    destruct (digits_head s Hpos) as (d & ds' & Hds & Hd).
    pose proof (digits_range s ltac:(lia)) as Hrange.
    pose proof (undigits_digits s ltac:(lia)) as Hback.
    rewrite Hds in *.
    destruct (format_decimal_reads neg d ds' (Z.of_nat (List.length (d :: ds')) + j)
                rest Hrange Hd Hrest) as (D & E & Hq & Hparse).
    rewrite <- app_assoc, Hparse. f_equal. f_equal.
    apply round_Q_sign.
    rewrite (round_Q_Qeq false _ _ Hq), Hback.
    replace (Z.of_nat (List.length (d :: ds')) + j - Z.of_nat (List.length (d :: ds')))%Z
      with j by lia.
    exact Hreads.
Qed.

Lemma NumberToString_head (x : number) :
  kept_number x = true ->
  exists c t, NumberToString x = c :: t /\ number_head c.
Proof.
  intros Hx. destruct x as [| |[|]|neg m e]; try discriminate.
  - exists 48%N, []. split; [reflexivity|left; reflexivity].
  - cbn [NumberToString].
    pose proof (shortest_decimal_positive m e Hx) as Hpos.
    destruct (shortest_decimal m e) as [s j]. cbn [fst] in Hpos.
    destruct neg.
    + eexists _, _. split; [reflexivity|right; reflexivity].
    + destruct (digits_head s Hpos) as (d & ds' & Hds & Hd).
      pose proof (digits_range s ltac:(lia)) as Hrange. rewrite Hds in *.
      inversion Hrange as [|? ? Hd9 _]; subst.
      destruct (digit_unit_value d Hd9) as [Hdig _].
      cbn [app]. unfold format_decimal.
      set (n := (Z.of_nat (List.length (d :: ds')) + j)%Z).
      assert (Hfirst : forall k, (0 < k)%nat ->
                exists more, firstn k (d :: ds') = d :: more).
      { intros [|k] Hk; [lia|]. cbn [firstn]. eauto. }
      destruct ((Z.of_nat (List.length (d :: ds')) <=? n) && (n <=? 21))%Z.
      * eexists _, _. split; [reflexivity|now left].
      * destruct ((0 <? n) && (n <=? 21))%Z eqn:CB.
        -- apply andb_prop in CB as [C1 _]. apply Z.ltb_lt in C1.
           destruct (Hfirst (Z.to_nat n)) as (more & Hmore); [lia|].
           rewrite Hmore.
           eexists _, _. split; [reflexivity|now left].
        -- destruct ((-6 <? n) && (n <=? 0))%Z.
           ++ eexists _, _. split; [reflexivity|left; reflexivity].
           ++ destruct ds'; eexists _, _; (split; [reflexivity|now left]).
Qed.

Lemma parse_value_number (fuel : nat) (c : code_unit) (t : js_string) :
  number_head c ->
  parse_value (S fuel) (c :: t)
  = match parse_number (c :: t) with
    | Some (x, rest) => Some (JNumber x, rest)
    | None => None
    end.
Proof.
  intros Hc.
  assert (H : N.eqb c 123 = false /\ N.eqb c 91 = false /\ N.eqb c unit_quote = false /\
              N.eqb 116 c = false /\ N.eqb 102 c = false /\ N.eqb 110 c = false).
  { unfold number_head, is_digit, unit_minus, unit_quote in *.
    destruct Hc as [Hc| ->]; [|repeat split; reflexivity].
    apply andb_prop in Hc as [H1 H2]. apply N.leb_le in H1, H2.
    repeat split; apply N.eqb_neq; lia. }
  destruct H as (H1 & H2 & H3 & H4 & H5 & H6).
  cbn [parse_value]. rewrite H1, H2, H3.
  change (lit "true") with (116%N :: lit "rue").
  change (lit "false") with (102%N :: lit "alse").
  change (lit "null") with (110%N :: lit "ull").
  cbn [strip_prefix]. rewrite H4, H5, H6. reflexivity.
Qed.

(** *** Objects *)

Lemma define_property_append (k : js_string) (v : json)
    (props : list (js_string * json)) :
  forallb (fun k' => negb (str_eqb k k') && negb (key_before k k')) (map fst props) = true ->
  define_property k v props = props ++ [(k, v)].
Proof.
  induction props as [|[k' v'] props IH]; cbn [define_property map forallb fst app];
    [reflexivity|].
  intros H. apply andb_prop in H as [H Hrest]. apply andb_prop in H as [H1 H2].
  apply negb_true_iff in H1, H2. rewrite H1, H2. now rewrite IH.
Qed.

Lemma ordered_keys_app (a : list js_string) (k : js_string) (b : list js_string) :
  ordered_keys (a ++ k :: b) = true ->
  forallb (fun k' => negb (str_eqb k k') && negb (key_before k k')) a = true.
Proof.
  induction a as [|k' a IH]; cbn [app ordered_keys forallb]; [reflexivity|].
  intros H. apply andb_prop in H as [H Hrest].
  rewrite forallb_app in H. apply andb_prop in H as [_ H].
  cbn [forallb] in H. apply andb_prop in H as [H _].
  rewrite H. now apply IH.
Qed.

(** Creating the properties of an object in the order of its keys gives
    the same property list. *)
Lemma object_of_ordered_entries (props : list (js_string * json)) :
  ordered_keys (map fst props) = true -> object_of_entries props = props.
Proof.
  unfold object_of_entries.
  enough (H : forall suffix prefix,
             ordered_keys (map fst (prefix ++ suffix)) = true ->
             fold_left (fun o kv => define_property (fst kv) (snd kv) o) suffix prefix
             = prefix ++ suffix).
  { intros Ho. apply (H props []). exact Ho. }
  induction suffix as [|[k v] suffix IH]; intros prefix Ho; cbn [fold_left fst snd].
  - now rewrite app_nil_r.
  - rewrite define_property_append.
    + rewrite IH; rewrite <- app_assoc; [reflexivity|exact Ho].
    + rewrite map_app in Ho. cbn [map fst] in Ho.
      eapply ordered_keys_app. exact Ho.
Qed.

(** The order of keys is an invariant of property creation: whatever
    the entries, the object made of them has its keys in order. *)

Lemma str_eqb_sym (a b : js_string) : str_eqb a b = str_eqb b a.
Proof.
  revert b; induction a as [|x a IH]; intros [|y b]; cbn [str_eqb]; try reflexivity.
  now rewrite N.eqb_sym, IH.
Qed.

Lemma key_before_asym (k k' : js_string) :
  key_before k k' = true -> key_before k' k = false.
Proof.
  unfold key_before.
  destruct (array_index k) as [i|], (array_index k') as [i'|]; try discriminate;
    try reflexivity.
  intros H. apply Z.ltb_lt in H. apply Z.ltb_ge. lia.
Qed.

Lemma key_before_later (k k' x : js_string) :
  key_before k k' = true -> key_before x k' = false ->
  key_before x k = false /\ str_eqb x k = false.
Proof.
  intros Hk Hx.
  assert (Hb : key_before x k = false).
  { unfold key_before in *.
    destruct (array_index k) as [i|]; [|discriminate].
    destruct (array_index x) as [j|]; [|reflexivity].
    destruct (array_index k') as [i'|]; [|discriminate].
    apply Z.ltb_lt in Hk. apply Z.ltb_ge in Hx. apply Z.ltb_ge. lia. }
  split; [exact Hb|].
  destruct (str_eqb x k) eqn:E; [|reflexivity].
  apply str_eqb_eq in E. subst x. congruence.
Qed.

Lemma define_property_keys (P : js_string -> bool) (k : js_string) (v : json)
    (props : list (js_string * json)) :
  P k = true -> forallb P (map fst props) = true ->
  forallb P (map fst (define_property k v props)) = true.
Proof.
  intros Hk. induction props as [|[k' v'] props IH]; cbn [define_property map fst forallb].
  - intros _. now rewrite Hk.
  - intros H. apply andb_prop in H as [H1 H2].
    destruct (str_eqb k k'); [cbn [map fst forallb]; now rewrite Hk, H2|].
    destruct (key_before k k'); cbn [map fst forallb].
    + now rewrite Hk, H1, H2.
    + now rewrite H1, IH.
Qed.

Lemma define_property_ordered (k : js_string) (v : json)
    (props : list (js_string * json)) :
  ordered_keys (map fst props) = true ->
  ordered_keys (map fst (define_property k v props)) = true.
Proof.
  induction props as [|[k' v'] props IH]; cbn [define_property map fst ordered_keys];
    [reflexivity|].
  intros H. apply andb_prop in H as [Hall Hord].
  destruct (str_eqb k k') eqn:Eeq.
  - apply str_eqb_eq in Eeq. subst k'. cbn [map fst ordered_keys]. now rewrite Hall, Hord.
  - destruct (key_before k k') eqn:Ebefore; cbn [map fst ordered_keys forallb].
    + rewrite Hall, Hord, (str_eqb_sym k' k), Eeq, (key_before_asym k k' Ebefore).
      cbn [negb andb]. rewrite !andb_true_r.
      apply forallb_forall. intros x Hx.
      rewrite forallb_forall in Hall. specialize (Hall x Hx).
      apply andb_prop in Hall as [_ Hb]. apply negb_true_iff in Hb.
      destruct (key_before_later k k' x Ebefore Hb) as [H1 H2].
      now rewrite H1, H2.
    + rewrite IH by assumption. rewrite andb_true_r.
      apply define_property_keys; [|assumption].
      now rewrite Eeq, Ebefore.
Qed.

Lemma object_of_entries_ordered (entries : list (js_string * json)) :
  ordered_keys (map fst (object_of_entries entries)) = true.
Proof.
  unfold object_of_entries.
  enough (H : forall props,
             ordered_keys (map fst props) = true ->
             ordered_keys
               (map fst (fold_left (fun o kv => define_property (fst kv) (snd kv) o)
                                   entries props)) = true).
  { apply H. reflexivity. }
  induction entries as [|[k v] entries IH]; intros props Hp; cbn [fold_left fst snd].
  - exact Hp.
  - apply IH. now apply define_property_ordered.
Qed.

(** *** Values *)

Lemma json_induction (P : json -> Prop) :
  P JNull -> (forall b, P (JBool b)) -> (forall x, P (JNumber x)) ->
  (forall s, P (JString s)) ->
  (forall items, Forall P items -> P (JArray items)) ->
  (forall props, Forall (fun kv => P (snd kv)) props -> P (JObject props)) ->
  forall v, P v.
Proof.
  intros Hnull Hbool Hnum Hstr Harr Hobj.
  fix IH 1. intros [| | | |items|props];
    [apply Hnull|apply Hbool|apply Hnum|apply Hstr| |].
  - apply Harr. induction items as [|x items IHl]; constructor; [apply IH|exact IHl].
  - apply Hobj. induction props as [|[k x] props IHl]; constructor;
      [apply IH|exact IHl].
Qed.

Lemma number_head_value_head (c : code_unit) : number_head c -> value_head c.
Proof.
  unfold number_head, value_head, is_digit, is_ws, unit_minus.
  intros [H| ->]; [|split; reflexivity].
  apply andb_prop in H as [H1 H2]. apply N.leb_le in H1, H2.
  split.
  - repeat (apply orb_false_intro); apply N.eqb_neq; lia.
  - apply N.eqb_neq; lia.
Qed.

Lemma serialize_head (v : json) (indent : js_string) :
  json_stable v = true ->
  exists c t, serialize [] indent v = c :: t /\ value_head c.
Proof.
  intros Hv. destruct v as [|[|]|x|s|items|props]; cbn [serialize].
  - eexists _, _. split; [reflexivity|split; reflexivity].
  - eexists _, _. split; [reflexivity|split; reflexivity].
  - eexists _, _. split; [reflexivity|split; reflexivity].
  - cbn [json_stable] in Hv.
    destruct (NumberToString_head x Hv) as (c & t & E & Hc).
    destruct x as [| |[|]|]; try discriminate;
      (exists c, t; split; [exact E|now apply number_head_value_head]).
  - eexists _, _. split; [reflexivity|split; reflexivity].
  - unfold enclose. destruct (map _ items);
      (eexists _, _; split; [reflexivity|split; reflexivity]).
  - unfold enclose. destruct (map _ props);
      (eexists _, _; split; [reflexivity|split; reflexivity]).
Qed.

Lemma skip_ws_head (c : code_unit) (t : js_string) :
  is_ws c = false -> skip_ws (c :: t) = c :: t.
Proof. intros H. cbn [skip_ws]. now rewrite H. Qed.

Lemma skip_ws_serialize (v : json) (indent rest : js_string) :
  json_stable v = true ->
  skip_ws (serialize [] indent v ++ rest) = serialize [] indent v ++ rest.
Proof.
  intros Hv. destruct (serialize_head v indent Hv) as (c & t & E & Hc & _).
  rewrite E. cbn [app]. now apply skip_ws_head.
Qed.

Lemma join_head (indent tail : js_string) (x : json) (items : list json) :
  json_stable x = true ->
  exists c t,
    join [44%N] (map (serialize [] indent) (x :: items)) ++ tail = c :: t /\ value_head c.
Proof.
  intros Hx. destruct (serialize_head x indent Hx) as (c & t & E & Hc).
  destruct items as [|y items]; cbn [map join]; rewrite E; cbn [app]; eauto.
Qed.

Lemma parse_array_text (fuel : nat) (c : code_unit) (t : js_string) :
  value_head c ->
  parse_value (S fuel) (91%N :: c :: t)
  = match parse_elements fuel (c :: t) with
    | Some (items, rest) => Some (JArray items, rest)
    | None => None
    end.
Proof.
  intros [H1 H2]. cbn [parse_value].
  change (N.eqb 91 123) with false. change (N.eqb 91 91) with true. cbv iota.
  rewrite skip_ws_head by assumption. now rewrite H2.
Qed.

Lemma parse_elements_join (indent rest : js_string) (items : list json) :
  items <> [] -> Forall reads_back items -> forallb json_stable items = true ->
  forall fuel,
    (list_sum (map (fun x => S (json_size x)) items) <= fuel)%nat ->
    parse_elements fuel (join [44%N] (map (serialize [] indent) items) ++ 93%N :: rest)
    = Some (items, rest).
Proof.
  induction items as [|x items IH]; [contradiction|]. intros _ Hall Hst fuel Hfuel.
  inversion Hall as [|? ? Hx Hitems]; subst.
  cbn [forallb] in Hst. apply andb_prop in Hst as [Hsx Hsitems].
  cbn [map list_sum fold_right] in Hfuel.
  destruct fuel as [|fuel]; [lia|].
  destruct items as [|y more].
  - cbn [map join parse_elements].
    rewrite (Hx Hsx indent fuel (93%N :: rest)) by (cbn; try lia; auto).
    reflexivity.
  - change (join [44%N] (map (serialize [] indent) (x :: y :: more)))
      with (serialize [] indent x ++ [44%N]
              ++ join [44%N] (map (serialize [] indent) (y :: more))).
    rewrite <- !app_assoc. cbn [parse_elements].
    rewrite (Hx Hsx indent fuel) by (cbn; try lia; auto).
    cbn [app skip_ws]. change (is_ws 44%N) with false. cbv iota.
    change (N.eqb 44 44) with true. cbv iota.
    assert (Hsy : json_stable y = true).
    { cbn [forallb] in Hsitems. now apply andb_prop in Hsitems as [? _]. }
    destruct (join_head indent (93%N :: rest) y more Hsy) as (c & t & E & Hc & _).
    pose proof (f_equal skip_ws E) as Hskip.
    rewrite skip_ws_head in Hskip by assumption. rewrite <- E in Hskip.
    match goal with
    | |- context [skip_ws ?text] => replace (skip_ws text) with text by (symmetry; exact Hskip)
    end.
    rewrite IH; [reflexivity|discriminate|assumption|assumption|].
    cbn [map list_sum fold_right] in *. lia.
Qed.

Lemma member_text_cons (indent tail : js_string) (k : js_string) (v : json) :
  member_text indent (k, v) ++ tail
  = unit_quote :: quote_chars k ++ unit_quote :: 58%N :: (serialize [] indent v ++ tail).
Proof.
  unfold member_text, QuoteJSONString. cbn [fst snd app].
  rewrite <- !app_assoc. reflexivity.
Qed.

Lemma parse_object_text (fuel : nat) (t : js_string) :
  parse_value (S fuel) (123%N :: unit_quote :: t)
  = match parse_members fuel (unit_quote :: t) with
    | Some (entries, rest) => Some (JObject (object_of_entries entries), rest)
    | None => None
    end.
Proof. reflexivity. Qed.

Lemma parse_members_join (indent rest : js_string) (props : list (js_string * json)) :
  props <> [] -> Forall (fun kv => reads_back (snd kv)) props ->
  forallb (fun kv => json_stable (snd kv)) props = true ->
  forall fuel,
    (list_sum (map (fun kv => S (json_size (snd kv))) props) <= fuel)%nat ->
    parse_members fuel (join [44%N] (map (member_text indent) props) ++ 125%N :: rest)
    = Some (props, rest).
Proof.
  induction props as [|[k v] props IH]; [contradiction|]. intros _ Hall Hst fuel Hfuel.
  inversion Hall as [|? ? Hv Hprops]; subst. cbn [snd] in Hv.
  cbn [forallb snd] in Hst. apply andb_prop in Hst as [Hsv Hsprops].
  cbn [map list_sum fold_right snd] in Hfuel.
  destruct fuel as [|fuel]; [lia|].
  destruct props as [|[k2 v2] more].
  - cbn [map join]. rewrite member_text_cons. cbn [parse_members].
    change (N.eqb unit_quote unit_quote) with true. cbv iota.
    rewrite parse_quote_chars. cbn [skip_ws].
    change (is_ws 58%N) with false. cbv iota. change (N.eqb 58 58) with true. cbv iota.
    rewrite skip_ws_serialize by assumption.
    rewrite (Hv Hsv indent fuel (125%N :: rest)) by (cbn; try lia; auto).
    reflexivity.
  - change (join [44%N] (map (member_text indent) ((k, v) :: (k2, v2) :: more)))
      with (member_text indent (k, v) ++ [44%N]
              ++ join [44%N] (map (member_text indent) ((k2, v2) :: more))).
    rewrite <- !app_assoc. rewrite member_text_cons. cbn [parse_members].
    change (N.eqb unit_quote unit_quote) with true. cbv iota.
    rewrite parse_quote_chars. cbn [skip_ws].
    change (is_ws 58%N) with false. cbv iota. change (N.eqb 58 58) with true. cbv iota.
    rewrite skip_ws_serialize by assumption.
    rewrite (Hv Hsv indent fuel) by (cbn; try lia; auto).
    cbn [app skip_ws]. change (is_ws 44%N) with false. cbv iota.
    change (N.eqb 44 44) with true. cbv iota.
    assert (E : exists t, join [44%N] (map (member_text indent) ((k2, v2) :: more))
                            ++ 125%N :: rest = unit_quote :: t).
    { destruct more; cbn [map join]; rewrite <- ?app_assoc, member_text_cons; eauto. }
    destruct E as (t & E).
    pose proof (f_equal skip_ws E) as Hskip.
    rewrite skip_ws_head in Hskip by reflexivity. rewrite <- E in Hskip.
    match goal with
    | |- context [skip_ws ?text] => replace (skip_ws text) with text by (symmetry; exact Hskip)
    end.
    rewrite IH; [reflexivity|discriminate|assumption|assumption|].
    cbn [map list_sum fold_right snd] in *. lia.
Qed.

(** Every value that JSON text keeps is read back from its compact text. *)
Lemma serialize_reads_back (v : json) : reads_back v.
Proof.
  induction v as [|b|x|s|items IH|props IH] using json_induction;
    intros Hv indent fuel rest Hfuel Hrest;
    (destruct fuel as [|fuel]; [cbn in Hfuel; lia|]).
  - reflexivity.
  - destruct b; reflexivity.
  - cbn [json_stable] in Hv.
    assert (E : serialize [] indent (JNumber x) = NumberToString x).
    { destruct x as [| |[|]|]; try discriminate; reflexivity. }
    rewrite E.
    destruct (NumberToString_head x Hv) as (c & t & Ex & Hc).
    pose proof (parse_NumberToString x rest Hv (follows_value_ends_number rest Hrest)) as P.
    rewrite Ex in *. cbn [app] in *.
    rewrite parse_value_number by assumption. now rewrite P.
  - cbn [serialize]. unfold QuoteJSONString. cbn [app parse_value].
    change (N.eqb unit_quote 123) with false. change (N.eqb unit_quote 91) with false.
    change (N.eqb unit_quote unit_quote) with true. cbv iota.
    rewrite <- app_assoc. cbn [app]. now rewrite parse_quote_chars.
  - cbn [json_stable] in Hv. destruct items as [|x items]; [reflexivity|].
    change (serialize [] indent (JArray (x :: items)))
      with ([91%N] ++ join [44%N] (map (serialize [] (indent ++ [])) (x :: items))
              ++ [93%N]).
    rewrite <- !app_assoc. cbn [app].
    assert (Hsx : json_stable x = true).
    { cbn [forallb] in Hv. now apply andb_prop in Hv as [? _]. }
    destruct (join_head (indent ++ []) (93%N :: rest) x items Hsx) as (c & t & E & Hc).
    pose proof (parse_array_text fuel c t Hc) as Harr. rewrite <- E in Harr.
    rewrite (parse_elements_join (indent ++ []) rest (x :: items)) in Harr;
      [exact Harr|discriminate|assumption|assumption|].
    cbn [json_size] in Hfuel. lia.
  - cbn [json_stable] in Hv. apply andb_prop in Hv as [Hord Hst].
    destruct props as [|[k x] props]; [reflexivity|].
    change (serialize [] indent (JObject ((k, x) :: props)))
      with ([123%N] ++ join [44%N] (map (member_text (indent ++ [])) ((k, x) :: props))
              ++ [125%N]).
    rewrite <- !app_assoc. cbn [app].
    assert (E : exists t, join [44%N] (map (member_text (indent ++ [])) ((k, x) :: props))
                            ++ 125%N :: rest = unit_quote :: t).
    { destruct props; cbn [map join]; rewrite <- ?app_assoc, member_text_cons; eauto. }
    destruct E as (t & E).
    pose proof (parse_object_text fuel t) as Hobj. rewrite <- E in Hobj.
    rewrite (parse_members_join (indent ++ []) rest ((k, x) :: props)) in Hobj;
      [|discriminate|assumption|assumption|].
    + rewrite object_of_ordered_entries in Hobj by assumption. exact Hobj.
    + cbn [json_size] in Hfuel. lia.
Qed.

Lemma join_length_bound (indent : js_string) (items : list json) :
  Forall (fun x => json_stable x = true ->
                   (json_size x <= List.length (serialize [] indent x))%nat) items ->
  forallb json_stable items = true ->
  (list_sum (map (fun x => S (json_size x)) items)
   <= S (List.length (join [44%N] (map (serialize [] indent) items))))%nat.
Proof.
  induction items as [|x items IH]; intros Hall Hst.
  - cbn. lia.
  - inversion Hall as [|? ? Hx Hitems]; subst.
    cbn [forallb] in Hst. apply andb_prop in Hst as [Hsx Hsitems].
    specialize (IH Hitems Hsitems). specialize (Hx Hsx).
    cbn [map list_sum fold_right] in *.
    destruct items as [|y more].
    + cbn [map join list_sum fold_right]. unfold list_sum, js_string, code_unit in *. lia.
    + change (join [44%N] (serialize [] indent x :: map (serialize [] indent) (y :: more)))
        with (serialize [] indent x ++ [44%N]
                ++ join [44%N] (map (serialize [] indent) (y :: more))).
      rewrite !length_app. cbn [List.length]. unfold list_sum, js_string, code_unit in *. lia.
Qed.

Lemma member_length_bound (indent : js_string) (props : list (js_string * json)) :
  Forall (fun kv => json_stable (snd kv) = true ->
                    (json_size (snd kv)
                     <= List.length (serialize [] indent (snd kv)))%nat) props ->
  forallb (fun kv => json_stable (snd kv)) props = true ->
  (list_sum (map (fun kv => S (json_size (snd kv))) props)
   <= S (List.length (join [44%N] (map (member_text indent) props))))%nat.
Proof.
  induction props as [|[k x] props IH]; intros Hall Hst.
  - cbn. lia.
  - inversion Hall as [|? ? Hx Hprops]; subst.
    cbn [forallb snd] in Hst. apply andb_prop in Hst as [Hsx Hsprops].
    specialize (IH Hprops Hsprops). cbn [snd] in Hx. specialize (Hx Hsx).
    assert (Hm : (List.length (serialize [] indent x)
                  <= List.length (member_text indent (k, x)))%nat).
    { unfold member_text. cbn [fst snd]. rewrite !length_app. lia. }
    cbn [map list_sum fold_right snd] in *.
    destruct props as [|kv more].
    + cbn [map join list_sum fold_right]. unfold list_sum, js_string, code_unit in *. lia.
    + change (join [44%N] (member_text indent (k, x)
                             :: map (member_text indent) (kv :: more)))
        with (member_text indent (k, x) ++ [44%N]
                ++ join [44%N] (map (member_text indent) (kv :: more))).
      rewrite !length_app. cbn [List.length]. unfold list_sum, js_string, code_unit in *. lia.
Qed.

(** The fuel [JSON_parse] takes from the length of a text is enough for
    the text of a value. *)
Lemma json_size_length (v : json) (indent : js_string) :
  json_stable v = true ->
  (json_size v <= List.length (serialize [] indent v))%nat.
Proof.
  revert indent.
  induction v as [|b|x|s|items IH|props IH] using json_induction; intros indent Hv;
    try (destruct (serialize_head _ indent Hv) as (c & t & E & _); rewrite E;
         cbn [json_size List.length]; lia).
  - cbn [json_stable] in Hv. cbn [json_size].
    destruct items as [|x items]; [cbn; lia|].
    change (serialize [] indent (JArray (x :: items)))
      with ([91%N] ++ join [44%N] (map (serialize [] (indent ++ [])) (x :: items))
              ++ [93%N]).
    rewrite !length_app. cbn [List.length].
    pose proof (join_length_bound (indent ++ []) (x :: items)) as Hb.
    assert (Hb' := Hb (Forall_impl _ (fun a H => H (indent ++ [])) IH) Hv).
    unfold list_sum, js_string, code_unit in *. lia.
  - cbn [json_stable] in Hv. apply andb_prop in Hv as [_ Hst]. cbn [json_size].
    destruct props as [|kv props]; [cbn; lia|].
    change (serialize [] indent (JObject (kv :: props)))
      with ([123%N] ++ join [44%N] (map (member_text (indent ++ [])) (kv :: props))
              ++ [125%N]).
    rewrite !length_app. cbn [List.length].
    pose proof (member_length_bound (indent ++ []) (kv :: props)) as Hb.
    assert (Hb' := Hb (Forall_impl _ (fun a H => H (indent ++ [])) IH) Hst).
    unfold list_sum, js_string, code_unit in *. lia.
Qed.

(** [JSON.parse(JSON.stringify(v))] is [v] for every value JSON text keeps. *)
Lemma JSON_parse_stringify (v : json) :
  json_stable v = true -> JSON_parse (JSON_stringify v 0) = Some v.
Proof.
  intros Hv. change (JSON_stringify v 0) with (serialize [] [] v).
  unfold JSON_parse.
  pose proof (skip_ws_serialize v [] [] Hv) as Hskip. rewrite app_nil_r in Hskip.
  rewrite Hskip.
  pose proof (serialize_reads_back v Hv [] (S (List.length (serialize [] [] v))) []) as P.
  rewrite app_nil_r in P. rewrite P; [reflexivity| |exact I].
  pose proof (json_size_length v [] Hv). lia.
Qed.

(** *** The default normalizer on native values *)



(* ================================================================== *)
(** ** A logged context, read back *)
(* ================================================================== *)






(** The scenario that closes section 8: an error logged with the minimum
    info and no timestamp, and the line rendered. *)
Example end_to_end_scenario :
  let logger :=
    new_Logger {| opt_minLogLevel := Some (lit "info");
                  opt_includeTimestamp := Some false;
                  opt_formatLog := None; opt_jsonValueSerializer := None |} in
  let line :=
    text "{'level':'error','level_n':4,'namespace':'my-app.db','message':'Could not connect','context':{'retries':3}}" in
  emit logger error (lit "my-app.db") (lit "Could not connect")
       [ (lit "retries", VNumber (number_of_Z 3)) ] (lit "2025-01-01T00:00:00.000Z") []
  = [line] /\
  prettyPrintLogObject no_color line
  = lit "ERROR > [my-app.db] Could not connect" ++ [LF]
      ++ lit "{" ++ [LF] ++ text "  'retries': 3" ++ [LF] ++ lit "}".
Proof. split; vm_compute; reflexivity. Qed.

(* ================================================================== *)
(** ** More on the read loop of [main] *)
(* ================================================================== *)

Lemma split_length (sep : code_unit) (s : js_string) :
  List.length (split sep s) = S (count_occ N.eq_dec s sep).
Proof.
  unfold js_string, code_unit in *.
  induction s as [|c s IH]; [reflexivity|].
  cbn [split]. destruct (N.eqb_spec c sep) as [E|E].
  - rewrite (count_occ_cons_eq N.eq_dec s E). cbn [List.length]. now rewrite IH.
  - rewrite (count_occ_cons_neq N.eq_dec s E).
    destruct (split sep s) as [|piece pieces]; [discriminate IH|exact IH].
Qed.

Lemma removelast_length {A : Type} (l : list A) :
  List.length (removelast l) = Nat.pred (List.length l).
Proof.
  induction l as [|x [|y l] IH]; try reflexivity.
  change (removelast (x :: y :: l)) with (x :: removelast (y :: l)).
  cbn [List.length]. rewrite IH. reflexivity.
Qed.

Lemma split_sep_end (sep : code_unit) (p : js_string) :
  ~ In sep p -> split sep (p ++ [sep]) = [p; []].
Proof.
  induction p as [|c p IH]; intros Hp.
  - cbn. now rewrite N.eqb_refl.
  - cbn [app split]. destruct (N.eqb_spec c sep) as [E|E].
    + exfalso. apply Hp. now left.
    + rewrite IH; [reflexivity|]. intros H. apply Hp. now right.
Qed.

(** The whole loop from the whole text: the lines are the pieces but the
    last, the pending text is the last piece. *)
Lemma main_whole (colors : Colors) (chunks : list (list byte)) :
  main colors chunks
  = map (prettyPrintLogObject colors)
        (removelast (split LF (List.concat (map TextDecoder_decode chunks)))).
Proof.
  rewrite main_renders_lines, main_lines_assemble.
  now rewrite (assemble_whole _ TextDecoder_decode chunks []) by (simpl; auto).
Qed.

Lemma main_loop_pending {chunk out : Type} (decode : chunk -> js_string)
    (handle : js_string -> out) (chunks : list chunk) :
  partial (main_loop decode handle chunks)
  = last (split LF (List.concat (map decode chunks))) [].
Proof.
  unfold main_loop.
  enough (H : forall st : loop_state out,
             ~ In LF (partial st) ->
             partial (fold_left (main_step decode handle) chunks st)
             = last (split LF (partial st ++ List.concat (map decode chunks))) []).
  { apply (H {| partial := []; handled := [] |}). simpl; auto. }
  induction chunks as [|c chunks IH]; intros st Hst; simpl.
  - rewrite app_nil_r, split_no_sep by assumption. reflexivity.
  - rewrite IH.
    + rewrite main_step_spec. simpl.
      rewrite app_assoc, (split_app LF (partial st ++ decode c)).
      rewrite last_app_r by apply split_not_nil. reflexivity.
    + rewrite main_step_spec. simpl. apply split_last_no_sep.
Qed.

(** X1.  [main] calls [prettyPrintLogObject] once for every line feed of
    the decoded input, no more and no less: what it prints has as many
    entries as the decoded chunks hold line feeds. *)
Theorem main_prints_once_per_line_feed (colors : Colors) (chunks : list (list byte)) :
  List.length (main colors chunks)
  = count_occ N.eq_dec (List.concat (map TextDecoder_decode chunks)) LF.
Proof.
  rewrite main_whole, length_map, removelast_length, split_length.
  reflexivity.
Qed.

(** X2.  The text after the last line feed is held in [partial] and is
    not printed when the input ends; it is printed, as one line, as soon
    as a chunk brings a line feed, and a chunk with no byte changes
    nothing. *)
Theorem pending_text_waits_for_line_feed (colors : Colors) (chunks : list (list byte)) :
  main colors (chunks ++ [[x0a]])
  = main colors chunks
      ++ [prettyPrintLogObject colors
            (partial (main_loop TextDecoder_decode (prettyPrintLogObject colors) chunks))] /\
  main colors (chunks ++ [[]]) = main colors chunks /\
  ~ In LF (partial (main_loop TextDecoder_decode (prettyPrintLogObject colors) chunks)).
Proof.
  rewrite main_loop_pending.
  set (whole := List.concat (map TextDecoder_decode chunks)).
  split; [|split].
  - rewrite !main_whole, map_app, concat_app. fold whole.
    change (List.concat (map TextDecoder_decode [[x0a]])) with [LF].
    rewrite (split_app LF whole [LF]).
    rewrite (split_sep_end LF _ (split_last_no_sep LF whole)).
    rewrite removelast_app by discriminate.
    cbn [removelast]. rewrite map_app. reflexivity.
  - rewrite !main_whole, map_app, concat_app. fold whole.
    change (List.concat (map TextDecoder_decode [[]])) with (@nil code_unit).
    now rewrite app_nil_r.
  - apply split_last_no_sep.
Qed.

Lemma strip_bom_other (a : N) (r : list N) : a <> 239%N -> strip_bom (a :: r) = a :: r.
Proof.
  intros H. unfold strip_bom. destruct a as [|p]; [reflexivity|].
  do 8 (destruct p as [p|p|]; try reflexivity).
  exfalso. apply H. reflexivity.
Qed.

Lemma utf8_run_ascii (ns : list N) :
  Forall (fun n => (n < 128)%N) ns -> utf8_run utf8_idle ns = ns.
Proof.
  induction 1 as [|n ns Hn _ IH]; [reflexivity|].
  cbn [utf8_run utf8_byte utf8_idle u_needed]. unfold utf8_lead.
  replace (n <=? 127)%N with true by (symmetry; apply N.leb_le; lia).
  cbn [app]. f_equal. exact IH.
Qed.

(** Is every byte of the chunk an ASCII one? *)
Definition ascii_bytes (c : list byte) : bool :=
  forallb (fun b => (Byte.to_N b <? 128)%N) c.

Lemma decode_ascii (c : list byte) :
  ascii_bytes c = true -> TextDecoder_decode c = map Byte.to_N c.
Proof.
  intros H. unfold TextDecoder_decode.
  assert (Hall : Forall (fun n => (n < 128)%N) (map Byte.to_N c)).
  { apply Forall_map, Forall_forall. intros b Hb.
    unfold ascii_bytes in H. rewrite forallb_forall in H.
    apply N.ltb_lt, H, Hb. }
  destruct (map Byte.to_N c) as [|a r] eqn:E; [reflexivity|].
  rewrite strip_bom_other.
  - now apply utf8_run_ascii.
  - inversion Hall; subst. lia.
Qed.

Lemma decode_ascii_chunks (chunks : list (list byte)) :
  forallb ascii_bytes chunks = true ->
  List.concat (map TextDecoder_decode chunks) = map Byte.to_N (List.concat chunks).
Proof.
  induction chunks as [|c chunks IH]; [reflexivity|].
  cbn [forallb map List.concat]. intros H. apply andb_prop in H as [Hc Hr].
  now rewrite map_app, decode_ascii, IH.
Qed.

(** X3.  On ASCII input what [main] prints depends on the bytes only,
    not on how the reader cuts them into chunks: two sequences of chunks
    with the same bytes in the same order print the same. *)
Theorem ascii_chunking_is_irrelevant (colors : Colors) (chunks chunks' : list (list byte)) :
  forallb ascii_bytes chunks = true ->
  forallb ascii_bytes chunks' = true ->
  List.concat chunks = List.concat chunks' ->
  main colors chunks = main colors chunks'.
Proof.
  intros H H' E.
  rewrite !main_whole, !decode_ascii_chunks by assumption.
  now rewrite E.
Qed.

Lemma ascii_chunking_is_irrelevant_witness :
  main ansi_color [[x7b; x7d]; [x0a; x61]; [x0a]]
  = main ansi_color [[x7b]; [x7d; x0a; x61; x0a]].
Proof.
  apply ascii_chunking_is_irrelevant; reflexivity.
Defined.

(** The bytes whose number lies in a range. *)
Definition bytes_between (lo : N) (count : nat) : list byte :=
  flat_map (fun k => match Byte.of_N (lo + N.of_nat k) with
                     | Some b => [b]
                     | None => []
                     end) (seq 0 count).

Lemma bytes_between_in (lo : N) (count : nat) (b : byte) :
  (lo <= Byte.to_N b < lo + N.of_nat count)%N -> In b (bytes_between lo count).
Proof.
  intros H. unfold bytes_between. apply in_flat_map.
  exists (N.to_nat (Byte.to_N b - lo)). split.
  - apply in_seq. lia.
  - replace (lo + N.of_nat (N.to_nat (Byte.to_N b - lo)))%N with (Byte.to_N b) by lia.
    rewrite Byte.of_to_N. now left.
Qed.

(** What [main] reads of a character of two bytes followed by a line
    feed, whole and cut between its bytes. *)
Definition two_bytes_check (b1 b2 : byte) : bool :=
  let c := ((Byte.to_N b1 - 192) * 64 + (Byte.to_N b2 - 128))%N in
  match main_lines [[b1; b2; x0a]], main_lines [[b1]; [b2; x0a]] with
  | [whole], [cut] =>
      str_eqb whole [c] && str_eqb cut [REPLACEMENT; REPLACEMENT]
  | _, _ => false
  end.

Lemma two_bytes_table :
  forallb (fun b1 => forallb (two_bytes_check b1) (bytes_between 128 64))
          (bytes_between 194 30) = true.
Proof. vm_compute. reflexivity. Qed.

(** X4.  The decoder is asked for each chunk by itself, so a character
    whose two bytes fall into two chunks is lost: whole, the bytes are
    read as the one character they encode; cut between them, each half
    is read as U+FFFD. *)
Theorem cut_character_is_replaced (b1 b2 : byte) :
  (194 <= Byte.to_N b1 <= 223)%N ->
  (128 <= Byte.to_N b2 <= 191)%N ->
  main_lines [[b1; b2; x0a]]
  = [[((Byte.to_N b1 - 192) * 64 + (Byte.to_N b2 - 128))%N]] /\
  main_lines [[b1]; [b2; x0a]] = [[REPLACEMENT; REPLACEMENT]] /\
  main_lines [[b1; b2; x0a]] <> main_lines [[b1]; [b2; x0a]].
Proof.
  intros H1 H2.
  pose proof two_bytes_table as T.
  rewrite forallb_forall in T.
  specialize (T b1 (bytes_between_in 194 30 b1 ltac:(lia))).
  rewrite forallb_forall in T.
  specialize (T b2 (bytes_between_in 128 64 b2 ltac:(lia))).
  unfold two_bytes_check in T.
  destruct (main_lines [[b1; b2; x0a]]) as [|whole [|]]; try discriminate T.
  destruct (main_lines [[b1]; [b2; x0a]]) as [|cut [|]]; try discriminate T.
  apply andb_prop in T as [Tw Tc].
  apply str_eqb_eq in Tw, Tc. subst whole cut.
  repeat split. discriminate.
Qed.

Lemma cut_character_is_replaced_witness :
  main_lines [[xc3; xa9; x0a]] = [[233%N]] /\
  main_lines [[xc3]; [xa9; x0a]] = [[REPLACEMENT; REPLACEMENT]] /\
  main_lines [[xc3; xa9; x0a]] <> main_lines [[xc3]; [xa9; x0a]].
Proof.
  apply (cut_character_is_replaced xc3 xa9); simpl; lia.
Defined.

(* ================================================================== *)
(** ** More on [prettyPrintLogObject] *)
(* ================================================================== *)

Lemma skip_ws_blank (s : js_string) : forallb is_ws s = true -> skip_ws s = [].
Proof.
  induction s as [|c s IH]; [reflexivity|].
  cbn [forallb skip_ws]. intros H. apply andb_prop in H as [Hc Hs].
  rewrite Hc. now apply IH.
Qed.

Lemma level_tag_unknown (colors : Colors) (level : js_string) :
  ~ In level (map fst tags) -> level_tag colors level = [].
Proof.
  intros H. unfold level_tag.
  repeat match goal with
  | |- context [str_eqb level ?l] =>
      let E := fresh "E" in
      destruct (str_eqb level l) eqn:E;
      [apply str_eqb_eq in E; exfalso; apply H; subst level; cbn; tauto|clear E]
  end.
  reflexivity.
Qed.

(** X5.  The [switch] on the level has no default: a record whose level
    is a string other than the six names is still rendered as a record,
    with no tag, its first line beginning with the bracket of the
    namespace. *)
Theorem unknown_level_has_no_tag (colors : Colors) (line : js_string) (json : json)
    (level : js_string) :
  JSON_parse line = Some json ->
  isLogObject json = true ->
  PrettyPrint.get json (lit "level") = Some (JString level) ->
  ~ In level (map fst tags) ->
  exists ns m c,
    PrettyPrint.get json (lit "namespace") = Some (JString ns) /\
    PrettyPrint.get json (lit "message") = Some (JString m) /\
    PrettyPrint.get json (lit "context") = Some c /\
    prettyPrintLogObject colors line
    = lit "[" ++ cyan colors ns ++ lit "] " ++ white colors m ++ [LF]
        ++ gray colors (JSON_stringify c 2).
Proof.
  intros Hparse Hlog Hlevel Hunknown.
  pose proof Hlog as Hshape. apply isLogObject_shape in Hshape.
  destruct Hshape as (props & l & n & ns & m & c & -> & Hl & Hn & Hns & Hm & Hc & Hobj).
  cbn [PrettyPrint.get] in Hlevel. rewrite Hl in Hlevel. injection Hlevel as ->.
  exists ns, m, c. cbn [PrettyPrint.get].
  repeat split; try assumption.
  rewrite (render_record colors line props level ns m c) by assumption.
  now rewrite level_tag_unknown.
Qed.

Lemma unknown_level_has_no_tag_witness :
  exists ns m c,
    PrettyPrint.get
      (JObject [ (lit "level", JString (lit "verbose"));
                 (lit "level_n", JNumber (Zero false));
                 (lit "namespace", JString (lit "n"));
                 (lit "message", JString (lit "m"));
                 (lit "context", JArray []) ]) (lit "namespace") = Some (JString ns) /\
    PrettyPrint.get
      (JObject [ (lit "level", JString (lit "verbose"));
                 (lit "level_n", JNumber (Zero false));
                 (lit "namespace", JString (lit "n"));
                 (lit "message", JString (lit "m"));
                 (lit "context", JArray []) ]) (lit "message") = Some (JString m) /\
    PrettyPrint.get
      (JObject [ (lit "level", JString (lit "verbose"));
                 (lit "level_n", JNumber (Zero false));
                 (lit "namespace", JString (lit "n"));
                 (lit "message", JString (lit "m"));
                 (lit "context", JArray []) ]) (lit "context") = Some c /\
    prettyPrintLogObject ansi_color
      (text "{'level':'verbose','level_n':0,'namespace':'n','message':'m','context':[]}")
    = lit "[" ++ cyan ansi_color ns ++ lit "] " ++ white ansi_color m ++ [LF]
        ++ gray ansi_color (JSON_stringify c 2).
Proof.
  apply (unknown_level_has_no_tag ansi_color
           (text "{'level':'verbose','level_n':0,'namespace':'n','message':'m','context':[]}")
           _ (lit "verbose")).
  - vm_compute. reflexivity.
  - vm_compute. reflexivity.
  - vm_compute. reflexivity.
  - vm_compute. intros H. repeat (destruct H as [H|H]; [discriminate H|]). exact H.
Defined.

(** X6.  A line of white space only, the empty line among them, is not
    JSON: it is printed as it is, in gray. *)
Theorem blank_line_is_reprinted (colors : Colors) (line : js_string) :
  forallb is_ws line = true ->
  JSON_parse line = None /\
  prettyPrintLogObject colors line = gray colors line.
Proof.
  intros H.
  assert (E : JSON_parse line = None).
  { unfold JSON_parse. now rewrite (skip_ws_blank line H). }
  split; [exact E|]. unfold prettyPrintLogObject. now rewrite E.
Qed.

Lemma blank_line_is_reprinted_witness :
  JSON_parse [] = None /\ prettyPrintLogObject ansi_color [] = gray ansi_color [].
Proof.
  apply (blank_line_is_reprinted ansi_color []). reflexivity.
Defined.

(* ================================================================== *)
(** ** The logger of the source *)
(* ================================================================== *)

(** *** Which levels a logger lets through *)

Ltac level_cases level :=
  repeat match goal with
  | |- context [str_eqb ?l level] =>
      let E := fresh "E" in
      destruct (str_eqb l level) eqn:E;
      [apply str_eqb_eq in E; subst level|]
  end.

Lemma supported_from_index (m : Z) (level : js_string) :
  Mod.includes
    (Mod.filter_index (fun i => (m <=? i)%Z) 0 Mod.LOG_LEVELS) level = true
  <-> (0 <= Mod.indexOf Mod.LOG_LEVELS level)%Z /\
      (m <= Mod.indexOf Mod.LOG_LEVELS level)%Z.
Proof.
  unfold Mod.LOG_LEVELS, Mod.indexOf.
  cbn [Mod.filter_index Mod.indexOf_from Z.add Pos.add Pos.succ].
  level_cases level;
    repeat match goal with
    | |- context [(m <=? ?k)%Z] => destruct (Z.leb_spec m k)
    end;
    cbn [Mod.includes existsb];
    repeat match goal with
    | E : str_eqb _ level = false |- _ => rewrite E; clear E
    end;
    try (exfalso; lia);
    cbn;
    (split;
     [ let A := fresh "A" in intros A; try discriminate A; split; lia
     | let A := fresh "A" in let B := fresh "B" in
       intros [A B]; try reflexivity; lia ]).
Qed.

(** X7.  A logger lets a level through exactly when the level is one of
    [LOG_LEVELS] and stands there at or after the configured minimum
    ([trace] when none is configured); [indexOf] is [-1] for a string that
    is no level. *)
Theorem supported_iff_index (fuel : nat) (configuration : Mod.LoggerConfiguration)
    (level : js_string) :
  Mod.includes (Mod.supportedLogLevels (Mod.new_Logger fuel configuration)) level = true
  <-> (0 <= Mod.indexOf Mod.LOG_LEVELS level)%Z /\
      (Mod.indexOf Mod.LOG_LEVELS
         (nullish (Mod.minLogLevel configuration) (lit "trace"))
       <= Mod.indexOf Mod.LOG_LEVELS level)%Z.
Proof.
  unfold Mod.new_Logger. cbn [Mod.supportedLogLevels].
  apply supported_from_index.
Qed.

Lemma indexOf_unknown (name : js_string) :
  Mod.includes Mod.LOG_LEVELS name = false ->
  Mod.indexOf Mod.LOG_LEVELS name = (-1)%Z.
Proof.
  unfold Mod.LOG_LEVELS, Mod.indexOf, Mod.includes.
  cbn [existsb Mod.indexOf_from]. intros H.
  repeat match goal with
  | |- context [str_eqb ?l name] =>
      let E := fresh "E" in
      destruct (str_eqb l name) eqn:E; [rewrite ?orb_true_r in H; discriminate H|]
  end.
  reflexivity.
Qed.

(** X8.  The levels a logger lets through are a tail of [LOG_LEVELS]:
    all six when no minimum is configured or when the configured string is
    no level, and otherwise the levels from the minimum on. *)
Theorem supported_levels_are_a_tail (fuel : nat) (configuration : Mod.LoggerConfiguration) :
  Mod.supportedLogLevels (Mod.new_Logger fuel configuration)
  = match Mod.minLogLevel configuration with
    | None => Mod.LOG_LEVELS
    | Some name =>
        if Mod.includes Mod.LOG_LEVELS name
        then skipn (Z.to_nat (Mod.indexOf Mod.LOG_LEVELS name)) Mod.LOG_LEVELS
        else Mod.LOG_LEVELS
    end.
Proof.
  unfold Mod.new_Logger. cbn [Mod.supportedLogLevels].
  destruct (Mod.minLogLevel configuration) as [name|]; cbn [nullish]; [|reflexivity].
  destruct (Mod.includes Mod.LOG_LEVELS name) eqn:Hin.
  - unfold Mod.LOG_LEVELS, Mod.indexOf, Mod.includes in *.
    cbn [existsb Mod.indexOf_from] in *.
    repeat match goal with
    | |- context [str_eqb ?l name] =>
        let E := fresh "E" in
        destruct (str_eqb l name) eqn:E; [reflexivity|]
    end.
    discriminate Hin.
  - rewrite (indexOf_unknown name Hin). reflexivity.
Qed.

Lemma indexOf_configured_rank (name : js_string) :
  Mod.indexOf Mod.LOG_LEVELS name = configured_rank name.
Proof.
  unfold configured_rank, level_of_name, LOG_LEVELS, Mod.LOG_LEVELS, Mod.indexOf.
  cbn [find level_name Mod.indexOf_from].
  repeat match goal with
  | |- context [str_eqb ?l name] =>
      let E := fresh "E" in
      destruct (str_eqb l name) eqn:E;
      [apply str_eqb_eq in E; subst name; reflexivity
      |rewrite (str_eqb_sym name l), E]
  end.
  reflexivity.
Qed.

Lemma indexOf_level_name (l : LogLevel) :
  Mod.indexOf Mod.LOG_LEVELS (level_name l) = rank l.
Proof. destruct l; reflexivity. Qed.

(** X9.  The test of the source is the comparison of ranks the
    specification describes: for each of the six levels and any
    configured minimum (a level, another string, or none, which stands
    for [trace]), the level is let through exactly when [isEnabled] holds;
    the index of a level in [LOG_LEVELS] is its rank. *)
Theorem supported_agrees_with_isEnabled (fuel : nat)
    (configuration : Mod.LoggerConfiguration) (l : LogLevel) :
  Mod.includes (Mod.supportedLogLevels (Mod.new_Logger fuel configuration)) (level_name l)
  = isEnabled (nullish (Mod.minLogLevel configuration) (lit "trace")) l /\
  Mod.indexOf Mod.LOG_LEVELS (level_name l) = rank l.
Proof.
  split; [|apply indexOf_level_name].
  apply Bool.eq_true_iff_eq.
  unfold Mod.new_Logger. cbn [Mod.supportedLogLevels].
  rewrite supported_from_index, indexOf_level_name, indexOf_configured_rank.
  unfold isEnabled. rewrite Z.leb_le.
  pose proof (rank_range l). lia.
Qed.



(** *** [stringifyFunction] *)

Lemma split_at_sep (sep : code_unit) (a b : js_string) :
  ~ In sep a -> split sep (a ++ sep :: b) = a :: split sep b.
Proof.
  induction a as [|c a IH]; intros Ha.
  - cbn. now rewrite N.eqb_refl.
  - cbn [app split]. destruct (N.eqb_spec c sep) as [E|E].
    + exfalso. apply Ha. now left.
    + rewrite IH; [reflexivity|]. intros H. apply Ha. now right.
Qed.




(** X12.  [stringifyFunction] throws exactly on a function that has a
    name and whose text holds no opening parenthesis (an arrow function
    of one bare parameter bound to a name, a class with no constructor):
    on every other function it returns a string. *)
Theorem stringifyFunction_throws_iff (name fnString : js_string) :
  (Mod.stringifyFunction name fnString = Mod.Throws
   <-> name <> [] /\ ~ In 40%N fnString) /\
  (Mod.stringifyFunction name fnString = Mod.Throws \/
   exists s, Mod.stringifyFunction name fnString = Mod.Returns s).
Proof.
  assert (Hsplit : In 40%N fnString ->
                   exists piece, nth_error (split 40%N fnString) 1 = Some piece).
  { intros Hin.
    pose proof (split_length 40%N fnString) as L.
    apply (count_occ_In N.eq_dec) in Hin.
    destruct (split 40%N fnString) as [|p [|q r]]; cbn in L; try lia.
    exists q. reflexivity. }
  split.
  - split.
    + intros H. unfold Mod.stringifyFunction in H.
      destruct name as [|n name].
      * destruct (Mod.regex_match Mod.function_pattern fnString); [discriminate H|].
        destruct (Mod.regex_match Mod.arrow_pattern fnString); discriminate H.
      * split; [discriminate|]. intros Hin.
        destruct (Hsplit Hin) as [piece E]. rewrite E in H. discriminate H.
    + intros [Hname Hno]. unfold Mod.stringifyFunction.
      destruct name as [|n name]; [congruence|].
      now rewrite (split_no_sep 40%N fnString Hno).
  - unfold Mod.stringifyFunction.
    destruct name as [|n name].
    + right. destruct (Mod.regex_match Mod.function_pattern fnString); [eauto|].
      destruct (Mod.regex_match Mod.arrow_pattern fnString); eauto.
    + destruct (nth_error (split 40%N fnString) 1); [right; eauto|left; reflexivity].
Qed.








(** *** [JSON.stringify] with the default serializer *)

(** The default serializer as the replacer. *)
Definition default_property : nat -> js_string -> Mod.value -> Mod.completion (option json) :=
  Mod.SerializeJSONProperty Mod.defaultJsonValueSerializer.

(** What is written for a list of members or of elements. *)
Definition written_object (r : Mod.completion (list (js_string * json)))
  : Mod.completion (option json) :=
  match r with
  | Mod.Returns ms => Mod.Returns (Some (JObject ms))
  | Mod.Throws => Mod.Throws
  | Mod.OutOfFuel => Mod.OutOfFuel
  end.

Definition written_array (r : Mod.completion (list json)) : Mod.completion (option json) :=
  match r with
  | Mod.Returns js => Mod.Returns (Some (JArray js))
  | Mod.Throws => Mod.Throws
  | Mod.OutOfFuel => Mod.OutOfFuel
  end.

Definition properties (fuel : nat) (props : list (js_string * Mod.value))
  : list (js_string * Mod.completion (option json)) :=
  map (fun kv => (fst kv, default_property fuel (fst kv) (snd kv))) props.

Lemma default_property_object (fuel : nat) (key : js_string)
    (props : list (js_string * Mod.value)) :
  default_property (S fuel) key (Mod.VObject props)
  = written_object (Mod.collect_members (properties fuel props)).
Proof. reflexivity. Qed.

Lemma default_property_array (fuel : nat) (key : js_string) (items : list Mod.value) :
  default_property (S fuel) key (Mod.VArray items)
  = written_array (Mod.collect_elements (properties fuel (Mod.indexed 0 items))).
Proof. reflexivity. Qed.

Lemma default_property_map (fuel : nat) (key : js_string)
    (entries : list (js_string * Mod.value)) :
  default_property fuel key (Mod.VMap entries)
  = default_property fuel key (Mod.VObject (Mod.fromEntries entries)).
Proof. destruct fuel; reflexivity. Qed.

Lemma default_property_set (fuel : nat) (key : js_string) (elements : list Mod.value) :
  default_property fuel key (Mod.VSet elements)
  = default_property fuel key (Mod.VArray elements).
Proof. destruct fuel; reflexivity. Qed.

Lemma default_property_error (fuel : nat) (key : js_string) (m n s : Mod.value) :
  default_property fuel key (Mod.VError m n s)
  = default_property fuel key
      (Mod.VObject [ (lit "message", m); (lit "name", n); (lit "stack", s) ]).
Proof. destruct fuel; reflexivity. Qed.

Lemma default_property_string (fuel : nat) (key s : js_string) :
  default_property (S fuel) key (Mod.VString s) = Mod.Returns (Some (JString s)).
Proof. reflexivity. Qed.

Lemma default_property_number (fuel : nat) (key : js_string) (x : number) :
  default_property (S fuel) key (Mod.VNumber x) = Mod.Returns (Some (JNumber x)).
Proof. reflexivity. Qed.

(** X15.  A date is written as its ISO text, and a date whose time is
    invalid as [null]: [JSON.stringify] asks the date for [toJSON] before
    the serializer sees it.  Called by itself on such a date, the
    serializer throws the [RangeError] of [toISOString]. *)
Theorem invalid_date_is_written_null (fuel : nat) (key : js_string) (t : js_string) :
  default_property (S fuel) key (Mod.VDate None) = Mod.Returns (Some JNull) /\
  Mod.defaultJsonValueSerializer key (Mod.VDate None) = Mod.Throws /\
  default_property (S fuel) key (Mod.VDate (Some t)) = Mod.Returns (Some (JString t)) /\
  Mod.defaultJsonValueSerializer key (Mod.VDate (Some t)) = Mod.Returns (Mod.VString t).
Proof. repeat split. Qed.

(** *** A map as an object *)

(** [o[k]] on a property list of any values. *)
Definition own {A : Type} (k : js_string) (props : list (js_string * A)) : option A :=
  match find (fun kv => str_eqb k (fst kv)) props with
  | Some kv => Some (snd kv)
  | None => None
  end.

Lemma own_app {A : Type} (k : js_string) (a b : list (js_string * A)) :
  own k (a ++ b) = match own k a with Some v => Some v | None => own k b end.
Proof.
  unfold own. induction a as [|[k' v'] a IH]; [reflexivity|].
  cbn [app find fst]. destruct (str_eqb k k'); [reflexivity|exact IH].
Qed.

Lemma own_CreateDataProperty {A : Type} (k k' : js_string) (v : A)
    (props : list (js_string * A)) :
  own k (Mod.CreateDataProperty k' v props)
  = if str_eqb k k' then Some v else own k props.
Proof.
  induction props as [|[k1 v1] props IH]; cbn [Mod.CreateDataProperty].
  - unfold own. cbn [find fst snd]. now destruct (str_eqb k k').
  - destruct (str_eqb k' k1) eqn:E1.
    + apply str_eqb_eq in E1. subst k1. unfold own. cbn [find fst snd].
      now destruct (str_eqb k k').
    + destruct (key_before k' k1).
      * unfold own. cbn [find fst snd]. now destruct (str_eqb k k').
      * unfold own in *. cbn [find fst snd].
        destruct (str_eqb k k1) eqn:E2.
        -- destruct (str_eqb k k') eqn:E3; [|reflexivity].
           apply str_eqb_eq in E2, E3. subst k1 k'.
           now rewrite str_eqb_refl in E1.
        -- exact IH.
Qed.

Lemma own_fromEntries {A : Type} (k : js_string) (entries : list (js_string * A)) :
  own k (Mod.fromEntries entries) = own k (rev entries).
Proof.
  unfold Mod.fromEntries.
  enough (H : forall acc,
             own k (fold_left (fun o kv => Mod.CreateDataProperty (fst kv) (snd kv) o)
                              entries acc)
             = match own k (rev entries) with Some v => Some v | None => own k acc end).
  { rewrite H. now destruct (own k (rev entries)). }
  induction entries as [|[k' v'] entries IH]; intros acc; [reflexivity|].
  cbn [fold_left rev fst snd]. rewrite IH, own_app, own_CreateDataProperty.
  destruct (own k (rev entries)); [reflexivity|].
  destruct (str_eqb k k') eqn:E; unfold own; cbn [find fst snd]; now rewrite E.
Qed.

Lemma CreateDataProperty_keys {A : Type} (P : js_string -> bool) (k : js_string) (v : A)
    (props : list (js_string * A)) :
  P k = true -> forallb P (map fst props) = true ->
  forallb P (map fst (Mod.CreateDataProperty k v props)) = true.
Proof.
  intros Hk. induction props as [|[k' v'] props IH];
    cbn [Mod.CreateDataProperty map fst forallb].
  - intros _. now rewrite Hk.
  - intros H. apply andb_prop in H as [H1 H2].
    destruct (str_eqb k k'); [cbn [map fst forallb]; now rewrite Hk, H2|].
    destruct (key_before k k'); cbn [map fst forallb].
    + now rewrite Hk, H1, H2.
    + now rewrite H1, IH.
Qed.

Lemma CreateDataProperty_ordered {A : Type} (k : js_string) (v : A)
    (props : list (js_string * A)) :
  ordered_keys (map fst props) = true ->
  ordered_keys (map fst (Mod.CreateDataProperty k v props)) = true.
Proof.
  induction props as [|[k' v'] props IH];
    cbn [Mod.CreateDataProperty map fst ordered_keys]; [reflexivity|].
  intros H. apply andb_prop in H as [Hall Hord].
  destruct (str_eqb k k') eqn:Eeq.
  - apply str_eqb_eq in Eeq. subst k'. cbn [map fst ordered_keys]. now rewrite Hall, Hord.
  - destruct (key_before k k') eqn:Ebefore; cbn [map fst ordered_keys forallb].
    + rewrite Hall, Hord, (str_eqb_sym k' k), Eeq, (key_before_asym k k' Ebefore).
      cbn [negb andb]. rewrite !andb_true_r.
      apply forallb_forall. intros x Hx.
      rewrite forallb_forall in Hall. specialize (Hall x Hx).
      apply andb_prop in Hall as [_ Hb]. apply negb_true_iff in Hb.
      destruct (key_before_later k k' x Ebefore Hb) as [H1 H2].
      now rewrite H1, H2.
    + rewrite IH by assumption. rewrite andb_true_r.
      apply CreateDataProperty_keys; [|assumption].
      now rewrite Eeq, Ebefore.
Qed.

Lemma fromEntries_ordered {A : Type} (entries : list (js_string * A)) :
  ordered_keys (map fst (Mod.fromEntries entries)) = true.
Proof.
  unfold Mod.fromEntries.
  enough (H : forall props : list (js_string * A),
             ordered_keys (map fst props) = true ->
             ordered_keys
               (map fst (fold_left (fun o kv => Mod.CreateDataProperty (fst kv) (snd kv) o)
                                   entries props)) = true).
  { apply H. reflexivity. }
  induction entries as [|[k v] entries IH]; intros props Hp; cbn [fold_left fst snd].
  - exact Hp.
  - apply IH. now apply CreateDataProperty_ordered.
Qed.

(** X16.  A map is written as the object [Object.fromEntries] makes of
    it, at any depth: its keys stand in the order of an object's own keys
    (the array indices first, in ascending order, then the others as they
    came), and where a key comes twice its last value is the one kept. *)
Theorem map_is_written_as_object (fuel : nat) (key : js_string)
    (entries : list (js_string * Mod.value)) :
  Mod.defaultJsonValueSerializer key (Mod.VMap entries)
  = Mod.Returns (Mod.VObject (Mod.fromEntries entries)) /\
  default_property fuel key (Mod.VMap entries)
  = default_property fuel key (Mod.VObject (Mod.fromEntries entries)) /\
  ordered_keys (map fst (Mod.fromEntries entries)) = true /\
  (forall k, own k (Mod.fromEntries entries) = own k (rev entries)).
Proof.
  split; [reflexivity|].
  split; [apply default_property_map|].
  split; [apply fromEntries_ordered|].
  intros k. apply own_fromEntries.
Qed.

(** *** Values with no JSON form *)

Lemma collect_members_skip (a b : list (js_string * Mod.completion (option json)))
    (k : js_string) :
  Mod.collect_members (a ++ (k, Mod.Returns None) :: b) = Mod.collect_members (a ++ b).
Proof.
  induction a as [|[k' [r| |]] a IH]; cbn [app Mod.collect_members]; try reflexivity.
  - now destruct (Mod.collect_members b).
  - now rewrite IH.
Qed.

Lemma collect_elements_null (a b : list (js_string * Mod.completion (option json)))
    (k : js_string) :
  Mod.collect_elements (a ++ (k, Mod.Returns None) :: b)
  = Mod.collect_elements (a ++ (k, Mod.Returns (Some JNull)) :: b).
Proof.
  induction a as [|[k' [r| |]] a IH]; cbn [app Mod.collect_elements]; try reflexivity.
  now rewrite IH.
Qed.

Lemma indexed_app {A : Type} (a b : list A) (i : nat) :
  Mod.indexed i (a ++ b) = Mod.indexed i a ++ Mod.indexed (i + List.length a) b.
Proof.
  revert i; induction a as [|x a IH]; intros i; cbn [app Mod.indexed List.length].
  - now rewrite Nat.add_0_r.
  - rewrite IH. now rewrite Nat.add_succ_r.
Qed.

(** X17.  A property whose value is [undefined] is left out of the
    object that is written, and an element that is [undefined] is written
    [null], at any depth of the context. *)
Theorem undefined_is_left_out (fuel : nat) (key k : js_string)
    (before after : list (js_string * Mod.value)) (front back : list Mod.value) :
  default_property (S (S fuel)) key (Mod.VObject (before ++ (k, Mod.VUndefined) :: after))
  = default_property (S (S fuel)) key (Mod.VObject (before ++ after)) /\
  default_property (S (S fuel)) key (Mod.VArray (front ++ Mod.VUndefined :: back))
  = default_property (S (S fuel)) key (Mod.VArray (front ++ Mod.VNull :: back)).
Proof.
  split.
  - rewrite !default_property_object. unfold properties.
    rewrite !map_app. cbn [map fst snd].
    change (default_property (S fuel) k Mod.VUndefined) with (@Mod.Returns (option json) None).
    now rewrite collect_members_skip.
  - rewrite !default_property_array. unfold properties.
    rewrite !indexed_app. cbn [Mod.indexed]. rewrite !map_app. cbn [map fst snd].
    change (default_property (S fuel) ?x Mod.VUndefined) with (@Mod.Returns (option json) None).
    change (default_property (S fuel) (Logger.decimal_text (0 + List.length front)) Mod.VNull)
      with (Mod.Returns (Some JNull)).
    change (default_property (S fuel) (Logger.decimal_text (0 + List.length front)) Mod.VUndefined)
      with (@Mod.Returns (option json) None).
    now rewrite collect_elements_null.
Qed.

(** X18.  A BigInt and a symbol, which [JSON.stringify] alone would
    refuse or leave out, are written as the strings their [toString]
    gives: the decimal numeral of the BigInt, the description of the
    symbol between [Symbol(] and [)]. *)
Theorem bigint_and_symbol_are_written (fuel : nat) (key : js_string) (z : Z)
    (description : option js_string) :
  default_property (S fuel) key (Mod.VBigInt z)
  = Mod.Returns (Some (JString ((if (z <? 0)%Z then lit "-" else [])
                                  ++ digit_text (digits (Z.abs z))))) /\
  default_property (S fuel) key (Mod.VSymbol description)
  = Mod.Returns (Some (JString (lit "Symbol(" ++ nullish description [] ++ lit ")"))) /\
  Mod.SerializeJSONProperty (fun _ v => Mod.Returns v) (S fuel) key (Mod.VBigInt z)
  = Mod.Throws /\
  Mod.SerializeJSONProperty (fun _ v => Mod.Returns v) (S fuel) key (Mod.VSymbol description)
  = Mod.Returns None.
Proof. repeat split. Qed.

(** *** One record, one line *)

(** A text with no control character in it. *)
Definition printable (s : js_string) : Prop := Forall (fun c => (32 <= c)%N) s.

Lemma printable_app (a b : js_string) : printable a -> printable b -> printable (a ++ b).
Proof. intros Ha Hb. apply Forall_app. now split. Qed.

Lemma printable_digit_text (ds : list Z) : printable (digit_text ds).
Proof.
  unfold printable, digit_text. apply Forall_map, Forall_forall.
  intros d _. unfold digit_unit. lia.
Qed.

Lemma printable_zeros (n : Z) : printable (zeros n).
Proof.
  unfold printable, zeros. apply Forall_forall. intros c Hc.
  apply repeat_spec in Hc. subst c. lia.
Qed.

Lemma printable_units (s : js_string) :
  forallb (fun c => (32 <=? c)%N) s = true -> printable s.
Proof.
  intros H. apply Forall_forall. intros c Hc.
  rewrite forallb_forall in H. apply N.leb_le. now apply H.
Qed.

Lemma printable_format_decimal (ds : list Z) (n : Z) : printable (format_decimal ds n).
Proof.
  unfold format_decimal.
  repeat match goal with |- context [if ?b then _ else _] => destruct b end;
    repeat match goal with
    | |- printable (_ ++ _) => apply printable_app
    | |- printable (digit_text _) => apply printable_digit_text
    | |- printable (zeros _) => apply printable_zeros
    | |- printable (match ?l with _ => _ end) => destruct l as [|? [|? ?]]
    | |- printable _ => apply printable_units; reflexivity
    end.
Qed.

Lemma printable_NumberToString (x : number) : printable (NumberToString x).
Proof.
  destruct x as [|neg|neg|neg m e]; cbn [NumberToString].
  - apply printable_units. reflexivity.
  - destruct neg; apply printable_units; reflexivity.
  - apply printable_units. reflexivity.
  - destruct (shortest_decimal m e) as [s j].
    apply printable_app; [destruct neg; apply printable_units; reflexivity|].
    apply printable_format_decimal.
Qed.

Lemma printable_unicode_escape (c : code_unit) : printable (unicode_escape c).
Proof.
  assert (H : forall n, (32 <= hex_digit n)%N).
  { intros n. unfold hex_digit. destruct (n <? 10)%N; lia. }
  unfold unicode_escape, printable.
  repeat (apply Forall_cons; [first [apply H | vm_compute; discriminate]|]).
  apply Forall_nil.
Qed.

Lemma printable_quote_chars (s : js_string) : printable (quote_chars s).
Proof.
  remember (List.length s) as n eqn:Hn.
  revert s Hn. induction n as [n IH] using lt_wf_ind. intros s Hn.
  destruct s as [|c r]; [constructor|].
  assert (Hr : printable (quote_chars r)).
  { apply (IH (List.length r)); [subst n; cbn; lia|reflexivity]. }
  cbn [quote_chars].
  destruct (short_escape c) as [x|] eqn:Ex.
  - constructor; [vm_compute; discriminate|].
    constructor; [|exact Hr].
    unfold short_escape in Ex.
    repeat match type of Ex with
    | (if ?b then _ else _) = _ => destruct b; [injection Ex as <-; vm_compute; discriminate|]
    end.
    discriminate Ex.
  - destruct (N.ltb_spec c 32) as [Hlt|Hge].
    + apply printable_app; [apply printable_unicode_escape|exact Hr].
    + destruct (is_high_surrogate c) eqn:Eh.
      * destruct r as [|c2 r']; [apply printable_unicode_escape|].
        destruct (is_low_surrogate c2) eqn:El.
        -- constructor; [exact Hge|].
           constructor.
           ++ unfold is_low_surrogate in El. apply andb_prop in El as [El _].
              apply N.leb_le in El. lia.
           ++ apply (IH (List.length r')); [subst n; cbn; lia|reflexivity].
        -- apply printable_app; [apply printable_unicode_escape|exact Hr].
      * destruct (is_low_surrogate c).
        -- apply printable_app; [apply printable_unicode_escape|exact Hr].
        -- constructor; assumption.
Qed.

Lemma printable_join (sep : js_string) (parts : list js_string) :
  printable sep -> Forall printable parts -> printable (join sep parts).
Proof.
  intros Hsep H. induction H as [|p parts Hp Hparts IH]; [constructor|].
  cbn [join]. destruct parts as [|q parts]; [exact Hp|].
  apply printable_app; [exact Hp|]. apply printable_app; [exact Hsep|exact IH].
Qed.

Lemma printable_enclose (opening closing : code_unit) (indent : js_string)
    (parts : list js_string) :
  (32 <= opening)%N -> (32 <= closing)%N -> Forall printable parts ->
  printable (enclose opening closing [] indent parts).
Proof.
  intros Ho Hc H. unfold enclose. destruct parts as [|p parts].
  - repeat constructor; assumption.
  - apply printable_app; [repeat constructor; assumption|].
    apply printable_app; [|repeat constructor; assumption].
    apply printable_join; [repeat constructor; lia|exact H].
Qed.

Lemma printable_QuoteJSONString (s : js_string) : printable (QuoteJSONString s).
Proof.
  unfold QuoteJSONString. constructor; [vm_compute; discriminate|].
  apply printable_app; [apply printable_quote_chars|].
  repeat constructor. vm_compute. discriminate.
Qed.

Lemma printable_serialize (v : json) : forall indent, printable (serialize [] indent v).
Proof.
  induction v as [| b | x | s | items IH | props IH] using json_induction; intros indent.
  - apply printable_units. reflexivity.
  - destruct b; apply printable_units; reflexivity.
  - cbn [serialize]. destruct x; try apply printable_NumberToString;
      apply printable_units; reflexivity.
  - apply printable_QuoteJSONString.
  - cbn [serialize]. apply printable_enclose; try lia.
    apply Forall_map. revert IH. apply Forall_impl. intros x Hx. apply Hx.
  - cbn [serialize]. apply printable_enclose; try lia.
    apply Forall_map. revert IH. apply Forall_impl. intros [k x] Hx. cbn [fst snd] in *.
    apply printable_app; [apply printable_QuoteJSONString|].
    apply printable_app; [repeat constructor; lia|].
    cbn [app]. apply Hx.
Qed.

Lemma printable_no_line_feed (s : js_string) : printable s -> ~ In LF s /\ ~ In 13%N s.
Proof.
  intros H. unfold printable in H. rewrite Forall_forall in H.
  split; intros Hin; apply H in Hin; unfold LF in Hin; lia.
Qed.

Lemma defaultFormatLog_printable (fuel : nat) (serializer : Mod.Serializer)
    (l : Mod.LogObject) (line : option js_string) :
  Mod.defaultFormatLog fuel l serializer = Mod.Returns line ->
  printable (nullish line (lit "undefined")).
Proof.
  unfold Mod.defaultFormatLog, Mod.JSON_stringify_replacer.
  destruct (Mod.SerializeJSONProperty serializer fuel [] (Mod.object_of_LogObject l))
    as [[j|]| |]; intros H; try discriminate H; injection H as <-; cbn [nullish].
  - apply printable_serialize.
  - apply printable_units. reflexivity.
Qed.

(** X19.  With the default formatter, whatever the serializer, the
    context and the other arguments, a call that returns has written
    nothing or one entry, and that entry is one line: it holds no line
    feed, no carriage return and no other control character, those of the
    strings being escaped. *)
Theorem logged_entry_is_one_line (fuel : nat) (configuration : Mod.LoggerConfiguration)
    (level ns msg : js_string) (ctx : Mod.value) (now : js_string)
    (console console' : list js_string) :
  Mod.formatLog configuration = None ->
  Mod.handleLog (Mod.new_Logger fuel configuration) level ns msg ctx now console
  = Mod.Returns console' ->
  console' = console \/
  exists line,
    console' = console ++ [line] /\ printable line /\ ~ In LF line /\ ~ In 13%N line.
Proof.
  intros Hf H. unfold Mod.handleLog in H.
  destruct (Mod.includes _ level); [|left; now injection H as <-].
  right. unfold Mod.new_Logger in H. cbn [Mod.this_formatLog] in H.
  rewrite Hf in H. cbn [nullish] in H.
  match type of H with
  | match ?f with _ => _ end = _ => destruct f as [line| |] eqn:E; try discriminate H
  end.
  injection H as <-. unfold Mod.console_log.
  exists (nullish line (lit "undefined")).
  pose proof (defaultFormatLog_printable _ _ _ _ E) as Hp.
  split; [reflexivity|]. split; [exact Hp|].
  now apply printable_no_line_feed.
Qed.

Lemma logged_entry_is_one_line_witness :
  [text "{'level':'info','level_n':2,'namespace':'n','message':'a\nb','context':{}}"]
  = [] \/
  exists line,
    [text "{'level':'info','level_n':2,'namespace':'n','message':'a\nb','context':{}}"]
    = [] ++ [line] /\ printable line /\ ~ In LF line /\ ~ In 13%N line.
Proof.
  apply (logged_entry_is_one_line 3
           {| Mod.minLogLevel := None; Mod.includeTimestamp := Some false;
              Mod.formatLog := None; Mod.jsonValueSerializer := None |}
           (lit "info") (lit "n") (lit "a" ++ [LF] ++ lit "b") Mod.VUndefined [] []).
  - reflexivity.
  - vm_compute. reflexivity.
Defined.

(** *** The line the default formatter writes *)

(** The literal texts of a goal, written out. *)
Ltac explicit_texts :=
  repeat match goal with
  | |- context [QuoteJSONString (lit ?s)] =>
      let v := eval vm_compute in (QuoteJSONString (lit s)) in
      change (QuoteJSONString (lit s)) with v
  | |- context [text ?s] =>
      let v := eval vm_compute in (text s) in change (text s) with v
  | |- context [lit ?s] =>
      let v := eval vm_compute in (lit s) in change (lit s) with v
  end;
  cbn [app].

(** X20.  The line of the default formatter and serializer is one JSON
    object with the properties in this order: [level], [level_n],
    [namespace], [message], [context] and, last, [timestamp] when the
    record has one; the strings are quoted as JSON quotes them and
    nothing separates the members but a comma. *)
Theorem default_line_layout (fuel : nat) (l : Mod.LogObject) (c : json) :
  default_property (S fuel) (lit "context") (Mod.context l) = Mod.Returns (Some c) ->
  Mod.defaultFormatLog (S (S fuel)) l Mod.defaultJsonValueSerializer
  = Mod.Returns
      (Some (text "{'level':" ++ QuoteJSONString (Mod.level l)
               ++ text ",'level_n':" ++ serialize [] [] (JNumber (number_of_Z (Mod.level_n l)))
               ++ text ",'namespace':" ++ QuoteJSONString (Mod.namespace l)
               ++ text ",'message':" ++ QuoteJSONString (Mod.message l)
               ++ text ",'context':" ++ serialize [] [] c
               ++ match Mod.timestamp l with
                  | Some t => text ",'timestamp':" ++ QuoteJSONString t
                  | None => []
                  end
               ++ lit "}")).
Proof.
  intros Hc.
  unfold Mod.defaultFormatLog, Mod.JSON_stringify_replacer, Mod.object_of_LogObject.
  fold (default_property (S (S fuel)) []).
  rewrite default_property_object. unfold properties.
  rewrite map_app. cbn [map fst snd app].
  rewrite !default_property_string, default_property_number, Hc.
  destruct (Mod.timestamp l) as [t|]; cbn [map fst snd app];
    rewrite ?default_property_string;
    cbn [Mod.collect_members written_object];
    unfold JSON_stringify; cbn [Nat.min repeat serialize enclose map fst snd join app];
    explicit_texts; repeat (rewrite <- app_assoc; cbn [app]); reflexivity.
Qed.

Lemma default_line_layout_witness :
  Mod.defaultFormatLog 3
    {| Mod.level := lit "warn"; Mod.level_n := 3; Mod.namespace := lit "n";
       Mod.message := lit "m"; Mod.context := Mod.VSet [Mod.VBool true];
       Mod.timestamp := Some (lit "T") |}
    Mod.defaultJsonValueSerializer
  = Mod.Returns
      (Some (text "{'level':" ++ QuoteJSONString (lit "warn")
               ++ text ",'level_n':" ++ serialize [] [] (JNumber (number_of_Z 3))
               ++ text ",'namespace':" ++ QuoteJSONString (lit "n")
               ++ text ",'message':" ++ QuoteJSONString (lit "m")
               ++ text ",'context':" ++ serialize [] [] (JArray [JBool true])
               ++ (text ",'timestamp':" ++ QuoteJSONString (lit "T"))
               ++ lit "}")).
Proof.
  apply (default_line_layout 1
           {| Mod.level := lit "warn"; Mod.level_n := 3; Mod.namespace := lit "n";
              Mod.message := lit "m"; Mod.context := Mod.VSet [Mod.VBool true];
              Mod.timestamp := Some (lit "T") |} (JArray [JBool true])).
  reflexivity.
Defined.

(** *** From the logger to the pretty printer *)

(** A value a program can hold: the keys of its objects in the order of
    own keys, its Numbers canonical. *)
Fixpoint value_wf (v : Mod.value) : bool :=
  match v with
  | Mod.VNumber x => wf_number x
  | Mod.VArray items => forallb value_wf items
  | Mod.VObject props =>
      ordered_keys (map fst props) && forallb (fun kv => value_wf (snd kv)) props
  | Mod.VError m n s => value_wf m && value_wf n && value_wf s
  | Mod.VTypedArray _ elements => forallb value_wf elements
  | Mod.VMap entries => forallb (fun kv => value_wf (snd kv)) entries
  | Mod.VSet elements => forallb value_wf elements
  | _ => true
  end.

(** The same of a JSON value. *)
Fixpoint json_wf (v : json) : bool :=
  match v with
  | JNumber x => wf_number x
  | JArray items => forallb json_wf items
  | JObject props =>
      ordered_keys (map fst props) && forallb (fun kv => json_wf (snd kv)) props
  | _ => true
  end.

(** What is read back of the text of a JSON value: a Number that is not
    finite has been written [null], and the negative zero [0]. *)
Fixpoint as_read (v : json) : json :=
  match v with
  | JNumber NaN | JNumber (Infinity _) => JNull
  | JNumber (Zero _) => JNumber (Zero false)
  | JArray items => JArray (map as_read items)
  | JObject props => JObject (map (fun kv => (fst kv, as_read (snd kv))) props)
  | _ => v
  end.

Lemma serialize_as_read (v : json) :
  forall indent, serialize [] indent (as_read v) = serialize [] indent v.
Proof.
  induction v as [| b | x | s | items IH | props IH] using json_induction;
    intros indent; try reflexivity.
  - destruct x as [|neg|neg|neg m e]; reflexivity.
  - cbn [as_read serialize]. f_equal. rewrite map_map.
    apply map_ext_in. intros x Hx. rewrite Forall_forall in IH. now apply IH.
  - cbn [as_read serialize]. f_equal. rewrite map_map.
    apply map_ext_in. intros [k x] Hx. rewrite Forall_forall in IH.
    cbn [fst snd]. now rewrite (IH (k, x) Hx).
Qed.

Lemma as_read_stable (v : json) : json_wf v = true -> json_stable (as_read v) = true.
Proof.
  induction v as [| b | x | s | items IH | props IH] using json_induction;
    try reflexivity.
  - destruct x as [|neg|neg|neg m e]; try reflexivity. cbn. trivial.
  - cbn [json_wf as_read json_stable]. intros H.
    rewrite forallb_forall in H. apply forallb_forall. intros y Hy.
    apply in_map_iff in Hy as (x & <- & Hx).
    rewrite Forall_forall in IH. apply IH; [exact Hx|]. now apply H.
  - cbn [json_wf as_read json_stable]. intros H. apply andb_prop in H as [Hk Hv].
    assert (E : map fst (map (fun kv => (fst kv, as_read (snd kv))) props) = map fst props)
      by (rewrite map_map; apply map_ext; reflexivity).
    rewrite E, Hk. cbn [andb].
    rewrite forallb_forall in Hv. apply forallb_forall. intros y Hy.
    apply in_map_iff in Hy as ([k x] & <- & Hx).
    rewrite Forall_forall in IH. cbn [snd]. apply (IH (k, x) Hx). now apply (Hv (k, x)).
Qed.

Lemma JSON_parse_written (v : json) :
  json_wf v = true -> JSON_parse (JSON_stringify v 0) = Some (as_read v).
Proof.
  intros H. unfold JSON_stringify. rewrite <- serialize_as_read.
  apply (JSON_parse_stringify (as_read v)). now apply as_read_stable.
Qed.

Section WrittenValues.
Variable fuel : nat.
Hypothesis written_wf :
  forall key v j,
    value_wf v = true -> default_property fuel key v = Mod.Returns (Some j) ->
    json_wf j = true.

Lemma collect_members_wf (props : list (js_string * Mod.value)) :
  forallb (fun kv => value_wf (snd kv)) props = true ->
  forall ms,
    Mod.collect_members (properties fuel props) = Mod.Returns ms ->
    forallb (fun kv => json_wf (snd kv)) ms = true /\
    (forall P : js_string -> bool,
        forallb P (map fst props) = true -> forallb P (map fst ms) = true) /\
    (ordered_keys (map fst props) = true -> ordered_keys (map fst ms) = true).
Proof.
  induction props as [|[k v] props IH]; intros Hwf ms H.
  - injection H as <-. repeat split; auto.
  - cbn [forallb snd] in Hwf. apply andb_prop in Hwf as [Hv Hrest].
    cbn [properties map fst snd Mod.collect_members] in H.
    destruct (default_property fuel k v) as [r| |] eqn:Er; try discriminate H.
    fold (properties fuel props) in H.
    destruct (Mod.collect_members (properties fuel props)) as [ms'| |] eqn:Ec;
      try discriminate H.
    injection H as <-.
    destruct (IH Hrest ms' eq_refl) as (Hj & Hkeys & Hord).
    destruct r as [j|].
    + pose proof (written_wf k v j Hv Er) as Hjwf.
      split; [cbn [forallb snd]; now rewrite Hjwf, Hj|].
      split.
      * intros P HP. cbn [map fst forallb] in *. apply andb_prop in HP as [HPk HPr].
        now rewrite HPk, Hkeys.
      * cbn [map fst ordered_keys]. intros Ho. apply andb_prop in Ho as [Hall Ho].
        now rewrite Hkeys, Hord.
    + split; [exact Hj|]. split.
      * intros P HP. cbn [map fst forallb] in HP. apply andb_prop in HP as [_ HPr].
        now apply Hkeys.
      * cbn [map fst ordered_keys]. intros Ho. apply andb_prop in Ho as [_ Ho].
        now apply Hord.
Qed.

Lemma collect_elements_wf (entries : list (js_string * Mod.value)) :
  forallb (fun kv => value_wf (snd kv)) entries = true ->
  forall js,
    Mod.collect_elements (properties fuel entries) = Mod.Returns js ->
    forallb json_wf js = true.
Proof.
  induction entries as [|[k v] entries IH]; intros Hwf js H.
  - now injection H as <-.
  - cbn [forallb snd] in Hwf. apply andb_prop in Hwf as [Hv Hrest].
    cbn [properties map fst snd Mod.collect_elements] in H.
    destruct (default_property fuel k v) as [r| |] eqn:Er; try discriminate H.
    fold (properties fuel entries) in H.
    destruct (Mod.collect_elements (properties fuel entries)) as [js'| |] eqn:Ec;
      try discriminate H.
    injection H as <-. cbn [forallb]. rewrite (IH Hrest js' eq_refl), andb_true_r.
    destruct r as [j|]; [exact (written_wf k v j Hv Er)|reflexivity].
Qed.
End WrittenValues.

Lemma indexed_values {A : Type} (P : A -> bool) (l : list A) (i : nat) :
  forallb (fun kv => P (snd kv)) (Mod.indexed i l) = forallb P l.
Proof.
  revert i; induction l as [|x l IH]; intros i; [reflexivity|].
  cbn [Mod.indexed forallb snd]. now rewrite IH.
Qed.

Lemma fromEntries_values {A : Type} (P : A -> bool) (entries : list (js_string * A)) :
  forallb (fun kv => P (snd kv)) entries = true ->
  forallb (fun kv => P (snd kv)) (Mod.fromEntries entries) = true.
Proof.
  unfold Mod.fromEntries.
  enough (H : forall acc,
             forallb (fun kv => P (snd kv)) acc = true ->
             forallb (fun kv => P (snd kv)) entries = true ->
             forallb (fun kv => P (snd kv))
               (fold_left (fun o kv => Mod.CreateDataProperty (fst kv) (snd kv) o)
                          entries acc) = true).
  { intros He. now apply H. }
  induction entries as [|[k v] entries IH]; intros acc Hacc He; [exact Hacc|].
  cbn [forallb snd] in He. apply andb_prop in He as [Hv He].
  cbn [fold_left fst snd]. apply IH; [|exact He].
  clear IH He. induction acc as [|[k' v'] acc IHa]; cbn [Mod.CreateDataProperty].
  - cbn. now rewrite Hv.
  - cbn [forallb snd] in Hacc. apply andb_prop in Hacc as [Hv' Hacc].
    destruct (str_eqb k k'); [cbn [forallb snd]; now rewrite Hv, Hacc|].
    destruct (key_before k k'); cbn [forallb snd].
    + now rewrite Hv, Hv', Hacc.
    + now rewrite Hv', IHa.
Qed.

Lemma default_property_wf (fuel : nat) :
  forall key v j,
    value_wf v = true -> default_property fuel key v = Mod.Returns (Some j) ->
    json_wf j = true.
Proof.
  induction fuel as [|f IH]; intros key v j Hwf H; [discriminate H|].
  assert (Hobject : forall props,
             ordered_keys (map fst props) = true ->
             forallb (fun kv => value_wf (snd kv)) props = true ->
             default_property (S f) key (Mod.VObject props) = Mod.Returns (Some j) ->
             json_wf j = true).
  { intros props Ho Hv E. rewrite default_property_object in E.
    destruct (Mod.collect_members (properties f props)) as [ms| |] eqn:Ec;
      try discriminate E.
    injection E as <-.
    destruct (collect_members_wf f IH props Hv ms Ec) as (Hj & _ & Hord).
    cbn [json_wf]. now rewrite Hord, Hj. }
  assert (Harray : forall items,
             forallb value_wf items = true ->
             default_property (S f) key (Mod.VArray items) = Mod.Returns (Some j) ->
             json_wf j = true).
  { intros items Hv E. rewrite default_property_array in E.
    destruct (Mod.collect_elements (properties f (Mod.indexed 0 items))) as [js| |] eqn:Ec;
      try discriminate E.
    injection E as <-. cbn [json_wf].
    apply (collect_elements_wf f IH (Mod.indexed 0 items)); [|exact Ec].
    now rewrite indexed_values. }
  destruct v.
  9: { cbn [value_wf] in Hwf. apply andb_prop in Hwf as [Ho Hv]. now apply (Hobject props). }
  8: { now apply (Harray items). }
  all: try (cbn in H; injection H as <-; first [exact Hwf | reflexivity]).
  all: try (cbn in H; discriminate H).
  - (* an error *)
    rewrite default_property_error in H.
    cbn [value_wf] in Hwf. apply andb_prop in Hwf as [Hwf Hs].
    apply andb_prop in Hwf as [Hm Hn].
    apply (Hobject [ (lit "message", v1); (lit "name", v2); (lit "stack", v3) ]);
      [reflexivity| |exact H].
    cbn [forallb snd]. now rewrite Hm, Hn, Hs.
  - (* a date *)
    destruct iso; cbn in H; injection H as <-; reflexivity.
  - (* a map *)
    rewrite default_property_map in H.
    apply (Hobject (Mod.fromEntries entries));
      [apply fromEntries_ordered|now apply fromEntries_values|exact H].
  - (* a set *)
    rewrite default_property_set in H. now apply (Harray elements).
  - (* a function *)
    unfold default_property in H.
    cbn [Mod.SerializeJSONProperty Mod.toJSON Mod.defaultJsonValueSerializer] in H.
    destruct (Mod.stringifyFunction name fnString); try discriminate H.
    injection H as <-. reflexivity.
Qed.

(** The JSON value of the line of a record, [r] being what is written of
    its context. *)
Definition record_object (l : Mod.LogObject) (r : option json) : json :=
  JObject
    ([ (lit "level", JString (Mod.level l));
       (lit "level_n", JNumber (number_of_Z (Mod.level_n l)));
       (lit "namespace", JString (Mod.namespace l));
       (lit "message", JString (Mod.message l)) ]
     ++ match r with Some c => [ (lit "context", c) ] | None => [] end
     ++ match Mod.timestamp l with
        | Some t => [ (lit "timestamp", JString t) ]
        | None => []
        end).

Lemma defaultFormatLog_cases (fuel : nat) (l : Mod.LogObject) :
  Mod.defaultFormatLog (S (S fuel)) l Mod.defaultJsonValueSerializer
  = match default_property (S fuel) (lit "context") (Mod.context l) with
    | Mod.Returns r => Mod.Returns (Some (JSON_stringify (record_object l r) 0))
    | Mod.Throws => Mod.Throws
    | Mod.OutOfFuel => Mod.OutOfFuel
    end.
Proof.
  unfold Mod.defaultFormatLog, Mod.JSON_stringify_replacer, Mod.object_of_LogObject.
  fold (default_property (S (S fuel)) []).
  rewrite default_property_object. unfold properties, record_object.
  rewrite map_app. cbn [map fst snd app].
  rewrite !default_property_string, default_property_number.
  destruct (default_property (S fuel) (lit "context") (Mod.context l)) as [[c|]| |];
    destruct (Mod.timestamp l) as [t|]; cbn [map fst snd app];
    rewrite ?default_property_string; reflexivity.
Qed.

Lemma defaultFormatLog_needs_fuel (fuel : nat) (l : Mod.LogObject) (line : option js_string) :
  Mod.defaultFormatLog fuel l Mod.defaultJsonValueSerializer = Mod.Returns line ->
  exists f, fuel = S (S f).
Proof.
  destruct fuel as [|[|f]]; [discriminate|discriminate|]. intros _. now exists f.
Qed.

(** Is the value written as an object or an array? *)
Definition written_as_object (v : Mod.value) : bool :=
  match v with
  | Mod.VObject _ | Mod.VArray _ | Mod.VMap _ | Mod.VSet _ | Mod.VError _ _ _ => true
  | _ => false
  end.

Lemma written_as_object_spec (fuel : nat) (key : js_string) (v : Mod.value)
    (r : option json) :
  written_as_object v = true ->
  default_property fuel key v = Mod.Returns r ->
  exists c, r = Some c /\ is_object c.
Proof.
  intros Hv H. destruct fuel as [|f]; [discriminate H|].
  assert (Hobject : forall props,
             default_property (S f) key (Mod.VObject props) = Mod.Returns r ->
             exists c, r = Some c /\ is_object c).
  { intros props E. rewrite default_property_object in E.
    destruct (Mod.collect_members (properties f props)) as [ms| |]; try discriminate E.
    injection E as <-. exists (JObject ms). now split. }
  assert (Harray : forall items,
             default_property (S f) key (Mod.VArray items) = Mod.Returns r ->
             exists c, r = Some c /\ is_object c).
  { intros items E. rewrite default_property_array in E.
    destruct (Mod.collect_elements (properties f (Mod.indexed 0 items))) as [js| |];
      try discriminate E.
    injection E as <-. exists (JArray js). now split. }
  destruct v; try discriminate Hv.
  - now apply (Harray items).
  - now apply (Hobject props).
  - rewrite default_property_error in H. now apply Hobject in H.
  - rewrite default_property_map in H. now apply Hobject in H.
  - rewrite default_property_set in H. now apply (Harray elements).
Qed.

Lemma supported_is_a_level (fuel : nat) (configuration : Mod.LoggerConfiguration)
    (level : js_string) :
  Mod.includes (Mod.supportedLogLevels (Mod.new_Logger fuel configuration)) level = true ->
  In level Mod.LOG_LEVELS.
Proof.
  intros H. unfold Mod.new_Logger in H. cbn [Mod.supportedLogLevels] in H.
  apply supported_from_index in H as [H _].
  destruct (Mod.includes Mod.LOG_LEVELS level) eqn:E.
  - unfold Mod.includes in E. apply existsb_exists in E as (y & Hy & Ey).
    apply str_eqb_eq in Ey. now subst y.
  - rewrite (indexOf_unknown level E) in H. lia.
Qed.

Lemma level_index_is_kept (level : js_string) :
  In level Mod.LOG_LEVELS ->
  as_read (JNumber (number_of_Z (Mod.indexOf Mod.LOG_LEVELS level)))
  = JNumber (number_of_Z (Mod.indexOf Mod.LOG_LEVELS level)).
Proof.
  intros H. unfold Mod.LOG_LEVELS in H.
  destruct H as [H|[H|[H|[H|[H|[H|[]]]]]]]; subst level; vm_compute; reflexivity.
Qed.

Lemma as_read_object (props : list (js_string * json)) :
  as_read (JObject props) = JObject (map (fun kv => (fst kv, as_read (snd kv))) props).
Proof. reflexivity. Qed.

Lemma record_object_wf (l : Mod.LogObject) (c : json) :
  json_wf c = true -> json_wf (record_object l (Some c)) = true.
Proof.
  intros Hc. unfold record_object. cbn [json_wf].
  apply andb_true_intro. split.
  - destruct (Mod.timestamp l); vm_compute; reflexivity.
  - rewrite !forallb_app. cbn [forallb snd json_wf].
    unfold number_of_Z. rewrite round_Q_canonical, Hc.
    destruct (Mod.timestamp l); reflexivity.
Qed.

(** X21.  What a logger with the default formatter and serializer writes
    for a context that is an object (or is left out, or is an array, a
    map, a set or an error) is a line the pretty printer takes for a
    record: the line parses, [isLogObject] accepts what it parses to, and
    it is rendered with the tag of its level, its namespace and its
    message, not printed as it is. *)
Theorem logged_line_is_rendered (colors : Colors) (fuel : nat)
    (configuration : Mod.LoggerConfiguration) (level ns msg : js_string)
    (ctx : Mod.value) (now : js_string) (console console' : list js_string) :
  Mod.formatLog configuration = None ->
  Mod.jsonValueSerializer configuration = None ->
  value_wf ctx = true ->
  written_as_object (Mod.default_param ctx (Mod.VObject [])) = true ->
  Mod.handleLog (Mod.new_Logger fuel configuration) level ns msg ctx now console
  = Mod.Returns console' ->
  console' = console \/
  exists line json c,
    console' = console ++ [line] /\
    JSON_parse line = Some json /\
    isLogObject json = true /\
    PrettyPrint.get json (lit "context") = Some c /\
    prettyPrintLogObject colors line
    = level_tag colors level ++ lit "[" ++ cyan colors ns ++ lit "] "
        ++ white colors msg ++ [LF] ++ gray colors (JSON_stringify c 2).
Proof.
  intros Hf Hs Hwf Hobj H. unfold Mod.handleLog in H.
  destruct (Mod.includes _ level) eqn:Hinc; [|left; now injection H as <-].
  right.
  pose proof (supported_is_a_level _ _ _ Hinc) as Hlevel.
  unfold Mod.new_Logger in H.
  cbn [Mod.this_formatLog Mod.this_jsonValueSerializer Mod.this_includeTimestamp] in H.
  rewrite Hf, Hs in H. cbn [nullish] in H.
  match type of H with
  | match Mod.defaultFormatLog _ ?r _ with _ => _ end = _ => set (record := r) in H
  end.
  destruct (Mod.defaultFormatLog fuel record Mod.defaultJsonValueSerializer)
    as [line| |] eqn:E; try discriminate H.
  injection H as <-.
  destruct (defaultFormatLog_needs_fuel _ _ _ E) as [f ->].
  rewrite defaultFormatLog_cases in E.
  destruct (default_property (S f) (lit "context") (Mod.context record))
    as [r| |] eqn:Ec; try discriminate E.
  injection E as <-.
  cbn [Mod.context record] in Ec.
  destruct (written_as_object_spec _ _ _ _ Hobj Ec) as (c & -> & Hc).
  assert (Hcwf : json_wf c = true).
  { apply (default_property_wf (S f) (lit "context")
             (Mod.default_param ctx (Mod.VObject [])) c); [|exact Ec].
    destruct ctx; exact Hwf. }
  unfold Mod.console_log. cbn [nullish].
  set (props :=
         [ (lit "level", JString level);
           (lit "level_n", JNumber (number_of_Z (Mod.indexOf Mod.LOG_LEVELS level)));
           (lit "namespace", JString ns);
           (lit "message", JString msg);
           (lit "context", as_read c) ]
         ++ match Mod.timestamp record with
            | Some t => [ (lit "timestamp", JString t) ]
            | None => []
            end).
  assert (EJ : as_read (record_object record (Some c)) = JObject props).
  { unfold record_object, props. rewrite as_read_object.
    rewrite !map_app. cbn [map fst snd app Mod.level Mod.level_n Mod.namespace Mod.message record].
    rewrite (level_index_is_kept level Hlevel).
    destruct (Mod.timestamp record); reflexivity. }
  assert (Hparse : JSON_parse (JSON_stringify (record_object record (Some c)) 0)
                   = Some (JObject props)).
  { rewrite <- EJ. apply JSON_parse_written. now apply record_object_wf. }
  assert (Hshape : isLogObject (JObject props) = true).
  { unfold props. destruct c; try contradiction;
      destruct (Mod.timestamp record); reflexivity. }
  exists (JSON_stringify (record_object record (Some c)) 0), (JObject props), (as_read c).
  split; [reflexivity|]. split; [exact Hparse|]. split; [exact Hshape|].
  split; [reflexivity|].
  apply (render_record colors _ props level ns msg (as_read c)); try assumption;
    reflexivity.
Qed.

Lemma logged_line_is_rendered_witness :
  [text "{'level':'warn','level_n':3,'namespace':'n','message':'m','context':{'k':'v'}}"]
  = [] \/
  exists line json c,
    [text "{'level':'warn','level_n':3,'namespace':'n','message':'m','context':{'k':'v'}}"]
    = [] ++ [line] /\
    JSON_parse line = Some json /\
    isLogObject json = true /\
    PrettyPrint.get json (lit "context") = Some c /\
    prettyPrintLogObject no_color line
    = level_tag no_color (lit "warn") ++ lit "[" ++ cyan no_color (lit "n") ++ lit "] "
        ++ white no_color (lit "m") ++ [LF] ++ gray no_color (JSON_stringify c 2).
Proof.
  apply (logged_line_is_rendered no_color 3
           {| Mod.minLogLevel := None; Mod.includeTimestamp := Some false;
              Mod.formatLog := None; Mod.jsonValueSerializer := None |}
           (lit "warn") (lit "n") (lit "m")
           (Mod.VObject [ (lit "k", Mod.VString (lit "v")) ]) [] []).
  - reflexivity.
  - reflexivity.
  - vm_compute. reflexivity.
  - reflexivity.
  - vm_compute. reflexivity.
Defined.

Lemma not_written_as_object_spec (fuel : nat) (key : js_string) (v : Mod.value)
    (r : option json) :
  written_as_object v = false ->
  default_property fuel key v = Mod.Returns r ->
  match r with
  | Some c => ~ is_object c
  | None => True
  end.
Proof.
  intros Hv H. destruct fuel as [|f]; [discriminate H|].
  destruct v; try discriminate Hv;
    try (cbn in H; injection H as <-; cbn; tauto).
  - destruct iso; cbn in H; injection H as <-; cbn; tauto.
  - unfold default_property in H.
    cbn [Mod.SerializeJSONProperty Mod.toJSON Mod.defaultJsonValueSerializer] in H.
    destruct (Mod.stringifyFunction name fnString); try discriminate H.
    injection H as <-. cbn. tauto.
Qed.

Lemma record_object_wf_no_context (l : Mod.LogObject) :
  json_wf (record_object l None) = true.
Proof.
  unfold record_object. cbn [json_wf].
  apply andb_true_intro. split.
  - destruct (Mod.timestamp l); vm_compute; reflexivity.
  - rewrite !forallb_app. cbn [forallb snd json_wf].
    unfold number_of_Z. rewrite round_Q_canonical.
    destruct (Mod.timestamp l); reflexivity.
Qed.

(** X22.  The methods take any value for the context.  Where it is not
    written as an object or an array (a string, a number, a boolean,
    [null], a date, a typed array, a function and the like), the line the
    logger writes is not one the pretty printer takes for a record: it is
    printed as it is. *)
Theorem non_object_context_is_not_rendered (colors : Colors) (fuel : nat)
    (configuration : Mod.LoggerConfiguration) (level ns msg : js_string)
    (ctx : Mod.value) (now : js_string) (console console' : list js_string) :
  Mod.formatLog configuration = None ->
  Mod.jsonValueSerializer configuration = None ->
  value_wf ctx = true ->
  written_as_object (Mod.default_param ctx (Mod.VObject [])) = false ->
  Mod.handleLog (Mod.new_Logger fuel configuration) level ns msg ctx now console
  = Mod.Returns console' ->
  console' = console \/
  exists line,
    console' = console ++ [line] /\
    prettyPrintLogObject colors line = gray colors line.
Proof.
  intros Hf Hs Hwf Hobj H. unfold Mod.handleLog in H.
  destruct (Mod.includes _ level) eqn:Hinc; [|left; now injection H as <-].
  right.
  pose proof (supported_is_a_level _ _ _ Hinc) as Hlevel.
  unfold Mod.new_Logger in H.
  cbn [Mod.this_formatLog Mod.this_jsonValueSerializer Mod.this_includeTimestamp] in H.
  rewrite Hf, Hs in H. cbn [nullish] in H.
  match type of H with
  | match Mod.defaultFormatLog _ ?r _ with _ => _ end = _ => set (record := r) in H
  end.
  destruct (Mod.defaultFormatLog fuel record Mod.defaultJsonValueSerializer)
    as [line| |] eqn:E; try discriminate H.
  injection H as <-.
  destruct (defaultFormatLog_needs_fuel _ _ _ E) as [f ->].
  rewrite defaultFormatLog_cases in E.
  destruct (default_property (S f) (lit "context") (Mod.context record))
    as [r| |] eqn:Ec; try discriminate E.
  injection E as <-.
  cbn [Mod.context record] in Ec.
  pose proof (not_written_as_object_spec _ _ _ _ Hobj Ec) as Hr.
  assert (Hrwf : json_wf (record_object record r) = true).
  { destruct r as [c|]; [|apply record_object_wf_no_context].
    apply record_object_wf.
    apply (default_property_wf (S f) (lit "context")
             (Mod.default_param ctx (Mod.VObject [])) c); [|exact Ec].
    destruct ctx; exact Hwf. }
  unfold Mod.console_log. cbn [nullish].
  exists (JSON_stringify (record_object record r) 0).
  split; [reflexivity|].
  unfold prettyPrintLogObject. rewrite (JSON_parse_written _ Hrwf).
  replace (isLogObject (as_read (record_object record r))) with false; [reflexivity|].
  unfold record_object. rewrite as_read_object, !map_app.
  cbn [map fst snd app Mod.level Mod.level_n Mod.namespace Mod.message record].
  rewrite (level_index_is_kept level Hlevel).
  destruct r as [c|].
  - destruct c as [| b | x | s | items | props]; try (exfalso; apply Hr; exact I);
      try destruct x; destruct (Mod.timestamp record); reflexivity.
  - destruct (Mod.timestamp record); reflexivity.
Qed.

Lemma non_object_context_is_not_rendered_witness :
  [text "{'level':'warn','level_n':3,'namespace':'n','message':'m','context':'Uint8Array(0)'}"]
  = [] \/
  exists line,
    [text "{'level':'warn','level_n':3,'namespace':'n','message':'m','context':'Uint8Array(0)'}"]
    = [] ++ [line] /\
    prettyPrintLogObject ansi_color line = gray ansi_color line.
Proof.
  apply (non_object_context_is_not_rendered ansi_color 3
           {| Mod.minLogLevel := None; Mod.includeTimestamp := Some false;
              Mod.formatLog := None; Mod.jsonValueSerializer := None |}
           (lit "warn") (lit "n") (lit "m")
           (Mod.VTypedArray Logger.Uint8Array []) [] []).
  - reflexivity.
  - reflexivity.
  - reflexivity.
  - reflexivity.
  - vm_compute. reflexivity.
Defined.

(** *** When a call returns *)

(** No function in the value, at any depth the serializer reaches, has a
    name and a text with no opening parenthesis. *)
Fixpoint no_bare_function (v : Mod.value) : bool :=
  match v with
  | Mod.VFunction name fnString =>
      match name with
      | [] => true
      | _ :: _ => existsb (N.eqb 40) fnString
      end
  | Mod.VArray items => forallb no_bare_function items
  | Mod.VObject props => forallb (fun kv => no_bare_function (snd kv)) props
  | Mod.VError m n s => no_bare_function m && no_bare_function n && no_bare_function s
  | Mod.VMap entries => forallb (fun kv => no_bare_function (snd kv)) entries
  | Mod.VSet elements => forallb no_bare_function elements
  | _ => true
  end.

(** How deep the serializer goes into the value. *)
Fixpoint depth (v : Mod.value) : nat :=
  match v with
  | Mod.VArray items => S (list_max (map depth items))
  | Mod.VObject props => S (list_max (map (fun kv => depth (snd kv)) props))
  | Mod.VError m n s => S (Nat.max (depth m) (Nat.max (depth n) (depth s)))
  | Mod.VMap entries => S (list_max (map (fun kv => depth (snd kv)) entries))
  | Mod.VSet elements => S (list_max (map depth elements))
  | _ => 0
  end.

(** A value the serializer goes through with the fuel [fuel]. *)
Definition within (fuel : nat) (v : Mod.value) : bool :=
  no_bare_function v && (depth v <? fuel)%nat.

Lemma list_max_within {A : Type} (f : A -> nat) (l : list A) (n : nat) :
  (list_max (map f l) < n)%nat -> forallb (fun x => (f x <? n)%nat) l = true.
Proof.
  intros H. apply forallb_forall. intros x Hx. apply Nat.ltb_lt.
  assert (Hle : (list_max (map f l) <= list_max (map f l))%nat) by lia.
  apply list_max_le in Hle. rewrite Forall_forall in Hle.
  specialize (Hle (f x) (in_map f l x Hx)). lia.
Qed.

Lemma forallb_and {A : Type} (P Q : A -> bool) (l : list A) :
  forallb P l = true -> forallb Q l = true -> forallb (fun x => P x && Q x) l = true.
Proof.
  intros HP HQ. rewrite forallb_forall in *. intros x Hx.
  now rewrite (HP x Hx), (HQ x Hx).
Qed.

Section Returning.
Variable fuel : nat.
Hypothesis returns :
  forall key v, within fuel v = true -> exists r, default_property fuel key v = Mod.Returns r.

Lemma collect_members_returns (props : list (js_string * Mod.value)) :
  forallb (fun kv => within fuel (snd kv)) props = true ->
  exists ms, Mod.collect_members (properties fuel props) = Mod.Returns ms.
Proof.
  induction props as [|[k v] props IH]; intros H; [now exists []|].
  cbn [forallb snd] in H. apply andb_prop in H as [Hv Hrest].
  destruct (returns k v Hv) as [r Er]. destruct (IH Hrest) as [ms Ems].
  cbn [properties map fst snd Mod.collect_members]. rewrite Er.
  fold (properties fuel props). rewrite Ems. eauto.
Qed.

Lemma collect_elements_returns (entries : list (js_string * Mod.value)) :
  forallb (fun kv => within fuel (snd kv)) entries = true ->
  exists js, Mod.collect_elements (properties fuel entries) = Mod.Returns js.
Proof.
  induction entries as [|[k v] entries IH]; intros H; [now exists []|].
  cbn [forallb snd] in H. apply andb_prop in H as [Hv Hrest].
  destruct (returns k v Hv) as [r Er]. destruct (IH Hrest) as [js Ejs].
  cbn [properties map fst snd Mod.collect_elements]. rewrite Er.
  fold (properties fuel entries). rewrite Ejs. eauto.
Qed.
End Returning.

Lemma stringifyFunction_returns (name fnString : js_string) :
  no_bare_function (Mod.VFunction name fnString) = true ->
  exists s, Mod.stringifyFunction name fnString = Mod.Returns s.
Proof.
  cbn [no_bare_function]. unfold Mod.stringifyFunction.
  destruct name as [|n name].
  - intros _. destruct (Mod.regex_match Mod.function_pattern fnString); [eauto|].
    destruct (Mod.regex_match Mod.arrow_pattern fnString); eauto.
  - intros H. apply existsb_exists in H as (c & Hc & Ec).
    apply N.eqb_eq in Ec. subst c.
    pose proof (split_length 40%N fnString) as L.
    apply (count_occ_In N.eq_dec) in Hc.
    destruct (split 40%N fnString) as [|p [|q r]]; cbn in L; try lia.
    cbn [nth_error]. eauto.
Qed.

Lemma default_property_returns (fuel : nat) :
  forall key v, within fuel v = true -> exists r, default_property fuel key v = Mod.Returns r.
Proof.
  induction fuel as [|f IH]; intros key v H.
  { unfold within in H. apply andb_prop in H as [_ H]. discriminate H. }
  unfold within in H. apply andb_prop in H as [Hsafe Hdepth].
  apply Nat.ltb_lt in Hdepth.
  assert (Hobject : forall props,
             forallb (fun kv => no_bare_function (snd kv)) props = true ->
             forallb (fun kv => (depth (snd kv) <? f)%nat) props = true ->
             exists r, default_property (S f) key (Mod.VObject props) = Mod.Returns r).
  { intros props Hs Hd. rewrite default_property_object.
    destruct (collect_members_returns f IH props) as [ms E].
    - unfold within. now apply forallb_and.
    - rewrite E. cbn [written_object]. eauto. }
  assert (Harray : forall items,
             forallb no_bare_function items = true ->
             forallb (fun x => (depth x <? f)%nat) items = true ->
             exists r, default_property (S f) key (Mod.VArray items) = Mod.Returns r).
  { intros items Hs Hd. rewrite default_property_array.
    destruct (collect_elements_returns f IH (Mod.indexed 0 items)) as [js E].
    - unfold within.
      rewrite (indexed_values (fun x => no_bare_function x && (depth x <? f)%nat)).
      now apply forallb_and.
    - rewrite E. cbn [written_array]. eauto. }
  destruct v; try (cbn; eauto; fail).
  - apply Harray; [exact Hsafe|]. cbn [depth] in Hdepth.
    apply list_max_within. lia.
  - apply Hobject; [exact Hsafe|]. cbn [depth] in Hdepth.
    apply (list_max_within (fun kv => depth (snd kv))). lia.
  - rewrite default_property_error.
    cbn [no_bare_function] in Hsafe. apply andb_prop in Hsafe as [Hsafe Hs3].
    apply andb_prop in Hsafe as [Hs1 Hs2]. cbn [depth] in Hdepth.
    apply Hobject; cbn [forallb snd].
    + now rewrite Hs1, Hs2, Hs3.
    + repeat (apply andb_true_intro; split); try reflexivity; apply Nat.ltb_lt; lia.
  - destruct iso; cbn; eauto.
  - rewrite default_property_map. cbn [depth] in Hdepth.
    apply Hobject.
    + now apply fromEntries_values.
    + apply (fromEntries_values (fun v => (depth v <? f)%nat)).
      apply (list_max_within (fun kv => depth (snd kv))). lia.
  - rewrite default_property_set. apply Harray; [exact Hsafe|]. cbn [depth] in Hdepth.
    apply list_max_within. lia.
  - destruct (stringifyFunction_returns name fnString Hsafe) as [s E].
    unfold default_property.
    cbn [Mod.SerializeJSONProperty Mod.toJSON Mod.defaultJsonValueSerializer].
    rewrite E. eauto.
Qed.



Lemma collect_members_throws (a b : list (js_string * Mod.completion (option json)))
    (k : js_string) (ms : list (js_string * json)) :
  Mod.collect_members a = Mod.Returns ms ->
  Mod.collect_members (a ++ (k, Mod.Throws) :: b) = Mod.Throws.
Proof.
  revert ms. induction a as [|[k' [r| |]] a IH]; intros ms H; cbn [app Mod.collect_members] in *;
    try discriminate H; [reflexivity|].
  destruct (Mod.collect_members a) as [ms'| |]; try discriminate H.
  now rewrite (IH ms' eq_refl).
Qed.

(** X24.  A context that holds a function with a name and a text without
    opening parenthesis (an arrow function of one bare parameter bound to
    a name, a class with no constructor) makes the call throw, with the
    default formatter and serializer: nothing is written for it. *)
Theorem bare_function_makes_the_call_throw (fuel : nat)
    (configuration : Mod.LoggerConfiguration) (level ns msg : js_string)
    (before after : list (js_string * Mod.value)) (key name fnString : js_string)
    (now : js_string) (console : list js_string) :
  Mod.formatLog configuration = None ->
  Mod.jsonValueSerializer configuration = None ->
  Mod.includes (Mod.supportedLogLevels (Mod.new_Logger (S (S (S fuel))) configuration)) level
  = true ->
  forallb (fun kv => within (S fuel) (snd kv)) before = true ->
  name <> [] ->
  ~ In 40%N fnString ->
  Mod.handleLog (Mod.new_Logger (S (S (S fuel))) configuration) level ns msg
    (Mod.VObject (before ++ (key, Mod.VFunction name fnString) :: after)) now console
  = Mod.Throws.
Proof.
  intros Hf Hs Hinc Hbefore Hname Hno. unfold Mod.handleLog. rewrite Hinc.
  unfold Mod.new_Logger.
  cbn [Mod.this_formatLog Mod.this_jsonValueSerializer Mod.this_includeTimestamp].
  rewrite Hf, Hs. cbn [nullish].
  rewrite defaultFormatLog_cases. cbn [Mod.context Mod.default_param].
  rewrite default_property_object. unfold properties.
  rewrite map_app. cbn [map fst snd].
  assert (E : default_property (S fuel) key (Mod.VFunction name fnString) = Mod.Throws).
  { unfold default_property.
    cbn [Mod.SerializeJSONProperty Mod.toJSON Mod.defaultJsonValueSerializer].
    unfold Mod.stringifyFunction. destruct name as [|n name]; [congruence|].
    now rewrite (split_no_sep 40%N fnString Hno). }
  rewrite E.
  destruct (collect_members_returns (S fuel) (default_property_returns (S fuel)) before Hbefore)
    as [ms Ems].
  unfold properties in Ems. now rewrite (collect_members_throws _ _ _ ms Ems).
Qed.

Lemma bare_function_makes_the_call_throw_witness :
  Mod.handleLog (Mod.new_Logger 3 Mod.no_configuration) (lit "info") (lit "n") (lit "m")
    (Mod.VObject ([ (lit "a", Mod.VNull) ]
                    ++ (lit "cb", Mod.VFunction (lit "cb") (lit "x => x")) :: []))
    (lit "T") []
  = Mod.Throws.
Proof.
  apply (bare_function_makes_the_call_throw 0 Mod.no_configuration (lit "info") (lit "n")
           (lit "m") [ (lit "a", Mod.VNull) ] [] (lit "cb") (lit "cb") (lit "x => x")
           (lit "T") []).
  - reflexivity.
  - reflexivity.
  - reflexivity.
  - reflexivity.
  - discriminate.
  - vm_compute. intuition discriminate.
Defined.

(** *** The six methods *)

Lemma level_index_text (z : Z) :
  (0 <= z <= 5)%Z -> serialize [] [] (JNumber (number_of_Z z)) = digit_text [z].
Proof.
  intros H.
  assert (E : z = 0%Z \/ z = 1%Z \/ z = 2%Z \/ z = 3%Z \/ z = 4%Z \/ z = 5%Z) by lia.
  destruct E as [E|[E|[E|[E|[E|E]]]]]; subst z; vm_compute; reflexivity.
Qed.

Lemma record_line (l : Mod.LogObject) (c : json) :
  JSON_stringify (record_object l (Some c)) 0
  = text "{'level':" ++ QuoteJSONString (Mod.level l)
      ++ text ",'level_n':" ++ serialize [] [] (JNumber (number_of_Z (Mod.level_n l)))
      ++ text ",'namespace':" ++ QuoteJSONString (Mod.namespace l)
      ++ text ",'message':" ++ QuoteJSONString (Mod.message l)
      ++ text ",'context':" ++ serialize [] [] c
      ++ match Mod.timestamp l with
         | Some t => text ",'timestamp':" ++ QuoteJSONString t
         | None => []
         end
      ++ lit "}".
Proof.
  unfold record_object, JSON_stringify.
  destruct (Mod.timestamp l) as [t|];
    cbn [Nat.min repeat serialize enclose map fst snd join app];
    explicit_texts; repeat (rewrite <- app_assoc; cbn [app]); reflexivity.
Qed.

Ltac method_line :=
  intros;
  unfold Mod.trace, Mod.debug, Mod.info, Mod.warn, Mod.error, Mod.fatal, Mod.handleLog;
  match goal with
  | |- context [Mod.includes ?a ?x] =>
      replace (Mod.includes a x) with true by (vm_compute; reflexivity)
  end;
  unfold Mod.new_Logger, Mod.no_configuration;
  cbn [Mod.this_formatLog Mod.this_jsonValueSerializer Mod.this_includeTimestamp
       Mod.formatLog Mod.jsonValueSerializer Mod.includeTimestamp nullish
       Mod.default_param];
  rewrite defaultFormatLog_cases;
  cbn [Mod.context];
  rewrite default_property_object;
  cbn [properties map Mod.collect_members written_object];
  unfold Mod.console_log; cbn [nullish];
  match goal with
  | |- Mod.Returns (?c ++ [_]) = _ => apply (f_equal (fun l => Mod.Returns (c ++ [l])))
  end;
  rewrite record_line;
  cbn [Mod.level Mod.level_n Mod.namespace Mod.message Mod.timestamp];
  match goal with
  | |- context [number_of_Z ?z] =>
      let z' := eval vm_compute in z in
      change z with z';
      rewrite (level_index_text z') by lia
  end;
  change (serialize [] [] (JObject [])) with (lit "{}");
  explicit_texts; repeat (rewrite <- app_assoc; cbn [app]); reflexivity.

(** X25.  Each of the six methods of a logger made with no configuration
    writes, for a call with no context, one line with its own level, the
    index of that level, the namespace and the message it was given, an
    empty context and the reading of the clock, in this order. *)
Theorem methods_write_their_level (fuel : nat) (ns msg now : js_string)
    (console : list js_string) :
  let logger := Mod.new_Logger (S (S fuel)) Mod.no_configuration in
  let line := fun level_and_index =>
    text "{'level':" ++ level_and_index
      ++ text ",'namespace':" ++ QuoteJSONString ns
      ++ text ",'message':" ++ QuoteJSONString msg
      ++ text ",'context':{},'timestamp':" ++ QuoteJSONString now ++ lit "}" in
  Mod.trace logger ns msg Mod.VUndefined now console
  = Mod.Returns (console ++ [line (text "'trace','level_n':0")]) /\
  Mod.debug logger ns msg Mod.VUndefined now console
  = Mod.Returns (console ++ [line (text "'debug','level_n':1")]) /\
  Mod.info logger ns msg Mod.VUndefined now console
  = Mod.Returns (console ++ [line (text "'info','level_n':2")]) /\
  Mod.warn logger ns msg Mod.VUndefined now console
  = Mod.Returns (console ++ [line (text "'warn','level_n':3")]) /\
  Mod.error logger ns msg Mod.VUndefined now console
  = Mod.Returns (console ++ [line (text "'error','level_n':4")]) /\
  Mod.fatal logger ns msg Mod.VUndefined now console
  = Mod.Returns (console ++ [line (text "'fatal','level_n':5")]).
Proof.
  cbv zeta. split; [|split; [|split; [|split; [|split]]]]; method_line.
Qed.

(** *** Typed arrays *)

(** X26.  A typed array in a context is written as the name of its class
    and the number of its elements between parentheses, as rule 2 of the
    specification has it; its elements are not read, so an array of
    BigInts, on which [JSON.stringify] alone throws, is written too. *)
Theorem typed_array_is_written_as_label (fuel : nat) (key : js_string)
    (kind : typed_array_kind) (elements : list Mod.value) (zs : list Z) (z : Z) :
  default_property (S fuel) key (Mod.VTypedArray kind elements)
  = Mod.Returns
      (Some (JString (typed_array_name kind ++ lit "("
                        ++ decimal_text (List.length elements) ++ lit ")"))) /\
  (List.length zs = List.length elements ->
   default_property (S fuel) key (Mod.VTypedArray kind elements)
   = Mod.Returns (Some (defaultJsonValueSerializer key (VTypedArray kind zs)))) /\
  Mod.SerializeJSONProperty (fun _ v => Mod.Returns v) (S (S fuel)) key
    (Mod.VTypedArray kind (Mod.VBigInt z :: elements))
  = Mod.Throws.
Proof.
  split; [reflexivity|]. split; [|reflexivity].
  intros E. cbn [defaultJsonValueSerializer]. rewrite E. reflexivity.
Qed.

Lemma typed_array_is_written_as_label_witness :
  default_property 1 (lit "i16a")
    (Mod.VTypedArray Int16Array (repeat (Mod.VNumber (Zero false)) 10))
  = Mod.Returns
      (Some (defaultJsonValueSerializer (lit "i16a") (VTypedArray Int16Array (repeat 0%Z 10)))).
Proof.
  apply (typed_array_is_written_as_label 0 (lit "i16a") Int16Array
           (repeat (Mod.VNumber (Zero false)) 10) (repeat 0%Z 10) 0%Z).
  reflexivity.
Defined.

(* ================================================================== *)
(** ** [src/scripts/generate-release.ts]: the message of the tag *)
(* ================================================================== *)

(** [changelog.split("\n").slice(1).join("\n")] *)
Definition tag_message (changelog : js_string) : js_string :=
  join [LF] (skipn 1 (split LF changelog)).

(** X27.  The message of the tag is the changelog without its first
    line, the rest unchanged; a changelog of one line gives an empty
    message. *)
Theorem tag_message_drops_first_line (first rest : js_string) :
  ~ In LF first ->
  tag_message (first ++ [LF] ++ rest) = rest /\
  tag_message first = [].
Proof.
  intros H. unfold tag_message. split.
  - change (first ++ [LF] ++ rest) with (first ++ LF :: rest).
    rewrite (split_at_sep LF first rest H). cbn [skipn]. apply join_split.
  - now rewrite (split_no_sep LF first H).
Qed.

Lemma tag_message_drops_first_line_witness :
  tag_message (lit "# 1.2.0" ++ [LF] ++ (lit "* fix" ++ [LF] ++ lit "* feat"))
  = lit "* fix" ++ [LF] ++ lit "* feat" /\
  tag_message (lit "# 1.2.0") = [].
Proof.
  apply (tag_message_drops_first_line (lit "# 1.2.0") (lit "* fix" ++ [LF] ++ lit "* feat")).
  vm_compute. intuition discriminate.
Defined.

(* ================================================================== *)
(** ** The byte order mark in the input of [main] *)
(* ================================================================== *)

Lemma utf8_run_ascii_app (ns rest : list N) :
  Forall (fun n => (n < 128)%N) ns ->
  utf8_run utf8_idle (ns ++ rest) = ns ++ utf8_run utf8_idle rest.
Proof.
  induction 1 as [|n ns Hn _ IH]; [reflexivity|].
  cbn [app utf8_run utf8_byte utf8_idle u_needed]. unfold utf8_lead.
  replace (n <=? 127)%N with true by (symmetry; apply N.leb_le; lia).
  cbn [app]. f_equal. exact IH.
Qed.

Lemma ascii_bytes_numbers (c : list byte) :
  ascii_bytes c = true -> Forall (fun n => (n < 128)%N) (map Byte.to_N c).
Proof.
  intros H. apply Forall_map, Forall_forall. intros b Hb.
  unfold ascii_bytes in H. rewrite forallb_forall in H.
  apply N.ltb_lt, H, Hb.
Qed.

(** X28.  The decoder starts anew on every chunk, so a byte order mark
    is dropped at the start of any chunk, not of the first only, while
    inside a chunk it is read as the character U+FEFF: the same bytes
    print differently according to where the reader cuts them. *)
Theorem byte_order_mark_per_chunk (a b : list byte) :
  ascii_bytes a = true -> ascii_bytes b = true -> a <> [] ->
  TextDecoder_decode ([xef; xbb; xbf] ++ b) = map Byte.to_N b /\
  TextDecoder_decode (a ++ [xef; xbb; xbf] ++ b)
  = map Byte.to_N a ++ [65279%N] ++ map Byte.to_N b /\
  TextDecoder_decode a ++ TextDecoder_decode ([xef; xbb; xbf] ++ b)
  <> TextDecoder_decode (a ++ [xef; xbb; xbf] ++ b).
Proof.
  intros Ha Hb Hne.
  pose proof (ascii_bytes_numbers a Ha) as Na.
  pose proof (ascii_bytes_numbers b Hb) as Nb.
  assert (E1 : TextDecoder_decode ([xef; xbb; xbf] ++ b) = map Byte.to_N b).
  { unfold TextDecoder_decode. cbn [app map Byte.to_N strip_bom].
    now apply utf8_run_ascii. }
  assert (E2 : TextDecoder_decode (a ++ [xef; xbb; xbf] ++ b)
               = map Byte.to_N a ++ [65279%N] ++ map Byte.to_N b).
  { unfold TextDecoder_decode. rewrite !map_app.
    destruct a as [|x a]; [congruence|].
    cbn [map app] in *. rewrite strip_bom_other.
    - pose proof (utf8_run_ascii_app (Byte.to_N x :: map Byte.to_N a)
                    (239%N :: 187%N :: 191%N :: map Byte.to_N b) Na) as E.
      cbn [app] in E. cbn [Byte.to_N]. rewrite E. f_equal. f_equal.
      change (utf8_run utf8_idle (239%N :: 187%N :: 191%N :: map Byte.to_N b))
        with ([65279%N] ++ utf8_run utf8_idle (map Byte.to_N b)).
      now rewrite utf8_run_ascii.
    - inversion Na; subst. lia. }
  split; [exact E1|]. split; [exact E2|].
  rewrite E1, E2, (decode_ascii a Ha).
  intros H. apply app_inv_head in H.
  apply (f_equal (@List.length N)) in H.
  cbn [app List.length] in H. lia.
Qed.

Lemma byte_order_mark_per_chunk_witness :
  TextDecoder_decode ([xef; xbb; xbf] ++ [x62]) = map Byte.to_N [x62] /\
  TextDecoder_decode ([x61] ++ [xef; xbb; xbf] ++ [x62])
  = map Byte.to_N [x61] ++ [65279%N] ++ map Byte.to_N [x62] /\
  TextDecoder_decode [x61] ++ TextDecoder_decode ([xef; xbb; xbf] ++ [x62])
  <> TextDecoder_decode ([x61] ++ [xef; xbb; xbf] ++ [x62]).
Proof.
  apply (byte_order_mark_per_chunk [x61] [x62]); [reflexivity|reflexivity|discriminate].
Defined.
